(** * manga-proxy: the IPv6 relay handler ([ipv6Proxy.js])

    A shallow embedding of the relay module that [server.js] mounts on
    [/i6], and the properties of its address generator, token validator,
    header transforms and request lifecycle.  The earlier copy of the
    module that the repository still holds is embedded in [Legacy] where
    it differs.

    Conventions.
    - A JavaScript string is a Rocq [string] holding its UTF-8 bytes, so
      [Buffer.from(s, 'utf8')] is the list of its characters.  Header names
      are HTTP tokens (ASCII), for which [toLowerCase] is the ASCII one.
    - Plain objects used as dictionaries ([req.headers], the parsed
      [headers] parameter, the object built by [filterResponseHeaders]) are
      finite maps from property name to value, their own properties.  The
      object [fwdHeaders], into which caller-supplied properties are
      assigned, is modelled with its prototype, which an assignment to
      [__proto__] replaces.
    - Everything the module reads from outside (environment, clock, random
      bytes, shell commands, sockets, the upstream fetch) is a field of an
      explicit [World]; effects are recorded in a trace of events.
    - Integers are [Z]; 32-bit words carry their wrap-around explicitly. *)

From Stdlib Require Import ZArith Lia Ascii String.
From stdpp Require Import base option list gmap strings pretty.

Local Open Scope string_scope.
Local Open Scope Z_scope.

(** ** JavaScript values, errors and completion records *)

(** A value as [JSON.parse] or the query parser makes it, restricted to
    what the handler observes: numbers are the integer-valued ones. *)
#[local] Unset Elimination Schemes.
Inductive jsval : Type :=
  | JNull
  | JBool (b : bool)
  | JNum (n : Z)
  | JStr (s : string)
  | JArr (l : list jsval)
  | JObj (l : list (string * jsval)).
#[local] Set Elimination Schemes.

(** ToBoolean. *)
Definition truthy (v : jsval) : bool :=
  match v with
  | JNull => false
  | JBool b => b
  | JNum n => negb (n =? 0)
  | JStr s => negb (String.eqb s "")
  | JArr _ | JObj _ => true
  end.

(** [!o[k]] for a dictionary object: a missing property is [undefined]. *)
Definition falsy_at (o : gmap string jsval) (k : string) : bool :=
  match o !! k with
  | Some v => negb (truthy v)
  | None => true
  end.

(** An [Error] object, with the two extra fields the handler inspects. *)
Record js_error : Type := mkError {
  err_name : string;
  err_type : option string;
  err_message : string
}.

(** A completion: normal return or a thrown error. *)
Inductive outcome (A : Type) : Type :=
  | Ret (a : A)
  | Throw (e : js_error).
Arguments Ret {A} a.
Arguments Throw {A} e.

Definition obind {A B} (m : outcome A) (k : A -> outcome B) : outcome B :=
  match m with
  | Ret a => k a
  | Throw e => Throw e
  end.

Fixpoint omapM {A B} (f : A -> outcome B) (l : list A) : outcome (list B) :=
  match l with
  | [] => Ret []
  | x :: r => obind (f x) (fun y => obind (omapM f r) (fun ys => Ret (y :: ys)))
  end.

(** ** Strings *)

Module Str.

Definition is_upper (c : ascii) : bool :=
  let n := nat_of_ascii c in (65 <=? n)%nat && (n <=? 90)%nat.

Definition lower_char (c : ascii) : ascii :=
  if is_upper c then ascii_of_nat (nat_of_ascii c + 32) else c.

(** [s.toLowerCase()] *)
Fixpoint toLowerCase (s : string) : string :=
  match s with
  | EmptyString => EmptyString
  | String c r => String (lower_char c) (toLowerCase r)
  end.

Definition is_lower (c : ascii) : bool :=
  let n := nat_of_ascii c in (97 <=? n)%nat && (n <=? 122)%nat.

Definition upper_char (c : ascii) : ascii :=
  if is_lower c then ascii_of_nat (nat_of_ascii c - 32) else c.

(** [s.toUpperCase()] *)
Fixpoint toUpperCase (s : string) : string :=
  match s with
  | EmptyString => EmptyString
  | String c r => String (upper_char c) (toUpperCase r)
  end.

(** [s.split(sep)] for a one-character separator. *)
Fixpoint split (sep : ascii) (s : string) : list string :=
  match s with
  | EmptyString => [EmptyString]
  | String c r =>
      if Ascii.eqb c sep then EmptyString :: split sep r
      else match split sep r with
           | [] => [String c EmptyString]
           | p :: ps => String c p :: ps
           end
  end.

(** [parts.join(sep)] *)
Fixpoint join (sep : string) (parts : list string) : string :=
  match parts with
  | [] => EmptyString
  | [p] => p
  | p :: r => p +:+ sep +:+ join sep r
  end.

(** [Boolean(s)] for a string. *)
Definition nonempty (s : string) : bool := negb (String.eqb s "").

Fixpoint repeat_char (c : ascii) (n : nat) : string :=
  match n with
  | O => EmptyString
  | S k => String c (repeat_char c k)
  end.

(** [s.padStart(len, c)] for a one-character filler. *)
Definition padStart (len : nat) (c : ascii) (s : string) : string :=
  repeat_char c (len - String.length s)%nat +:+ s.

Fixpoint has_prefix (p s : string) : bool :=
  match p, s with
  | EmptyString, _ => true
  | String a p', String b s' => Ascii.eqb a b && has_prefix p' s'
  | String _ _, EmptyString => false
  end.

(** [s.includes(needle)] *)
Fixpoint includes (needle s : string) : bool :=
  has_prefix needle s ||
  match s with
  | EmptyString => false
  | String _ r => includes needle r
  end.

Fixpoint all_chars (p : ascii -> bool) (s : string) : bool :=
  match s with
  | EmptyString => true
  | String c r => p c && all_chars p r
  end.

(** No character of [s] is the separator. *)
Definition no_sep (sep : ascii) (s : string) : bool :=
  all_chars (fun c => negb (Ascii.eqb c sep)) s.

Fixpoint chars (s : string) : list ascii :=
  match s with
  | EmptyString => []
  | String c r => c :: chars r
  end.

(** The white space that [s.trim()] removes: TAB, LF, VT, FF, CR, SP,
    U+00A0, U+1680, U+2000 to U+200A, U+2028, U+2029, U+202F, U+205F,
    U+3000 and U+FEFF.  In UTF-8 these are one, two or three bytes. *)
Definition is_ws (c : ascii) : bool :=
  let n := nat_of_ascii c in
  (n =? 32)%nat || ((9 <=? n)%nat && (n <=? 13)%nat).

(** U+00A0 is [C2 A0]. *)
Definition is_ws2 (a b : ascii) : bool :=
  (nat_of_ascii a =? 194)%nat && (nat_of_ascii b =? 160)%nat.

(** U+1680 is [E1 9A 80]; U+2000 to U+200A, U+2028, U+2029 and U+202F are
    [E2 80 80] to [E2 80 8A], [E2 80 A8], [E2 80 A9] and [E2 80 AF]; U+205F
    is [E2 81 9F]; U+3000 is [E3 80 80]; U+FEFF is [EF BB BF]. *)
Definition is_ws3 (a b c : ascii) : bool :=
  let x := nat_of_ascii a in
  let y := nat_of_ascii b in
  let z := nat_of_ascii c in
  ((x =? 225) && (y =? 154) && (z =? 128))%nat
  || ((x =? 226) && (y =? 128)
      && (((128 <=? z) && (z <=? 138)) || (z =? 168) || (z =? 169) || (z =? 175)))%nat
  || ((x =? 226) && (y =? 129) && (z =? 159))%nat
  || ((x =? 227) && (y =? 128) && (z =? 128))%nat
  || ((x =? 239) && (y =? 187) && (z =? 191))%nat.

(** Removing the white space in front.  With [backwards] the string is
    read from its end, so the bytes of a character come last byte first. *)
Fixpoint trim_front (backwards : bool) (s : string) : string :=
  match s with
  | EmptyString => EmptyString
  | String a r1 =>
      if is_ws a then trim_front backwards r1
      else
        match r1 with
        | EmptyString => s
        | String b r2 =>
            if (if backwards then is_ws2 b a else is_ws2 a b)
            then trim_front backwards r2
            else
              match r2 with
              | EmptyString => s
              | String c r3 =>
                  if (if backwards then is_ws3 c b a else is_ws3 a b c)
                  then trim_front backwards r3
                  else s
              end
        end
  end.

Fixpoint of_chars (l : list ascii) : string :=
  match l with
  | [] => EmptyString
  | c :: r => String c (of_chars r)
  end.

Definition reverse (s : string) : string := of_chars (rev (chars s)).

Definition trimStart (s : string) : string := trim_front false s.

Definition trimEnd (s : string) : string :=
  reverse (trim_front true (reverse s)).

Definition trim (s : string) : string := trimEnd (trimStart s).

End Str.

(** ** Numbers as text *)

Module Num.

Definition hex_digit (d : Z) : ascii :=
  match d with
  | 0 => "0" | 1 => "1" | 2 => "2" | 3 => "3" | 4 => "4" | 5 => "5"
  | 6 => "6" | 7 => "7" | 8 => "8" | 9 => "9" | 10 => "a" | 11 => "b"
  | 12 => "c" | 13 => "d" | 14 => "e" | _ => "f"
  end%char.

Fixpoint toString16_go (fuel : nat) (n : Z) (acc : string) : string :=
  match fuel with
  | O => acc
  | S f =>
      if n <=? 0 then acc
      else toString16_go f (n / 16) (String (hex_digit (n mod 16)) acc)
  end.

(** [n.toString(16)] for a non-negative integer. *)
Definition toString16 (n : Z) : string :=
  if n <=? 0 then "0"
  else toString16_go (S (Z.to_nat (Z.log2 n))) n "".

(** A lowercase hexadecimal digit. *)
Definition is_lower_hex (c : ascii) : bool :=
  let n := nat_of_ascii c in
  ((48 <=? n)%nat && (n <=? 57)%nat) || ((97 <=? n)%nat && (n <=? 102)%nat).

(** [String(n)] for an integer: the decimal numeral. *)
Definition toDecimal (n : Z) : string := pretty n.

Definition is_digit (c : ascii) : bool :=
  let n := nat_of_ascii c in (48 <=? n)%nat && (n <=? 57)%nat.

Fixpoint ofDecimal_go (acc : Z) (s : string) : Z :=
  match s with
  | EmptyString => acc
  | String c r => ofDecimal_go (acc * 10 + (Z.of_nat (nat_of_ascii c) - 48)) r
  end.

(** [Number(s)] for a string of decimal digits (exact below 2^53); the
    value 0 stands for [NaN], which is what a byte array stores for it. *)
Definition ofDecimal (s : string) : Z :=
  if Str.all_chars is_digit s then ofDecimal_go 0 s else 0.

End Num.

(** ** Buffers *)

Module Buf.

(** [Buffer.from(s, 'utf8')]: the bytes of the string. *)
Definition of_string (s : string) : list Z :=
  map (fun c => Z.of_nat (nat_of_ascii c)) (Str.chars s).

(** Two lowercase hex digits per byte, as [digest('hex')] prints them. *)
Definition hex_byte (b : Z) : string :=
  String (Num.hex_digit (b / 16)) (String (Num.hex_digit (b mod 16)) EmptyString).

Fixpoint to_hex (bs : list Z) : string :=
  match bs with
  | [] => EmptyString
  | b :: r => hex_byte b +:+ to_hex r
  end.

(** [buf.readUInt16BE(off)]; [None] stands for the range error. *)
Definition readUInt16BE (buf : list Byte.byte) (off : nat) : option Z :=
  match buf !! off, buf !! S off with
  | Some hi, Some lo => Some (Z.of_N (Byte.to_N hi) * 256 + Z.of_N (Byte.to_N lo))
  | _, _ => None
  end.

End Buf.

(** ** SHA-256 (FIPS 180-4) and HMAC (RFC 2104)

    [crypto.createHmac('sha256', key).update(msg).digest('hex')] is Node's
    binding of these two standards; they are written out so that tokens
    can be computed. *)

Module SHA256.

Definition wrap (x : Z) : Z := x mod 2 ^ 32.
Definition add (x y : Z) : Z := wrap (x + y).
Definition rotr (n x : Z) : Z :=
  Z.lor (Z.shiftr x n) (wrap (Z.shiftl x (32 - n))).
Definition shr (n x : Z) : Z := Z.shiftr x n.
Definition lnot (x : Z) : Z := Z.lxor x 4294967295.

Definition Ch (x y z : Z) : Z := Z.lxor (Z.land x y) (Z.land (lnot x) z).
Definition Maj (x y z : Z) : Z :=
  Z.lxor (Z.lxor (Z.land x y) (Z.land x z)) (Z.land y z).
Definition bsig0 (x : Z) : Z := Z.lxor (Z.lxor (rotr 2 x) (rotr 13 x)) (rotr 22 x).
Definition bsig1 (x : Z) : Z := Z.lxor (Z.lxor (rotr 6 x) (rotr 11 x)) (rotr 25 x).
Definition ssig0 (x : Z) : Z := Z.lxor (Z.lxor (rotr 7 x) (rotr 18 x)) (shr 3 x).
Definition ssig1 (x : Z) : Z := Z.lxor (Z.lxor (rotr 17 x) (rotr 19 x)) (shr 10 x).

(** The round constants: the first 32 bits of the fractional parts of
    the cube roots of the first 64 primes (from 428a2f98 to c67178f2). *)
Definition K : list Z :=
  [
    1116352408; 1899447441; 3049323471; 3921009573;
    961987163; 1508970993; 2453635748; 2870763221;
    3624381080; 310598401; 607225278; 1426881987;
    1925078388; 2162078206; 2614888103; 3248222580;
    3835390401; 4022224774; 264347078; 604807628;
    770255983; 1249150122; 1555081692; 1996064986;
    2554220882; 2821834349; 2952996808; 3210313671;
    3336571891; 3584528711; 113926993; 338241895;
    666307205; 773529912; 1294757372; 1396182291;
    1695183700; 1986661051; 2177026350; 2456956037;
    2730485921; 2820302411; 3259730800; 3345764771;
    3516065817; 3600352804; 4094571909; 275423344;
    430227734; 506948616; 659060556; 883997877;
    958139571; 1322822218; 1537002063; 1747873779;
    1955562222; 2024104815; 2227730452; 2361852424;
    2428436474; 2756734187; 3204031479; 3329325298 ].

(** The eight working variables / the hash value. *)
Record state : Type := mkState {
  sa : Z; sb : Z; sc : Z; sd : Z; se : Z; sf : Z; sg : Z; sh : Z
}.

(** The initial hash value: fractional parts of the square roots of
    the first 8 primes (from 6a09e667 to 5be0cd19). *)
Definition H0 : state :=
  mkState 1779033703 3144134277 1013904242 2773480762
          1359893119 2600822924 528734635 1541459225.

(** Padding: a 1 bit, zeros, and the bit length on 64 bits. *)
Definition be_bytes (n : nat) (x : Z) : list Z :=
  map (fun i => (x / 2 ^ (8 * Z.of_nat i)) mod 256) (rev (seq 0 n)).

Definition pad (msg : list Z) : list Z :=
  let len := Z.of_nat (length msg) in
  msg ++ [128] ++ repeat 0 (Z.to_nat ((55 - len) mod 64)) ++ be_bytes 8 (8 * len).

Fixpoint be_words (bs : list Z) : list Z :=
  match bs with
  | b0 :: b1 :: b2 :: b3 :: r =>
      (((b0 * 256 + b1) * 256 + b2) * 256 + b3) :: be_words r
  | _ => []
  end.

(** The message schedule, most recent word first. *)
Fixpoint extend (n : nat) (rw : list Z) : list Z :=
  match n with
  | O => rw
  | S k =>
      let at_ := fun i => nth i rw 0 in
      extend k (add (add (ssig1 (at_ 1%nat)) (at_ 6%nat))
                    (add (ssig0 (at_ 14%nat)) (at_ 15%nat)) :: rw)
  end.

Definition schedule (block : list Z) : list Z :=
  rev (extend 48 (rev (be_words block))).

Definition round (s : state) (kw : Z * Z) : state :=
  let t1 := add (add (add (sh s) (bsig1 (se s))) (Ch (se s) (sf s) (sg s)))
                (add (fst kw) (snd kw)) in
  let t2 := add (bsig0 (sa s)) (Maj (sa s) (sb s) (sc s)) in
  mkState (add t1 t2) (sa s) (sb s) (sc s) (add (sd s) t1) (se s) (sf s) (sg s).

Definition compress (h : state) (block : list Z) : state :=
  let s := fold_left round (combine K (schedule block)) h in
  mkState (add (sa h) (sa s)) (add (sb h) (sb s)) (add (sc h) (sc s))
          (add (sd h) (sd s)) (add (se h) (se s)) (add (sf h) (sf s))
          (add (sg h) (sg s)) (add (sh h) (sh s)).

Fixpoint blocks (n : nat) (bs : list Z) : list (list Z) :=
  match n with
  | O => []
  | S k => take 64 bs :: blocks k (drop 64 bs)
  end.

Definition digest_bytes (s : state) : list Z :=
  be_bytes 4 (sa s) ++ be_bytes 4 (sb s) ++ be_bytes 4 (sc s) ++ be_bytes 4 (sd s) ++
  be_bytes 4 (se s) ++ be_bytes 4 (sf s) ++ be_bytes 4 (sg s) ++ be_bytes 4 (sh s).

Definition hash (msg : list Z) : list Z :=
  let p := pad msg in
  digest_bytes (fold_left compress (blocks (length p / 64) p) H0).

(** HMAC with block size 64. *)
Definition block_key (key : list Z) : list Z :=
  let k := if (64 <? length key)%nat then hash key else key in
  k ++ repeat 0 (64 - length k).

Definition hmac (key msg : list Z) : list Z :=
  let k := block_key key in
  hash (map (Z.lxor 92) k ++ hash (map (Z.lxor 54) k ++ msg)).

(** [createHmac('sha256', key).update(msg).digest('hex')] *)
Definition hmac_hex (key : list Z) (msg : string) : string :=
  Buf.to_hex (hmac key (Buf.of_string msg)).

End SHA256.

(** ** The world of one request *)

(** [{code, out, err}] as [runCmd] resolves it. *)
Record cmd_result : Type := mkCmd {
  cmd_code : Z;
  cmd_out : string;
  cmd_err : string
}.

(** The two fields of a parsed [URL] that the module reads. *)
Record url_info : Type := mkUrl {
  url_protocol : string;
  url_origin : string
}.

(** Outbound transports.  [localAddress] and [keepAlive] are the options
    the module passes to each constructor. *)
Inductive agent : Type :=
  | HttpAgent (localAddress : option string) (keepAlive : bool)
  | HttpsAgent (localAddress : option string) (keepAlive : bool)
  | SocksProxyAgent (proxy : string) (localAddress : option string) (keepAlive : bool)
  | HttpProxyAgent (proxy : string) (localAddress : option string) (keepAlive : bool)
  | HttpsProxyAgent (proxy : string) (localAddress : option string) (keepAlive : bool).

Definition agent_localAddress (a : agent) : option string :=
  match a with
  | HttpAgent l _ | HttpsAgent l _ => l
  | SocksProxyAgent _ l _ | HttpProxyAgent _ l _ | HttpsProxyAgent _ l _ => l
  end.

(** [{ httpAgent, httpsAgent }]; [None] is [undefined]. *)
Record agents : Type := mkAgents {
  httpAgent : option agent;
  httpsAgent : option agent
}.

(** The arguments of the [fetch] call. *)
Record fetch_request : Type := mkFetch {
  f_url : string;
  f_method : string;
  f_headers : gmap string jsval;
  f_agents : agents;
  f_signal : bool;
  f_body : bool
}.

(** What [await fetch(..)] followed by [await response.arrayBuffer()]
    produces: the status, the pairs that [response.headers.entries()]
    yields and the body, or the error thrown by either. *)
Inductive fetch_result : Type :=
  | FetchOk (status : Z) (entries : list (string * string)) (body : string)
  | FetchErr (e : js_error).

Record World : Type := mkWorld {
  w_platform : string;                         (* os.platform() *)
  w_now : Z;                                   (* Date.now(), milliseconds *)
  w_entropy : nat -> Byte.byte;                (* the bytes crypto.randomBytes draws *)
  w_random_index : nat -> nat;                 (* Math.floor(Math.random() * n) *)
  w_env : gmap string string;                  (* process.env *)
  w_runCmd : string -> cmd_result;             (* spawn(cmd, {shell: true}) *)
  w_probe : string -> bool;                    (* the UDP bind + connect of the probe *)
  w_URL : string -> option url_info;           (* new URL(s); None: it throws *)
  w_JSON_parse : string -> option jsval;       (* JSON.parse(s); None: it throws *)
  w_Buffer_from : jsval -> option (list Z);    (* Buffer.from(v), v an array or object *)
  w_agentOk : agent -> bool;                   (* a proxy agent's constructor returns *)
  w_hasAbort : bool;                           (* typeof AbortController !== 'undefined' *)
  w_fetch : fetch_request -> fetch_result
}.

Inductive event : Type :=
  | ELog (msg : string)                        (* console.log under DEBUG *)
  | EWarn (msg : string)                       (* console.warn *)
  | ERandomBytes (n : nat)
  | ERunCmd (cmd : string)
  | EProbe (ip : string)
  | ENewAgent (a : agent)
  | EFetch (rq : fetch_request).

(** A computation: the events it performed and how it completed. *)
Record M (A : Type) : Type := mkM {
  trace : list event;
  result : outcome A
}.
Arguments mkM {A} trace result.
Arguments trace {A} m.
Arguments result {A} m.

Definition ret {A} (a : A) : M A := mkM [] (Ret a).
Definition emit (e : event) : M unit := mkM [e] (Ret tt).

Definition bind {A B} (m : M A) (k : A -> M B) : M B :=
  match result m with
  | Ret a => mkM (trace m ++ trace (k a)) (result (k a))
  | Throw e => mkM (trace m) (Throw e)
  end.

(** [try { m } catch (e) { h e }] with effects. *)
Definition catch {A} (m : M A) (h : js_error -> M A) : M A :=
  match result m with
  | Ret a => m
  | Throw e => mkM (trace m ++ trace (h e)) (result (h e))
  end.

Definition lift {A} (o : outcome A) : M A := mkM [] o.

Declare Scope js_scope.
Delimit Scope js_scope with js.
Notation "'let*' x ':=' m 'in' k" := (bind m (fun x => k))
  (at level 10, x pattern, m at level 100, k at level 200) : js_scope.
Notation "m ';;' k" := (bind m (fun _ => k))
  (at level 100, k at level 200, right associativity) : js_scope.
Local Open Scope js_scope.

(** ** Truthiness of optional strings, [a || b] *)

Definition str_truthy (o : option string) : bool :=
  match o with
  | Some s => Str.nonempty s
  | None => false
  end.

(** A truthy string, or nothing. *)
Definition truthy_str (o : option string) : option string :=
  match o with
  | Some s => if Str.nonempty s then Some s else None
  | None => None
  end.

Definition str_or (a b : option string) : option string :=
  if str_truthy a then a else b.

Definition str_or_default (a : option string) (d : string) : string :=
  match a with
  | Some s => if Str.nonempty s then s else d
  | None => d
  end.

(** ** Configuration read from the environment at load time

    [REQUEST_TIMEOUT] only arms the timer that aborts the fetch; the abort
    shows up as the error the fetch fails with, so it is not a field. *)

Record Config : Type := mkConfig {
  SHARED_SECRET : string;
  VERSION : string;
  IPV6_PREFIX : string;
  IPV6_SUBNET : string;
  INTERFACE : string;
  DEBUG : bool;
  ENABLE_ASSIGN : bool;
  REQUIRE_TOKEN : bool
}.

(** [/^(1|true|yes)$/i.test(s)] *)
Definition flag (s : string) : bool :=
  let l := Str.toLowerCase s in
  bool_decide (l = "1") || bool_decide (l = "true") || bool_decide (l = "yes").

Definition load_config (env : gmap string string) : Config :=
  {| SHARED_SECRET := str_or_default (env !! "I6_SHARED_SECRET") "c";
     VERSION := "1.0.0";
     IPV6_PREFIX := str_or_default (env !! "I6_IPV6_PREFIX") "2001:41d0:601:1100";
     IPV6_SUBNET := str_or_default (env !! "I6_IPV6_SUBNET") "5950";
     INTERFACE := str_or_default (env !! "I6_INTERFACE") "ens3";
     DEBUG := flag (str_or_default (env !! "I6_DEBUG") "false");
     ENABLE_ASSIGN := flag (str_or_default (env !! "I6_ENABLE_ASSIGN") "false");
     REQUIRE_TOKEN := flag (str_or_default (env !! "I6_REQUIRE_TOKEN") "false") |}.

Definition with_secret (cfg : Config) (secret : string) : Config :=
  {| SHARED_SECRET := secret;
     VERSION := VERSION cfg;
     IPV6_PREFIX := IPV6_PREFIX cfg;
     IPV6_SUBNET := IPV6_SUBNET cfg;
     INTERFACE := INTERFACE cfg;
     DEBUG := DEBUG cfg;
     ENABLE_ASSIGN := ENABLE_ASSIGN cfg;
     REQUIRE_TOKEN := REQUIRE_TOKEN cfg |}.

Definition logDebug (cfg : Config) (msg : string) : M unit :=
  if DEBUG cfg then emit (ELog msg) else ret tt.

(** ** AddressGenerator: [randomIPv6] *)

Definition hextets_of (s : string) : list string :=
  List.filter Str.nonempty (Str.split ":" s).

Definition randomBytes (w : World) (n : nat) : M (list Byte.byte) :=
  emit (ERandomBytes n) ;; ret (map (w_entropy w) (seq 0 n)).

Definition random_hextet (buf : list Byte.byte) (i : nat) : outcome string :=
  match Buf.readUInt16BE buf (i * 2) with
  | Some v => Ret (Str.padStart 4 "0" (Num.toString16 v))
  | None => Throw (mkError "RangeError" None "The value of offset is out of range")
  end.

(** [null] is [None]. *)
Definition randomIPv6 (cfg : Config) (w : World) : M (option string) :=
  let prefParts := hextets_of (str_or_default (Some (IPV6_PREFIX cfg)) "") in
  let subParts := hextets_of (str_or_default (Some (IPV6_SUBNET cfg)) "") in
  let fixedCount := Z.of_nat (length prefParts + length subParts) in
  let remaining := 8 - fixedCount in
  if (remaining <=? 0) || (8 <? remaining) then
    logDebug cfg "Invalid IPv6 config: too many hextets in prefix/subnet" ;;
    ret None
  else
    let* buf := randomBytes w (Z.to_nat (remaining * 2)) in
    let* rand := lift (omapM (random_hextet buf) (seq 0 (Z.to_nat remaining))) in
    ret (Some (Str.join ":" (prefParts ++ subParts ++ rand))).

(** ** TokenAuthenticator: [deriveDynamicKey], [validateApiToken] *)

(** [Math.floor(Date.now() / 1000 / (3*60)) * (3*60)] on an integer
    number of milliseconds; the two quotients are taken exactly, which is
    what the double-precision ones floor to for any date a clock shows. *)
Definition nowBucket (now : Z) : Z := (now / 1000 / (3 * 60)) * (3 * 60).

Definition deriveDynamicKey (w : World) : list Z :=
  Buf.of_string (Num.toDecimal (nowBucket (w_now w))).

(** [crypto.timingSafeEqual(a, b)]: throws on buffers of different length. *)
Definition timingSafeEqual (a b : list Z) : outcome bool :=
  if decide (length a = length b) then Ret (bool_decide (a = b))
  else Throw (mkError "RangeError" None "Input buffers must have the same byte length").

Definition expectedToken (w : World) : string :=
  SHA256.hmac_hex (deriveDynamicKey w) "proxy-access".

(** [token || '']; [None] is [undefined]. *)
Definition or_empty (token : option jsval) : jsval :=
  match token with
  | Some v => if truthy v then v else JStr ""
  | None => JStr ""
  end.

(** [Buffer.from(v, 'utf8')].  A string gives its bytes.  An array gives
    one byte per element (the element converted to a number, modulo 256)
    and an object gives bytes when it has a [length] or is the JSON form
    of a buffer; what the platform makes of these two is [w_Buffer_from],
    [None] when it throws.  Any other value is a [TypeError]. *)
Definition Buffer_from (w : World) (v : jsval) : outcome (list Z) :=
  let invalid :=
    mkError "TypeError" None
      "The first argument must be of type string or an instance of Buffer, ArrayBuffer, or Array or an Array-like Object." in
  match v with
  | JStr s => Ret (Buf.of_string s)
  | JArr _ | JObj _ =>
      match w_Buffer_from w v with
      | Some bytes => Ret bytes
      | None => Throw invalid
      end
  | JNull | JBool _ | JNum _ => Throw invalid
  end.

(** The body of the [try] block.  The token is whatever the caller
    passes: a string from the header, and from the query a string, or an
    array or object when the parameter is repeated or bracketed. *)
Definition validateApiToken_try (w : World) (token : option jsval) : outcome bool :=
  let expected := expectedToken w in
  obind (Buffer_from w (or_empty token))
        (fun given => timingSafeEqual given (Buf.of_string expected)).

Definition validateApiToken (cfg : Config) (w : World) (token : option jsval) : M bool :=
  catch (lift (validateApiToken_try w token))
        (fun e => logDebug cfg "validate token error" ;; ret false).

(** ** InterfaceManager and ConnectivityProbe *)

Definition ensureUrlHasScheme (url : string) : string :=
  let l := Str.toLowerCase url in
  if Str.has_prefix "http://" l || Str.has_prefix "https://" l then url
  else "https://" +:+ url.

Definition runCmd (w : World) (cmd : string) : M cmd_result :=
  emit (ERunCmd cmd) ;; ret (w_runCmd w cmd).

Definition checkInterface (cfg : Config) (w : World) : M bool :=
  let* r := runCmd w "ip link show" in
  if negb (cmd_code r =? 0) then
    emit (EWarn "Failed to list interfaces:") ;; ret false
  else
    let ok := Str.includes (INTERFACE cfg) (cmd_out r) in
    (if negb ok then emit (EWarn "Interface not found") else ret tt) ;;
    ret ok.

Definition addIPv6ToInterface (cfg : Config) (w : World) (ip : string) : M bool :=
  if negb (ENABLE_ASSIGN cfg) then ret true
  else
    logDebug cfg "Adding IPv6 to iface" ;;
    let* r := runCmd w ("ip -6 addr add " +:+ ip +:+ "/128 dev " +:+ INTERFACE cfg) in
    if negb (cmd_code r =? 0)
       && negb (Str.includes "file exists" (Str.toLowerCase (cmd_err r))) then
      emit (EWarn "Failed to add IPv6:") ;; ret false
    else ret true.

Definition testIPv6Connectivity (w : World) (ip : string) : M bool :=
  emit (EProbe ip) ;; ret (w_probe w ip).

(** ** AgentSelector *)

Definition pickAgents (localAddress : option string) : M agents :=
  let a := HttpAgent localAddress true in
  let b := HttpsAgent localAddress true in
  emit (ENewAgent a) ;; emit (ENewAgent b) ;;
  ret (mkAgents (Some a) (Some b)).

Definition chooseFromList (w : World) (listStr : option string) : option string :=
  let arr := List.filter Str.nonempty
               (map Str.trim (Str.split "," (str_or_default listStr ""))) in
  if (length arr =? 0)%nat then None
  else arr !! w_random_index w (length arr).

Definition no_agents : agents := mkAgents None None.

(** [new Agent(url, opts)] for a proxy agent: the constructor may throw
    (the SOCKS one does on a protocol such as [socks6:]). *)
Definition newProxyAgent (w : World) (a : agent) : M agent :=
  if w_agentOk w a then emit (ENewAgent a) ;; ret a
  else lift (Throw (mkError "TypeError" None "Unsupported proxy")).

(** The whole body is inside [try]; the [catch] logs and falls through to
    the unset pair. *)
Definition buildProxyAgents (cfg : Config) (w : World)
    (proxyUrl : string) (localAddress : option string) : M agents :=
  catch
    (match w_URL w proxyUrl with
     | None => lift (Throw (mkError "TypeError" None "Invalid URL"))
     | Some url =>
         let proto := Str.toLowerCase (url_protocol url) in
         if Str.has_prefix "socks" proto then
           let* a := newProxyAgent w (SocksProxyAgent proxyUrl localAddress true) in
           ret (mkAgents (Some a) (Some a))
         else if bool_decide (proto = "http:") || bool_decide (proto = "https:") then
           let* a := newProxyAgent w (HttpProxyAgent proxyUrl localAddress true) in
           let* b := newProxyAgent w (HttpsProxyAgent proxyUrl localAddress true) in
           ret (mkAgents (Some a) (Some b))
         else ret no_agents
     end)
    (fun e => logDebug cfg "Invalid proxy URL" ;; ret no_agents).

(** ** HeaderTransformer *)

(** Own enumerable properties of a parsed value, as [Object.assign]
    copies them: the fields of an object (a repeated name keeps its last
    value), the indices of an array. *)
Definition assign_all (props : list (string * jsval))
    (o : gmap string jsval) : gmap string jsval :=
  fold_left (fun m kv => <[fst kv := snd kv]> m) props o.

Definition index_props (l : list jsval) : list (string * jsval) :=
  imap (fun i v => (Num.toDecimal (Z.of_nat i), v)) l.

Definition parseHeadersParam (w : World) (headersStr : option string)
    : gmap string jsval :=
  if negb (str_truthy headersStr) then ∅
  else match w_JSON_parse w (str_or_default headersStr "") with
       | Some (JObj fields) => assign_all fields ∅
       | Some (JArr items) => assign_all (index_props items) ∅
       | Some _ => ∅
       | None => ∅
       end.

Definition STRIP_REQ_HEADERS : gset string :=
  list_to_set
    [ "cf-connecting-ip"; "cf-ipcountry"; "cf-ray"; "cf-visitor"; "cf-worker";
      "cf-ew-via"; "x-forwarded-for"; "x-forwarded-proto"; "x-real-ip"; "cdn-loop" ].

Definition SKIP_RES_HEADERS : gset string :=
  list_to_set
    [ "transfer-encoding"; "content-length"; "connection"; "keep-alive"; "server" ].

(** The body of the loop of [filterResponseHeaders]:
    [if (!skip.has(k.toLowerCase())) out[k] = v].  On the object literal
    [out] the assignment of a string to [__proto__] runs the setter that
    [Object.prototype] has for this name, which ignores a string: no
    property is created. *)
Definition keep_entry (out : gmap string string) (kv : string * string)
    : gmap string string :=
  if decide (Str.toLowerCase (fst kv) ∈ SKIP_RES_HEADERS) then out
  else if decide (fst kv = "__proto__") then out
  else <[fst kv := snd kv]> out.

(** [filterResponseHeaders(headers)], over the pairs that
    [headers.entries()] yields: each name once. *)
Definition filterResponseHeaders (entries : list (string * string))
    : gmap string string :=
  fold_left keep_entry entries ∅.

(** Does the loop over [req.headers] forward this name? *)
Definition forwarded_name (k : string) : Prop :=
  Str.toLowerCase k ≠ "host" ∧ Str.toLowerCase k ∉ STRIP_REQ_HEADERS.

Global Instance forwarded_name_dec k : Decision (forwarded_name k).
Proof. unfold forwarded_name. apply _. Defined.

Definition DEFAULT_UA : string :=
  "Mozilla/5.0 (Windows NT 10.0; Win64; x64) AppleWebKit/537.36 (KHTML, like Gecko) Chrome/126.0.0.0 Safari/537.36".
Definition DEFAULT_ACCEPT : string :=
  "text/html,application/xhtml+xml,application/xml;q=0.9,image/avif,image/webp,*/*;q=0.8".
Definition DEFAULT_ACCEPT_LANGUAGE : string := "en-US,en;q=0.9".

(** *** The object [fwdHeaders]

    An object literal has the prototype [Object.prototype], whose
    accessor [__proto__] an assignment [o.__proto__ = v] reaches unless a
    data property of that name is found first: the setter installs [v] as
    the prototype when [v] is an object or [null], and ignores any other
    value.  A read [o[k]] finds own properties first and inherited ones
    after. *)
Inductive prototype : Type :=
  | ObjectPrototype                              (* of an object literal *)
  | NullPrototype
  | ParsedPrototype (props : gmap string jsval). (* an object or array of JSON.parse *)

Record object : Type := mkObject {
  obj_own : gmap string jsval;
  obj_proto : prototype
}.

(** The own properties of a parsed object or array. *)
Definition props_of (v : jsval) : gmap string jsval :=
  match v with
  | JObj fields => assign_all fields ∅
  | JArr items =>
      <["length" := JNum (Z.of_nat (length items))]> (assign_all (index_props items) ∅)
  | _ => ∅
  end.

(** [o[k]], for a name that [Object.prototype] and [Array.prototype] do
    not define themselves (none of the names the handler reads is one). *)
Definition obj_get (o : object) (k : string) : option jsval :=
  match obj_own o !! k with
  | Some v => Some v
  | None =>
      match obj_proto o with
      | ParsedPrototype props => props !! k
      | ObjectPrototype | NullPrototype => None
      end
  end.

(** [!o[k]] *)
Definition obj_falsy (o : object) (k : string) : bool :=
  match obj_get o k with
  | Some v => negb (truthy v)
  | None => true
  end.

(** Does [o.__proto__ = v] reach the accessor of [Object.prototype]?  Not
    when [o] or its prototype has a data property of that name, nor when
    the prototype is [null]. *)
Definition reaches_proto_setter (o : object) : bool :=
  match obj_own o !! "__proto__", obj_proto o with
  | Some _, _ => false
  | None, ObjectPrototype => true
  | None, NullPrototype => false
  | None, ParsedPrototype props => bool_decide (props !! "__proto__" = None)
  end.

(** [o[k] = v] *)
Definition obj_set (k : string) (v : jsval) (o : object) : object :=
  if bool_decide (k = "__proto__") && reaches_proto_setter o then
    match v with
    | JObj _ | JArr _ => mkObject (obj_own o) (ParsedPrototype (props_of v))
    | JNull => mkObject (obj_own o) NullPrototype
    | JBool _ | JNum _ | JStr _ => o
    end
  else mkObject (<[k := v]> (obj_own o)) (obj_proto o).

(** [Object.assign(o, src)]: every own property of [src] is assigned to
    [o].  The names are distinct, so the order of the assignments does
    not show in the result. *)
Definition obj_assign (src : gmap string jsval) (o : object) : object :=
  map_fold obj_set o src.

(** [{}] *)
Definition empty_object : object := mkObject ∅ ObjectPrototype.

(** [if (!o[k]) o[k] = v] *)
Definition set_if_falsy (k : string) (v : jsval) (o : object) : object :=
  if obj_falsy o k then obj_set k v o else o.

(** [fwdHeaders] after the loop over [req.headers] and
    [Object.assign(fwdHeaders, extraHeaders)]. *)
Definition merged_object (reqHeaders : gmap string string)
    (extraHeaders : gmap string jsval) : object :=
  let h0 :=
    obj_assign (JStr <$> filter (fun kv => forwarded_name (fst kv)) reqHeaders)
               empty_object in
  obj_assign extraHeaders h0.

(** The construction of [fwdHeaders] in [handler], as an object. *)
Definition fwdHeaders_object (w : World)
    (reqHeaders : gmap string string) (extraHeaders : gmap string jsval)
    (uaParam refererParam cookiesParam : option string) : object :=
  let h1 := merged_object reqHeaders extraHeaders in
  let h2 :=
    match uaParam with
    | Some ua => if Str.nonempty ua then obj_set "user-agent" (JStr ua) h1
                 else set_if_falsy "user-agent" (JStr DEFAULT_UA) h1
    | None => set_if_falsy "user-agent" (JStr DEFAULT_UA) h1
    end in
  let h3 := set_if_falsy "accept" (JStr DEFAULT_ACCEPT) h2 in
  let h4 := set_if_falsy "accept-language" (JStr DEFAULT_ACCEPT_LANGUAGE) h3 in
  let h5 :=
    match refererParam with
    | Some ref =>
        if Str.nonempty ref && obj_falsy h4 "referer" then
          let h := obj_set "referer" (JStr ref) h4 in
          if obj_falsy h "origin" then
            match w_URL w ref with
            | Some u => obj_set "origin" (JStr (url_origin u)) h
            | None => h
            end
          else h
        else h4
    | None => h4
    end in
  match cookiesParam with
  | Some c => if Str.nonempty c then obj_set "cookie" (JStr c) h5 else h5
  | None => h5
  end.

(** The headers option of the [fetch] call: the own properties of
    [fwdHeaders], which are what [fetch] copies from a plain object. *)
Definition forwardHeaders (w : World)
    (reqHeaders : gmap string string) (extraHeaders : gmap string jsval)
    (uaParam refererParam cookiesParam : option string) : gmap string jsval :=
  obj_own (fwdHeaders_object w reqHeaders extraHeaders
             uaParam refererParam cookiesParam).

(** ** RelayHandler *)

(** The parts of the Express request that the handler reads.  Node gives
    [req.headers] lower-cased names.  [req_query] holds the query
    parameters that the parser left a string; [req_query_token] is
    [req.query.token] when the parser made an array or an object of it (a
    repeated or bracketed name), which the validator then receives. *)
Record Request : Type := mkRequest {
  req_method : string;
  req_headers : gmap string string;
  req_query : gmap string string;
  req_query_token : option jsval
}.

(** [req.query.token] *)
Definition query_token (req : Request) : option jsval :=
  match req_query req !! "token" with
  | Some s => Some (JStr s)
  | None => req_query_token req
  end.

(** [req.header(name)] *)
Definition req_header (req : Request) (name : string) : option string :=
  req_headers req !! Str.toLowerCase name.

(** What the handler sends: [res.status(..)], the headers it sets, the body. *)
Record response : Type := mkResp {
  res_status : Z;
  res_headers : gmap string string;
  res_body : string
}.

Definition send (code : Z) (body : string) : M response :=
  ret (mkResp code ∅ body).

(** [req.header('API-Token') || req.query.token] *)
Definition api_token (req : Request) : option jsval :=
  match truthy_str (req_header req "API-Token") with
  | Some h => Some (JStr h)
  | None => query_token req
  end.

(** [!v] for a value that may be [undefined]. *)
Definition is_falsy (v : option jsval) : bool :=
  match v with
  | Some x => negb (truthy x)
  | None => true
  end.

(** Authenticating: [true] when the request may proceed. *)
Definition handler_auth (cfg : Config) (w : World) (req : Request) : M bool :=
  if REQUIRE_TOKEN cfg then
    let apiToken := api_token req in
    if is_falsy apiToken then ret false
    else validateApiToken cfg w apiToken
  else ret true.

(** The health/info reply to a GET without [url]. *)
Definition handler_info (cfg : Config) (w : World) : M response :=
  if negb (bool_decide (w_platform w = "linux")) then
    send 200 ("i6.js running (v" +:+ VERSION cfg +:+ ") on " +:+ w_platform w)
  else
    let* r := runCmd w "ip -6 addr show" in
    send 200 ("i6.js running (v" +:+ VERSION cfg +:+ ")
" +:+ cmd_out r).

(** ResolvingEgress: an early reply, or the value of [localIP] afterwards. *)
Definition handler_egress (cfg : Config) (w : World) : M (response + option string) :=
  let* localIP := randomIPv6 cfg w in
  if bool_decide (w_platform w = "linux") then
    let* okIface := checkInterface cfg w in
    if negb okIface then
      ret (inl (mkResp 500 ∅ ("Interface " +:+ INTERFACE cfg +:+ " not found")))
    else
      (if negb (str_truthy localIP)
       then logDebug cfg "Skipping IPv6 assign: invalid prefix/subnet config"
       else ret tt) ;;
      let* added :=
        match truthy_str localIP with
        | Some ip => addIPv6ToInterface cfg w ip
        | None => ret true
        end in
      if negb added then
        ret (inl (mkResp 500 ∅ "Failed to configure IPv6 address"))
      else
        let* ok :=
          match truthy_str localIP with
          | Some ip => testIPv6Connectivity w ip
          | None => ret true
          end in
        if negb ok then
          logDebug cfg "IPv6 test failed, falling back to system default" ;;
          ret (inr None)
        else ret (inr localIP)
  else
    logDebug cfg "Non-linux system; using system default unless IPv6 exists" ;;
    ret (inr None).

(** BuildingTransport. *)
Definition handler_agents (cfg : Config) (w : World)
    (proxyParam localIP : option string) : M agents :=
  let upstream := str_or proxyParam (chooseFromList w (w_env w !! "I6_PROXY_LIST")) in
  match truthy_str upstream with
  | Some u => buildProxyAgents cfg w u localIP
  | None =>
      if str_truthy localIP then pickAgents localIP
      else ret no_agents
  end.

(** [e.name === 'AbortError' || e.type === 'aborted'] *)
Definition is_abort (e : js_error) : bool :=
  bool_decide (err_name e = "AbortError") || bool_decide (err_type e = Some "aborted").

(** Responding: the reply for what the upstream call produced, the
    [catch] clause included. *)
Definition handler_respond (r : fetch_result) : M response :=
  match r with
  | FetchOk st entries body => ret (mkResp st (filterResponseHeaders entries) body)
  | FetchErr e =>
      if is_abort e then send 504 "Request timed out"
      else send 502 ("Upstream error: " +:+ err_message e)
  end.

(** Forwarding: the one [fetch] call. *)
Definition handler_forward (w : World) (req : Request) (targetUrl : string)
    (fwdHeaders : gmap string jsval) (ag : agents) : M response :=
  let method := Str.toUpperCase (req_method req) in
  let init :=
    mkFetch targetUrl method fwdHeaders ag (w_hasAbort w)
            (negb (bool_decide (method = "GET") || bool_decide (method = "HEAD"))) in
  emit (EFetch init) ;;
  handler_respond (w_fetch w init).

(** The relay of a request with a target, from [ensureUrlHasScheme] on. *)
Definition handler_relay (cfg : Config) (w : World) (req : Request)
    (targetRaw : string) : M response :=
  let targetUrl := ensureUrlHasScheme targetRaw in
  let extraHeaders := parseHeadersParam w (req_query req !! "headers") in
  let* eg := handler_egress cfg w in
  match eg with
  | inl early => ret early
  | inr localIP =>
      let* ag := handler_agents cfg w (req_query req !! "proxy") localIP in
      let fwdHeaders :=
        forwardHeaders w (req_headers req) extraHeaders
          (req_query req !! "ua") (req_query req !! "referer")
          (req_query req !! "cookies") in
      handler_forward w req targetUrl fwdHeaders ag
  end.

Definition handler (cfg : Config) (w : World) (req : Request) : M response :=
  let* authorized := handler_auth cfg w req in
  if negb authorized then send 401 "Unauthorized: invalid API-Token"
  else if bool_decide (req_method req = "GET")
          && negb (str_truthy (req_query req !! "url")) then
    handler_info cfg w
  else
    match truthy_str (req_query req !! "url") with
    | None => send 400 "Missing url"
    | Some targetRaw => handler_relay cfg w req targetRaw
    end.

(** ** The older copy of the module

    The repository also keeps an earlier version of this module, which
    [server.js] does not mount.  It has no upstream proxies, no strip
    set and no [REQUIRE_TOKEN] flag; the steps that differ from the ones
    above are embedded here for comparison. *)

Module Legacy.

(** Four random hextets after the configured strings, whatever they hold. *)
Definition randomIPv6 (cfg : Config) (w : World) : M (option string) :=
  let* buf := randomBytes w 8 in
  let* a := lift (random_hextet buf 0) in
  let* b := lift (random_hextet buf 1) in
  let* c := lift (random_hextet buf 2) in
  let* d := lift (random_hextet buf 3) in
  ret (Some (IPV6_PREFIX cfg +:+ ":" +:+ IPV6_SUBNET cfg +:+ ":" +:+ a +:+ ":"
             +:+ b +:+ ":" +:+ c +:+ ":" +:+ d)).

(** The token is read from the header only, and always required. *)
Definition handler_auth (cfg : Config) (w : World) (req : Request) : M bool :=
  let apiToken := req_header req "API-Token" in
  if negb (str_truthy apiToken) then ret false
  else validateApiToken cfg w (JStr <$> apiToken).

(** On a host that is not Linux the generated address is kept. *)
Definition handler_egress (cfg : Config) (w : World) : M (response + option string) :=
  let* localIP := randomIPv6 cfg w in
  if bool_decide (w_platform w = "linux") then
    let* okIface := checkInterface cfg w in
    if negb okIface then
      ret (inl (mkResp 500 ∅ ("Interface " +:+ INTERFACE cfg +:+ " not found")))
    else
      let* added := addIPv6ToInterface cfg w (str_or_default localIP "") in
      if negb added then
        ret (inl (mkResp 500 ∅ "Failed to configure IPv6 address"))
      else
        let* ok := testIPv6Connectivity w (str_or_default localIP "") in
        if negb ok then
          logDebug cfg "IPv6 test failed, falling back to system default" ;;
          ret (inr None)
        else ret (inr localIP)
  else
    logDebug cfg "Non-linux system; using system default unless IPv6 exists" ;;
    ret (inr localIP).

(** The transports: bound to [localIP] whenever it is set. *)
Definition handler_agents (localIP : option string) : M agents :=
  if str_truthy localIP then pickAgents localIP else ret no_agents.

(** Only [host] is dropped before the extra headers are merged.  The
    result is the own properties of [fwdHeaders]. *)
Definition forwardHeaders (reqHeaders : gmap string string)
    (extraHeaders : gmap string jsval) : gmap string jsval :=
  obj_own
    (obj_assign extraHeaders
       (obj_assign
          (JStr <$> filter (fun kv : string * string =>
                              Str.toLowerCase (fst kv) <> "host") reqHeaders)
          empty_object)).

End Legacy.

(** ** Vocabulary of the properties *)

(** Hextet: one to four lowercase hexadecimal digits. *)
Definition is_hextet (h : string) : bool :=
  (1 <=? String.length h)%nat && (String.length h <=? 4)%nat
  && Str.all_chars Num.is_lower_hex h.

(** The configured hextets: those of the prefix, then those of the subnet. *)
Definition fixed_hextets (cfg : Config) : list string :=
  hextets_of (IPV6_PREFIX cfg) ++ hextets_of (IPV6_SUBNET cfg).

(** The [i]-th hextet the generator prints from the drawn bytes. *)
Definition hextet_at (w : World) (i : nat) : string :=
  Str.padStart 4 "0"
    (Num.toString16 (Z.of_N (Byte.to_N (w_entropy w (i * 2))) * 256
                     + Z.of_N (Byte.to_N (w_entropy w (S (i * 2)))))).

Definition random_hextets (w : World) (n : nat) : list string :=
  map (hextet_at w) (seq 0 n).

(** The address-generator property with no condition on how the
    configured hextets are written. *)
Definition generator_shape_unconditional (cfg : Config) (w : World) : Prop :=
  (length (fixed_hextets cfg) < 8)%nat ->
  exists addr,
    result (randomIPv6 cfg w) = Ret (Some addr) /\
    length (Str.split ":" addr) = 8%nat /\
    forallb is_hextet (Str.split ":" addr) = true /\
    take (length (fixed_hextets cfg)) (Str.split ":" addr) = fixed_hextets cfg.

(** ** Sample configurations, worlds and requests *)

Module Sample.

Definition config : Config := load_config ∅.

(** [Buffer.from] on an array of decimal numerals and numbers: one byte
    per element.  The objects the samples use are none. *)
Definition bytes_of_array (v : jsval) : option (list Z) :=
  match v with
  | JArr items =>
      Some (map (fun x => match x with
                          | JStr s => Num.ofDecimal s mod 256
                          | JNum n => n mod 256
                          | _ => 0
                          end) items)
  | _ => None
  end.

Definition make (platform : string) (now : Z) (probe : bool)
    (url : option url_info) (fetched : fetch_result) : World :=
  {| w_platform := platform;
     w_now := now;
     w_entropy := fun _ => Byte.x2a;
     w_random_index := fun _ => 0%nat;
     w_env := ∅;
     w_runCmd := fun _ => mkCmd 0 "2: ens3: <BROADCAST,MULTICAST,UP,LOWER_UP> mtu 1500" "";
     w_probe := fun _ => probe;
     w_URL := fun _ => url;
     w_JSON_parse := fun _ => None;
     w_Buffer_from := bytes_of_array;
     w_agentOk := fun _ => true;
     w_hasAbort := true;
     w_fetch := fun _ => fetched |}.

Definition ok_reply : fetch_result := FetchOk 200 [("x-test", "1")] "abc".

(** A Linux host on which every step succeeds. *)
Definition world : World := make "linux" 1700000123456 true None ok_reply.

(** The same host 400 seconds later. *)
Definition later_world : World := make "linux" 1700000523456 true None ok_reply.

(** The same host 100 seconds later, in the same bucket. *)
Definition same_bucket_world : World := make "linux" 1700000223456 true None ok_reply.

(** A Linux host on which the connectivity probe fails. *)
Definition unroutable_world : World := make "linux" 1700000123456 false None ok_reply.

(** A host that is not Linux, where proxy URLs parse as [http:]. *)
Definition mac_world : World :=
  make "darwin" 1700000123456 true
       (Some (mkUrl "http:" "http://proxy.example:8080")) ok_reply.

(** A Linux host whose upstream call is aborted by the timer. *)
Definition timeout_world : World :=
  make "linux" 1700000123456 true None
       (FetchErr (mkError "AbortError" (Some "aborted") "The operation was aborted.")).

(** A Linux host whose upstream answers with a header named [__proto__]. *)
Definition proto_header_world : World :=
  make "linux" 1700000123456 true None
       (FetchOk 200 [("__proto__", "1"); ("x-test", "1")] "abc").

(** An upper-case spelling of the documentation prefix. *)
Definition upper_config : Config :=
  load_config {[ "I6_IPV6_PREFIX" := "2001:DB8:0:1" ]}.

(** Seven hextets of prefix and one of subnet. *)
Definition full_config : Config :=
  load_config {[ "I6_IPV6_PREFIX" := "2001:41d0:601:1100:1:2:3" ]}.

(** Address assignment enabled. *)
Definition assign_config : Config :=
  load_config {[ "I6_ENABLE_ASSIGN" := "1" ]}.

(** Authentication required. *)
Definition locked_config : Config :=
  load_config {[ "I6_REQUIRE_TOKEN" := "true" ]}.

Definition relay_request : Request :=
  mkRequest "GET" {[ "host" := "relay.example"; "accept" := "*/*" ]}
            {[ "url" := "example.com" ]} None.

Definition proxied_request : Request :=
  mkRequest "GET" {[ "host" := "relay.example" ]}
            {[ "url" := "example.com"; "proxy" := "http://proxy.example:8080" ]} None.

(** The character codes of a string as decimal numerals, which is what
    the query [token=c1&token=c2&...] parses to. *)
Definition char_codes (s : string) : jsval :=
  JArr (map (fun b => JStr (Num.toDecimal b)) (Buf.of_string s)).

(** A request without the header whose [token] parameter is repeated. *)
Definition array_token_request (codes : jsval) : Request :=
  mkRequest "GET" {[ "host" := "relay.example" ]} {[ "url" := "example.com" ]}
            (Some codes).

End Sample.


(** The value of the last pair named [k] in an iteration of headers. *)
Fixpoint last_value (entries : list (string * string)) (k : string) : option string :=
  match entries with
  | [] => None
  | kv :: r =>
      match last_value r k with
      | Some v => Some v
      | None => if decide (fst kv = k) then Some (snd kv) else None
      end
  end.

(** How many pairs are named [k]. *)
Definition occurrences (k : string) (l : list (string * string)) : nat :=
  length (List.filter (fun kv => bool_decide (fst kv = k)) l).

(** The outbound property on repeated names: as many headers named [k]
    come out as went in. *)
Definition outbound_keeps_multiplicity (entries : list (string * string)) : Prop :=
  forall k,
    Str.toLowerCase k ∉ SKIP_RES_HEADERS ->
    occurrences k (map_to_list (filterResponseHeaders entries)) = occurrences k entries.

(** The [fetch] calls of a trace. *)
Definition fetches (t : list event) : list fetch_request :=
  omap (fun e => match e with EFetch rq => Some rq | _ => None end) t.

(** The transports handed to a [fetch] call. *)
Definition agent_of (rq : fetch_request) (a : agent) : Prop :=
  httpAgent (f_agents rq) = Some a \/ httpsAgent (f_agents rq) = Some a.

(** The generated address [ip] was assigned and probed with success. *)
Definition verified_address (cfg : Config) (w : World) (ip : string) : Prop :=
  w_platform w = "linux" /\
  result (randomIPv6 cfg w) = Ret (Some ip) /\
  result (checkInterface cfg w) = Ret true /\
  result (addIPv6ToInterface cfg w ip) = Ret true /\
  result (testIPv6Connectivity w ip) = Ret true.

(** The upstream proxy of the request, if any: the query parameter, else
    one of the configured list. *)
Definition selected_proxy (w : World) (req : Request) : option string :=
  truthy_str (str_or (req_query req !! "proxy")
                     (chooseFromList w (w_env w !! "I6_PROXY_LIST"))).

(** The egress property in its two-way form: a verified local address,
    or else the system default (no transport at all). *)
Definition egress_local_or_default (cfg : Config) (w : World) (req : Request) : Prop :=
  forall rq,
    In (EFetch rq) (trace (handler cfg w req)) ->
    (forall a ip, agent_of rq a -> agent_localAddress a = Some ip ->
                  verified_address cfg w ip) /\
    ((~ exists ip, verified_address cfg w ip) -> f_agents rq = no_agents).

(** The request passed authentication and names a target. *)
Definition reaches_relay (cfg : Config) (w : World) (req : Request) : Prop :=
  result (handler_auth cfg w req) = Ret true /\
  is_Some (truthy_str (req_query req !! "url")).

(** Are the bytes that [Buffer.from] makes of the token those of the
    expected token? *)
Definition token_accepted (w : World) (token : option jsval) : bool :=
  match Buffer_from w (or_empty token) with
  | Ret given => bool_decide (given = Buf.of_string (expectedToken w))
  | Throw _ => false
  end.

(** The prototype of an object literal after [Object.assign] from a
    source whose property [__proto__] is [v]. *)
Definition proto_after (v : option jsval) : prototype :=
  match v with
  | Some (JObj fields) => ParsedPrototype (props_of (JObj fields))
  | Some (JArr items) => ParsedPrototype (props_of (JArr items))
  | Some JNull => NullPrototype
  | Some (JBool _) | Some (JNum _) | Some (JStr _) | None => ObjectPrototype
  end.

(** The request is past the authentication gate and served: a
    request with a target is relayed, a GET without one gets the info
    reply and any other request without one the 400; nothing but the
    authentication precedes. *)
Definition served (cfg : Config) (w : World) (req : Request) : Prop :=
  match truthy_str (req_query req !! "url") with
  | Some targetRaw =>
      result (handler cfg w req) = result (handler_relay cfg w req targetRaw) /\
      trace (handler cfg w req)
      = (trace (handler_auth cfg w req)
         ++ trace (handler_relay cfg w req targetRaw))%list
  | None =>
      result (handler cfg w req)
      = (if bool_decide (req_method req = "GET") then result (handler_info cfg w)
         else Ret (mkResp 400 ∅ "Missing url")) /\
      trace (handler cfg w req)
      = (trace (handler_auth cfg w req)
         ++ if bool_decide (req_method req = "GET") then trace (handler_info cfg w)
            else [])%list
  end.

(** A computation that performs no [fetch]. *)
Definition quiet {A} (m : M A) : Prop :=
  forall rq, ~ In (EFetch rq) (trace m).


(** ** The provider fetchers and their routes ([providers/*.js], [server.js]) *)

(** What the image server answers to a fetcher: status line and body, or
    the error that [fetch] or the reading of the body throws. *)
Inductive image_reply : Type :=
  | ImageReply (status : Z) (statusText : string) (body : string)
  | ImageError (e : js_error).

Definition PROVIDER_UA : string :=
  "Mozilla/5.0 (Windows NT 10.0; Win64; x64) AppleWebKit/537.36 (KHTML, like Gecko) Chrome/91.0.4472.124 Safari/537.36".

(** [response.ok] *)
Definition response_ok (status : Z) : bool :=
  (200 <=? status) && (status <=? 299).

(** The body the two fetchers share; they differ in the [Referer].  The
    call is [fetch(url, { headers })]: method, transports, signal and body
    are left to their defaults. *)
Definition fetch_image (net : fetch_request -> image_reply)
    (referer : string) (url : option string) : M string :=
  match truthy_str url with
  | None => lift (Throw (mkError "Error" None "No URL provided"))
  | Some u =>
      let init :=
        mkFetch u "GET"
                {[ "Referer" := JStr referer; "User-Agent" := JStr PROVIDER_UA ]}
                no_agents false false in
      emit (EFetch init) ;;
      match net init with
      | ImageReply st txt body =>
          if response_ok st then ret body
          else lift (Throw (mkError "Error" None
                              ("Failed to fetch image: " +:+ Num.toDecimal st
                               +:+ " " +:+ txt)))
      | ImageError e => lift (Throw e)
      end
  end.

Definition fetchMangaParkImage (net : fetch_request -> image_reply)
    (url : option string) : M string :=
  fetch_image net "https://mangapark.net/" url.

Definition fetchMangabuddyImage (net : fetch_request -> image_reply)
    (url : option string) : M string :=
  fetch_image net "https://mangabuddy.com/" url.

(** The [fetch] call of a fetcher for the site [referer]. *)
Definition provider_request (referer u : string) : fetch_request :=
  mkFetch u "GET"
          {[ "Referer" := JStr referer; "User-Agent" := JStr PROVIDER_UA ]}
          no_agents false false.

(** The header the CORS middleware sets on every response. *)
Definition CORS_HEADERS : gmap string string :=
  {[ "Access-Control-Allow-Origin" := "*" ]}.

(** A provider route of [server.js], after the CORS middleware:
    [app.get(path, async (req, res) => ...)] around a fetcher. *)
Definition image_route (fetcher : option string -> M string) (req : Request)
    : M response :=
  let url := req_query req !! "url" in
  if negb (str_truthy url) then ret (mkResp 400 CORS_HEADERS "No URL provided")
  else
    catch
      (let* imageBuffer := fetcher url in
       ret (mkResp 200 (<["Content-Type" := "image/jpeg"]> CORS_HEADERS) imageBuffer))
      (fun err =>
         emit (EWarn (err_message err)) ;;
         ret (mkResp 500 CORS_HEADERS "Failed to fetch image")).

(** ** Vocabulary of the further properties *)

(** The shell commands of a trace. *)
Definition commands (t : list event) : list string :=
  omap (fun e => match e with ERunCmd c => Some c | _ => None end) t.

(** The names the handler may write after the merge. *)
Definition written_names : list string :=
  [ "user-agent"; "accept"; "accept-language"; "referer"; "origin"; "cookie" ].

(** The command that assigns [ip] to the configured interface. *)
Definition assign_command (cfg : Config) (ip : string) : string :=
  "ip -6 addr add " +:+ ip +:+ "/128 dev " +:+ INTERFACE cfg.

(** What an effect of the handler may be: the three commands, on the
    generated address only, and a probe of the generated address. *)
Definition expected_effect (cfg : Config) (w : World) (e : event) : Prop :=
  match e with
  | ERunCmd c =>
      c = "ip link show" \/ c = "ip -6 addr show" \/
      exists ip, result (randomIPv6 cfg w) = Ret (Some ip) /\ c = assign_command cfg ip
  | EProbe ip =>
      result (randomIPv6 cfg w) = Ret (Some ip) /\
      w_platform w = "linux" /\
      result (checkInterface cfg w) = Ret true /\
      result (addIPv6ToInterface cfg w ip) = Ret true
  | _ => True
  end.


(** The last field named [k] of a parsed object. *)
Definition last_field (fields : list (string * jsval)) (k : string) : option jsval :=
  snd <$> last (List.filter (fun kv => bool_decide (fst kv = k)) fields).

(** The options a transport was built with. *)
Definition agent_keepAlive (a : agent) : bool :=
  match a with
  | HttpAgent _ k | HttpsAgent _ k => k
  | SocksProxyAgent _ _ k | HttpProxyAgent _ _ k | HttpsProxyAgent _ _ k => k
  end.

Definition agent_proxy (a : agent) : option string :=
  match a with
  | HttpAgent _ _ | HttpsAgent _ _ => None
  | SocksProxyAgent u _ _ | HttpProxyAgent u _ _ | HttpsProxyAgent u _ _ => Some u
  end.

(** The transports constructed in a trace. *)
Definition new_agents (t : list event) : list agent :=
  omap (fun e => match e with ENewAgent a => Some a | _ => None end) t.

(** A configuration with another debug flag. *)
Definition with_debug (cfg : Config) (debug : bool) : Config :=
  {| SHARED_SECRET := SHARED_SECRET cfg;
     VERSION := VERSION cfg;
     IPV6_PREFIX := IPV6_PREFIX cfg;
     IPV6_SUBNET := IPV6_SUBNET cfg;
     INTERFACE := INTERFACE cfg;
     DEBUG := debug;
     ENABLE_ASSIGN := ENABLE_ASSIGN cfg;
     REQUIRE_TOKEN := REQUIRE_TOKEN cfg |}.

(** A trace without its debug log lines. *)
Definition unlogged (t : list event) : list event :=
  List.filter (fun e => match e with ELog _ => false | _ => true end) t.

(** Two computations that differ in debug log lines at most. *)
Definition same_but_logs {A} (m m' : M A) : Prop :=
  result m = result m' /\ unlogged (trace m) = unlogged (trace m').

(** * Properties *)

(** ** Strings and numerals *)

Module StrFacts.
Import Str.

Lemma all_chars_app p s t :
  all_chars p (s +:+ t) = all_chars p s && all_chars p t.
Proof.
  induction s as [|c s IH]; simpl; [done|].
  by rewrite IH, andb_assoc.
Qed.

Lemma all_chars_impl (p q : ascii -> bool) s :
  (forall c, p c = true -> q c = true) ->
  all_chars p s = true -> all_chars q s = true.
Proof.
  intros Hpq. induction s as [|c s IH]; simpl; [done|].
  intros [Hc Hs]%andb_true_iff. rewrite (Hpq _ Hc). by apply IH.
Qed.

Lemma all_chars_repeat p c n :
  p c = true -> all_chars p (repeat_char c n) = true.
Proof. intros Hc. induction n as [|n IH]; simpl; [done|]. by rewrite Hc. Qed.

Lemma str_length_app s t :
  String.length (s +:+ t) = (String.length s + String.length t)%nat.
Proof. induction s as [|c s IH]; simpl; [done|]. by rewrite IH. Qed.

Lemma str_length_repeat c n : String.length (repeat_char c n) = n.
Proof. induction n as [|n IH]; simpl; [done|]. by rewrite IH. Qed.

Lemma split_not_nil sep s : split sep s <> [].
Proof.
  destruct s as [|c s]; simpl; [done|].
  destruct (Ascii.eqb c sep); [done|]. by destruct (split sep s).
Qed.

Lemma split_no_sep sep s : Forall (fun p => no_sep sep p = true) (split sep s).
Proof.
  induction s as [|c s IH]; simpl.
  - by repeat constructor.
  - destruct (Ascii.eqb c sep) eqn:Hc.
    + by constructor.
    + destruct (split sep s) as [|p ps]; inversion IH; subst;
        constructor; try done; unfold no_sep in *; simpl; by rewrite Hc.
Qed.

Lemma split_whole sep p : no_sep sep p = true -> split sep p = [p].
Proof.
  unfold no_sep. induction p as [|c p IH]; simpl; [done|].
  intros [Hc Hp]%andb_true_iff. apply negb_true_iff in Hc.
  by rewrite Hc, (IH Hp).
Qed.

Lemma split_cons sep p r :
  no_sep sep p = true ->
  split sep (p +:+ String sep r) = p :: split sep r.
Proof.
  unfold no_sep. induction p as [|c p IH]; simpl.
  - intros _. by rewrite Ascii.eqb_refl.
  - intros [Hc Hp]%andb_true_iff. apply negb_true_iff in Hc.
    by rewrite Hc, (IH Hp).
Qed.

(** Splitting a joined list gives the list back. *)
Lemma split_join sep parts :
  parts <> [] ->
  Forall (fun p => no_sep sep p = true) parts ->
  split sep (join (String sep EmptyString) parts) = parts.
Proof.
  induction parts as [|p [|q r] IH]; intros Hne Hall; [done| |].
  - simpl. apply split_whole. by inversion Hall.
  - inversion Hall as [|? ? Hp Hrest]; subst.
    change (join (String sep "") (p :: q :: r))
      with (p +:+ String sep (join (String sep "") (q :: r))).
    rewrite (split_cons _ _ _ Hp). f_equal. by apply IH.
Qed.

Lemma nonempty_spec s : nonempty s = true <-> s <> "".
Proof.
  unfold nonempty. rewrite negb_true_iff.
  destruct (String.eqb_spec s ""); split; congruence.
Qed.

Lemma chars_inj s t : chars s = chars t -> s = t.
Proof.
  revert t. induction s as [|c s IH]; intros [|d t]; simpl; try done.
  intros [= -> Hst]. by rewrite (IH _ Hst).
Qed.

Lemma length_chars s : length (chars s) = String.length s.
Proof. induction s as [|c s IH]; simpl; [done|]. by rewrite IH. Qed.

End StrFacts.

Module NumFacts.
Import Str Num StrFacts.

Lemma hex_digit_lower d : is_lower_hex (hex_digit d) = true.
Proof.
  destruct d as [|p|p]; [done| |done].
  do 4 (destruct p as [p|p|]; try done).
Qed.

Lemma toString16_go_chars fuel n acc :
  all_chars is_lower_hex acc = true ->
  all_chars is_lower_hex (toString16_go fuel n acc) = true.
Proof.
  revert n acc. induction fuel as [|f IH]; intros n acc Hacc; simpl; [done|].
  destruct (n <=? 0); [done|].
  apply IH. simpl. by rewrite hex_digit_lower.
Qed.

Lemma toString16_go_length fuel (k : nat) n acc :
  0 <= n < 16 ^ Z.of_nat k ->
  (String.length (toString16_go fuel n acc) <= k + String.length acc)%nat.
Proof.
  revert k n acc. induction fuel as [|f IH]; intros k n acc Hn; simpl; [lia|].
  destruct (Z.leb_spec n 0); [lia|].
  destruct k as [|k]; [simpl in Hn; lia|].
  assert (0 <= n / 16 < 16 ^ Z.of_nat k) as Hdiv.
  { split; [apply Z.div_pos; lia|].
    apply Z.div_lt_upper_bound; [lia|].
    replace (16 * 16 ^ Z.of_nat k) with (16 ^ Z.of_nat (S k)); [lia|].
    rewrite Nat2Z.inj_succ, Z.pow_succ_r; lia. }
  specialize (IH k (n / 16) (String (hex_digit (n mod 16)) acc) Hdiv).
  simpl in IH. lia.
Qed.

Lemma toString16_chars n : all_chars is_lower_hex (toString16 n) = true.
Proof.
  unfold toString16. destruct (n <=? 0); [done|].
  by apply toString16_go_chars.
Qed.

Lemma toString16_length n :
  0 <= n < 65536 -> (String.length (toString16 n) <= 4)%nat.
Proof.
  intros Hn. unfold toString16. destruct (n <=? 0); [simpl; lia|].
  pose proof (toString16_go_length (S (Z.to_nat (Z.log2 n))) 4 n "") as H.
  simpl String.length in H. apply H. change (16 ^ Z.of_nat 4) with 65536. lia.
Qed.

(** A 16-bit value prints as exactly four lowercase hex digits. *)
Lemma padded_hextet n :
  0 <= n < 65536 ->
  String.length (padStart 4 "0" (toString16 n)) = 4%nat /\
  all_chars is_lower_hex (padStart 4 "0" (toString16 n)) = true.
Proof.
  intros Hn. pose proof (toString16_length n Hn) as Hlen.
  unfold padStart. split.
  - rewrite str_length_app, str_length_repeat. lia.
  - rewrite all_chars_app, toString16_chars, all_chars_repeat; done.
Qed.

Lemma lower_hex_not_colon c : is_lower_hex c = true -> negb (Ascii.eqb c ":") = true.
Proof.
  intros H. destruct (Ascii.eqb_spec c ":") as [->|]; [|done].
  by vm_compute in H.
Qed.

Lemma hex_byte_props b :
  String.length (Buf.hex_byte b) = 2%nat /\
  all_chars is_lower_hex (Buf.hex_byte b) = true.
Proof. split; [done|]. simpl. by rewrite !hex_digit_lower. Qed.

Lemma to_hex_length bs : String.length (Buf.to_hex bs) = (2 * length bs)%nat.
Proof.
  induction bs as [|b bs IH]; [done|].
  cbn [Buf.to_hex]. rewrite str_length_app, IH. simpl. lia.
Qed.

Lemma to_hex_chars bs : all_chars is_lower_hex (Buf.to_hex bs) = true.
Proof.
  induction bs as [|b bs IH]; [done|].
  cbn [Buf.to_hex]. rewrite all_chars_app, IH.
  by rewrite (proj2 (hex_byte_props b)).
Qed.

Lemma of_string_inj s t : Buf.of_string s = Buf.of_string t -> s = t.
Proof.
  unfold Buf.of_string. intros H. apply chars_inj.
  revert H. generalize (chars s) (chars t). clear.
  induction l as [|c l IH]; intros [|d l']; simpl; try done.
  intros [= Hc Hl]. f_equal; [|by apply IH].
  apply Nat2Z.inj in Hc.
  by rewrite <- (ascii_nat_embedding c), <- (ascii_nat_embedding d), Hc.
Qed.

Lemma length_of_string s : length (Buf.of_string s) = String.length s.
Proof. unfold Buf.of_string. by rewrite length_map, length_chars. Qed.

Lemma toDecimal_inj a b : toDecimal a = toDecimal b -> a = b.
Proof. apply (inj pretty). Qed.

End NumFacts.

(** ** Computations *)

Lemma result_bind {A B} (m : M A) (k : A -> M B) :
  result (bind m k) =
  match result m with Ret a => result (k a) | Throw e => Throw e end.
Proof. unfold bind. by destruct (result m). Qed.

Lemma trace_bind {A B} (m : M A) (k : A -> M B) :
  trace (bind m k) =
  (trace m ++ match result m with Ret a => trace (k a) | Throw _ => [] end)%list.
Proof. unfold bind. destruct (result m); simpl; [done|]. by rewrite app_nil_r. Qed.

Lemma logDebug_result cfg msg : result (logDebug cfg msg) = Ret tt.
Proof. unfold logDebug. by destruct (DEBUG cfg). Qed.

Lemma logDebug_trace cfg msg :
  trace (logDebug cfg msg) = if DEBUG cfg then [ELog msg] else [].
Proof. unfold logDebug. by destruct (DEBUG cfg). Qed.

(** ** AddressGenerator *)

Section AddressGenerator.
Import Str Num StrFacts NumFacts.
Variable cfg : Config.
Variable w : World.

Lemma hextets_of_default s : hextets_of (str_or_default (Some s) "") = hextets_of s.
Proof.
  unfold str_or_default. destruct (nonempty s) eqn:Hs; [done|].
  unfold nonempty in Hs. apply negb_false_iff in Hs.
  by apply String.eqb_eq in Hs as ->.
Qed.

Lemma hextets_of_no_colon s :
  Forall (fun p => no_sep ":" p = true) (hextets_of s).
Proof.
  unfold hextets_of. pose proof (split_no_sep ":" s) as H.
  induction H as [|p ps Hp _ IH]; simpl; [constructor|].
  destruct (nonempty p); [by constructor|done].
Qed.

Lemma byte_range (b : Byte.byte) : 0 <= Z.of_N (Byte.to_N b) < 256.
Proof. pose proof (Byte.to_N_bounded b). lia. Qed.

Lemma hextet_at_props i :
  String.length (hextet_at w i) = 4%nat /\
  all_chars is_lower_hex (hextet_at w i) = true.
Proof.
  apply padded_hextet.
  pose proof (byte_range (w_entropy w (i * 2))).
  pose proof (byte_range (w_entropy w (S (i * 2)))). lia.
Qed.

Lemma hextet_at_is_hextet i : is_hextet (hextet_at w i) = true.
Proof.
  destruct (hextet_at_props i) as [Hl Hc].
  unfold is_hextet. by rewrite Hl, Hc.
Qed.

Lemma random_hextet_drawn (n i : nat) :
  (S (i * 2) < n)%nat ->
  random_hextet (map (w_entropy w) (seq 0 n)) i = Ret (hextet_at w i).
Proof.
  intros Hi. unfold random_hextet, Buf.readUInt16BE.
  rewrite !list_lookup_fmap, !lookup_seq_lt by lia. done.
Qed.

Lemma random_hextets_drawn (n : nat) (l : list nat) :
  Forall (fun i => (S (i * 2) < n)%nat) l ->
  omapM (random_hextet (map (w_entropy w) (seq 0 n))) l = Ret (map (hextet_at w) l).
Proof.
  induction 1 as [|i l Hi _ IH]; simpl; [done|].
  by rewrite (random_hextet_drawn _ _ Hi), IH.
Qed.

(** The generator when there is room for random hextets. *)
Lemma randomIPv6_room :
  (length (fixed_hextets cfg) < 8)%nat ->
  randomIPv6 cfg w =
  mkM [ERandomBytes (2 * (8 - length (fixed_hextets cfg)))]
      (Ret (Some (join ":" (fixed_hextets cfg
                            ++ random_hextets w (8 - length (fixed_hextets cfg)))%list))).
Proof.
  unfold fixed_hextets. rewrite length_app. intros Hlt.
  unfold randomIPv6. rewrite !hextets_of_default.
  set (pre := hextets_of (IPV6_PREFIX cfg)) in *.
  set (sub := hextets_of (IPV6_SUBNET cfg)) in *.
  set (n := (8 - (length pre + length sub))%nat).
  assert (8 - Z.of_nat (length pre + length sub) = Z.of_nat n) as -> by lia.
  destruct (Z.leb_spec (Z.of_nat n) 0); [lia|].
  destruct (Z.ltb_spec 8 (Z.of_nat n)); [lia|]. simpl orb. cbv iota.
  replace (Z.to_nat (Z.of_nat n * 2)) with (2 * n)%nat by lia.
  rewrite Nat2Z.id.
  unfold randomBytes, lift, bind, emit, ret. simpl.
  rewrite random_hextets_drawn.
  - simpl. unfold random_hextets. by rewrite <- app_assoc.
  - apply Forall_forall. intros i Hi%elem_of_seq. lia.
Qed.

(** The generator when the configured hextets leave no room. *)
Lemma randomIPv6_full :
  (8 <= length (fixed_hextets cfg))%nat ->
  result (randomIPv6 cfg w) = Ret None /\
  Forall (fun e => exists msg, e = ELog msg) (trace (randomIPv6 cfg w)).
Proof.
  unfold fixed_hextets. rewrite length_app. intros Hge.
  unfold randomIPv6. rewrite !hextets_of_default.
  set (pre := hextets_of (IPV6_PREFIX cfg)) in *.
  set (sub := hextets_of (IPV6_SUBNET cfg)) in *.
  destruct (Z.leb_spec (8 - Z.of_nat (length pre + length sub)) 0); [|lia].
  simpl orb. cbv iota. rewrite result_bind, trace_bind, logDebug_result, logDebug_trace.
  split; [done|]. destruct (DEBUG cfg); simpl; repeat constructor. by eexists.
Qed.

(** The generator always returns: a string or [null]. *)
Lemma randomIPv6_returns : exists r, result (randomIPv6 cfg w) = Ret r.
Proof.
  destruct (le_lt_dec 8 (length (fixed_hextets cfg))) as [Hge|Hlt].
  - exists None. by apply randomIPv6_full.
  - eexists. by rewrite (randomIPv6_room Hlt).
Qed.

Lemma randomIPv6_no_fetch e :
  In e (trace (randomIPv6 cfg w)) ->
  (exists msg, e = ELog msg) \/ (exists n, e = ERandomBytes n).
Proof.
  destruct (le_lt_dec 8 (length (fixed_hextets cfg))) as [Hge|Hlt].
  - destruct (randomIPv6_full Hge) as [_ Hall].
    rewrite List.Forall_forall in Hall. intros Hin. left. by apply Hall.
  - rewrite (randomIPv6_room Hlt). simpl. intros [<-|[]]. right. by eexists.
Qed.

Lemma random_hextets_length n : length (random_hextets w n) = n.
Proof. unfold random_hextets. by rewrite length_map, length_seq. Qed.

Lemma random_hextets_no_colon n :
  Forall (fun p => no_sep ":" p = true) (random_hextets w n).
Proof.
  unfold random_hextets. apply Forall_forall. intros h Hin.
  apply list_elem_of_In, in_map_iff in Hin as (i & <- & _).
  unfold no_sep. eapply all_chars_impl; [apply lower_hex_not_colon|].
  apply hextet_at_props.
Qed.

Lemma random_hextets_are_hextets n :
  Forall (fun h => String.length h = 4%nat /\ all_chars is_lower_hex h = true)
         (random_hextets w n).
Proof.
  unfold random_hextets. apply Forall_forall. intros h Hin.
  apply list_elem_of_In, in_map_iff in Hin as (i & <- & _). apply hextet_at_props.
Qed.

End AddressGenerator.

Lemma is_hextet_of_four h :
  String.length h = 4%nat /\ Str.all_chars Num.is_lower_hex h = true ->
  is_hextet h = true.
Proof. intros [Hl Hc]. unfold is_hextet. by rewrite Hl, Hc. Qed.

(** C3 (as amended).  When the configured prefix and subnet have fewer
    than 8 hextets together, the generator returns a string whose parts
    between colons are exactly 8: the configured hextets, unchanged and in
    order, followed by generated parts of exactly four lowercase
    hexadecimal digits each.  All 8 are 1-4 lowercase hexadecimal digits
    as soon as the configured ones are. *)
Theorem randomIPv6_shape (cfg : Config) (w : World) :
  (length (fixed_hextets cfg) < 8)%nat ->
  exists addr rand,
    result (randomIPv6 cfg w) = Ret (Some addr) /\
    Str.split ":" addr = (fixed_hextets cfg ++ rand)%list /\
    length (Str.split ":" addr) = 8%nat /\
    take (length (fixed_hextets cfg)) (Str.split ":" addr) = fixed_hextets cfg /\
    Forall (fun h => String.length h = 4%nat /\
                     Str.all_chars Num.is_lower_hex h = true) rand /\
    (Forall (fun h => is_hextet h = true) (fixed_hextets cfg) ->
     Forall (fun h => is_hextet h = true) (Str.split ":" addr)).
Proof.
  intros Hlt.
  set (rand := random_hextets w (8 - length (fixed_hextets cfg))).
  exists (Str.join ":" (fixed_hextets cfg ++ rand)), rand.
  assert (Str.split ":" (Str.join ":" (fixed_hextets cfg ++ rand))
          = (fixed_hextets cfg ++ rand)%list) as Hsplit.
  { apply StrFacts.split_join.
    - intros Hnil. apply (f_equal length) in Hnil.
      rewrite List.length_app in Hnil. unfold rand in Hnil.
      rewrite random_hextets_length in Hnil. simpl in Hnil. lia.
    - apply Forall_app. split; [|apply random_hextets_no_colon].
      unfold fixed_hextets. apply Forall_app.
      split; apply hextets_of_no_colon. }
  rewrite Hsplit. repeat split.
  - by rewrite (randomIPv6_room cfg w Hlt).
  - rewrite List.length_app. unfold rand. rewrite random_hextets_length. lia.
  - by rewrite take_app_length.
  - apply random_hextets_are_hextets.
  - intros Hfixed. apply Forall_app. split; [done|].
    eapply Forall_impl; [apply random_hextets_are_hextets|].
    intros h. apply is_hextet_of_four.
Qed.

Lemma randomIPv6_shape_witness :
  exists addr rand,
    result (randomIPv6 Sample.config Sample.world) = Ret (Some addr) /\
    Str.split ":" addr = (fixed_hextets Sample.config ++ rand)%list /\
    length (Str.split ":" addr) = 8%nat /\
    take (length (fixed_hextets Sample.config)) (Str.split ":" addr)
      = fixed_hextets Sample.config /\
    Forall (fun h => String.length h = 4%nat /\
                     Str.all_chars Num.is_lower_hex h = true) rand /\
    (Forall (fun h => is_hextet h = true) (fixed_hextets Sample.config) ->
     Forall (fun h => is_hextet h = true) (Str.split ":" addr)).
Proof.
  apply (randomIPv6_shape Sample.config Sample.world).
  vm_compute. lia.
Defined.

(** The claim C3 without a condition on the configured hextets fails: an
    upper-case prefix is copied into the address as it is. *)
Lemma randomIPv6_upper_case_prefix :
  ~ generator_shape_unconditional Sample.upper_config Sample.world.
Proof.
  intros H. destruct H as (addr & Hres & _ & Hhex & _).
  - vm_compute. lia.
  - vm_compute in Hres. injection Hres as <-.
    vm_compute in Hhex. discriminate.
Qed.

(** C4.  When the configured prefix and subnet have 8 hextets or more
    together, the generator returns [null], hence no address string. *)
Theorem randomIPv6_unusable (cfg : Config) (w : World) :
  (8 <= length (hextets_of (IPV6_PREFIX cfg))
        + length (hextets_of (IPV6_SUBNET cfg)))%nat ->
  result (randomIPv6 cfg w) = Ret None /\
  (forall addr, result (randomIPv6 cfg w) <> Ret (Some addr)).
Proof.
  intros Hge.
  assert (result (randomIPv6 cfg w) = Ret None) as Hnone.
  { apply randomIPv6_full. unfold fixed_hextets. by rewrite List.length_app. }
  split; [done|]. intros addr. by rewrite Hnone.
Qed.

Lemma randomIPv6_unusable_witness :
  result (randomIPv6 Sample.full_config Sample.world) = Ret None /\
  (forall addr, result (randomIPv6 Sample.full_config Sample.world) <> Ret (Some addr)).
Proof.
  apply (randomIPv6_unusable Sample.full_config Sample.world).
  vm_compute. lia.
Defined.

(** ** TokenAuthenticator *)

Lemma be_bytes_length n x : length (SHA256.be_bytes n x) = n.
Proof. unfold SHA256.be_bytes. by rewrite length_map, length_rev, length_seq. Qed.

Lemma hash_length msg : length (SHA256.hash msg) = 32%nat.
Proof.
  unfold SHA256.hash, SHA256.digest_bytes.
  rewrite !List.length_app, !be_bytes_length. reflexivity.
Qed.

Lemma hmac_hex_length key msg : String.length (SHA256.hmac_hex key msg) = 64%nat.
Proof.
  unfold SHA256.hmac_hex, SHA256.hmac.
  rewrite NumFacts.to_hex_length, hash_length. reflexivity.
Qed.

Lemma hmac_hex_lower key msg :
  Str.all_chars Num.is_lower_hex (SHA256.hmac_hex key msg) = true.
Proof. apply NumFacts.to_hex_chars. Qed.

Global Opaque SHA256.hash.

Section TokenAuthenticator.
Import StrFacts NumFacts.
Variable cfg : Config.
Variable w : World.

Lemma expectedToken_length : String.length (expectedToken w) = 64%nat.
Proof. unfold expectedToken. apply hmac_hex_length. Qed.

Lemma expected_bytes_length : length (Buf.of_string (expectedToken w)) = 64%nat.
Proof. by rewrite length_of_string, expectedToken_length. Qed.

Lemma or_empty_string s : or_empty (Some (JStr s)) = JStr s.
Proof.
  unfold or_empty, truthy. destruct (String.eqb s "") eqn:He; [|done].
  apply String.eqb_eq in He. by subst.
Qed.

Lemma or_empty_strings (s : option string) :
  or_empty (JStr <$> s) = JStr (str_or_default s "").
Proof.
  destruct s as [t|]; simpl; [|done].
  change (negb (String.eqb t "")) with (Str.nonempty t). by destruct (Str.nonempty t).
Qed.

Lemma or_empty_falsy token : is_falsy token = true -> or_empty token = JStr "".
Proof.
  destruct token as [v|]; simpl; [|done].
  by destruct (truthy v).
Qed.

(** The [try] block throws when [Buffer.from] does and on a length
    mismatch, and compares the bytes otherwise. *)
Lemma validateApiToken_try_cases token :
  match Buffer_from w (or_empty token) with
  | Throw e => validateApiToken_try w token = Throw e
  | Ret given =>
      if decide (length given = 64%nat)
      then validateApiToken_try w token
           = Ret (bool_decide (given = Buf.of_string (expectedToken w)))
      else validateApiToken_try w token
           = Throw (mkError "RangeError" None
                      "Input buffers must have the same byte length")
  end.
Proof.
  unfold validateApiToken_try.
  destruct (Buffer_from w (or_empty token)) as [given|e]; simpl; [|done].
  unfold timingSafeEqual. rewrite expected_bytes_length.
  by destruct (decide (length given = 64%nat)).
Qed.

(** The validator returns whether the bytes of the token are those of
    the expected one. *)
Lemma validateApiToken_result token :
  result (validateApiToken cfg w token) = Ret (token_accepted w token).
Proof.
  unfold validateApiToken, catch, lift, token_accepted. simpl.
  pose proof (validateApiToken_try_cases token) as Hc.
  destruct (Buffer_from w (or_empty token)) as [given|e].
  - destruct (decide (length given = 64%nat)) as [Hlen|Hlen]; rewrite Hc; simpl; [done|].
    rewrite result_bind, logDebug_result. simpl.
    rewrite bool_decide_eq_false_2; [done|]. intros ->.
    by rewrite expected_bytes_length in Hlen.
  - rewrite Hc. simpl. by rewrite result_bind, logDebug_result.
Qed.

Lemma validateApiToken_trace token e :
  In e (trace (validateApiToken cfg w token)) -> exists msg, e = ELog msg.
Proof.
  unfold validateApiToken, catch, lift. simpl.
  destruct (validateApiToken_try w token); simpl; [done|].
  rewrite trace_bind, logDebug_result, logDebug_trace. simpl. rewrite app_nil_r.
  destruct (DEBUG cfg); simpl; [|done]. intros [<-|[]]. by eexists.
Qed.

(** A string is accepted exactly when it is the expected token. *)
Lemma token_accepted_string s :
  token_accepted w (Some (JStr s)) = bool_decide (s = expectedToken w).
Proof.
  unfold token_accepted. rewrite or_empty_string. simpl.
  apply bool_decide_ext. split; [apply of_string_inj|by intros ->].
Qed.

Lemma token_accepted_falsy token : is_falsy token = true -> token_accepted w token = false.
Proof.
  intros Hf. unfold token_accepted. rewrite (or_empty_falsy _ Hf). simpl.
  apply bool_decide_eq_false_2. intros Heq.
  pose proof expected_bytes_length as Hl. by rewrite <- Heq in Hl.
Qed.

Lemma nowBucket_floor now :
  nowBucket now mod 180 = 0 /\
  1000 * nowBucket now <= now < 1000 * (nowBucket now + 180).
Proof.
  unfold nowBucket. change (3 * 60) with 180.
  split; [apply Z.mod_mul; lia|].
  pose proof (Z.div_mod now 1000 ltac:(lia)).
  pose proof (Z.mod_pos_bound now 1000 ltac:(lia)).
  pose proof (Z.div_mod (now / 1000) 180 ltac:(lia)).
  pose proof (Z.mod_pos_bound (now / 1000) 180 ltac:(lia)).
  lia.
Qed.

Lemma deriveDynamicKey_inj (w' : World) :
  deriveDynamicKey w' = deriveDynamicKey w ->
  nowBucket (w_now w') = nowBucket (w_now w).
Proof.
  unfold deriveDynamicKey. intros H%of_string_inj. by apply toDecimal_inj.
Qed.

End TokenAuthenticator.

(** X27.  At clock value [w_now w] (milliseconds) the bucket is the multiple of 180 seconds at or just below the time;
    the expected token is the 64-digit lowercase hex HMAC-SHA256 of
    ["proxy-access"] keyed by the decimal numeral of that bucket, and two
    different buckets have different keys; the validator returns [true]
    exactly when [Buffer.from] makes the 64 bytes of the expected token of
    what it is given, which for a string means being that token. *)
Theorem validateApiToken_exact (cfg : Config) (w : World) (token : option jsval) :
  let b := nowBucket (w_now w) in
  let expected := SHA256.hmac_hex (Buf.of_string (Num.toDecimal b)) "proxy-access" in
  (b mod 180 = 0 /\ 1000 * b <= w_now w < 1000 * (b + 180)) /\
  (String.length expected = 64%nat /\
   Str.all_chars Num.is_lower_hex expected = true) /\
  (result (validateApiToken cfg w token) = Ret true <->
   Buffer_from w (or_empty token) = Ret (Buf.of_string expected)) /\
  (forall s, result (validateApiToken cfg w (Some (JStr s))) = Ret true <-> s = expected) /\
  (forall w' : World,
     nowBucket (w_now w') <> b -> deriveDynamicKey w' <> deriveDynamicKey w).
Proof.
  intros b expected. split; [apply nowBucket_floor|].
  split; [split; [apply hmac_hex_length|apply hmac_hex_lower]|].
  fold (deriveDynamicKey w) in expected. fold (expectedToken w) in expected.
  subst expected. split; [|split].
  - rewrite validateApiToken_result. unfold token_accepted.
    destruct (Buffer_from w (or_empty token)) as [given|e].
    + split.
      * intros [= Hb]. apply bool_decide_eq_true in Hb. by rewrite Hb.
      * intros [= ->]. by rewrite bool_decide_eq_true_2.
    + split; intros H; discriminate H.
  - intros s. rewrite validateApiToken_result, token_accepted_string. split.
    + intros [= Hb]. by apply bool_decide_eq_true in Hb.
    + intros ->. by rewrite bool_decide_eq_true_2.
  - intros w' Hne Hkey. apply Hne. by apply deriveDynamicKey_inj.
Qed.

(** C5.  The validator does not accept the expected string only: with no
    [API-Token] header and the query [token=c1&token=c2&...], the 64
    character codes of the expected token as decimal numerals, the token
    is an array and not the expected string, yet [Buffer.from] makes the
    expected bytes of it, the validator returns [true] and the request is
    relayed. *)
Theorem validateApiToken_array_token :
  let token := Sample.char_codes (expectedToken Sample.world) in
  token <> JStr (expectedToken Sample.world) /\
  result (validateApiToken Sample.locked_config Sample.world (Some token)) = Ret true /\
  result (handler Sample.locked_config Sample.world (Sample.array_token_request token))
  = Ret (mkResp 200 {[ "x-test" := "1" ]} "abc").
Proof.
  intros token. split.
  { unfold token, Sample.char_codes. intros H. discriminate H. }
  split; vm_compute; reflexivity.
Qed.

Lemma load_config_secret (env : gmap string string) (secret : string) :
  load_config (<["I6_SHARED_SECRET" := secret]> env)
  = with_secret (load_config env) (str_or_default (Some secret) "c").
Proof.
  unfold load_config, with_secret. simpl.
  rewrite lookup_insert_eq. by rewrite !lookup_insert_ne by done.
Qed.

(** C9.  The configured shared secret has no influence: the validator,
    and the whole handler, behave identically under any two values of it,
    whether set in the configuration or read from [I6_SHARED_SECRET]. *)
Theorem validateApiToken_ignores_secret
    (cfg : Config) (env : gmap string string) (w : World)
    (token : option jsval) (req : Request) (secret1 secret2 : string) :
  validateApiToken (with_secret cfg secret1) w token
    = validateApiToken (with_secret cfg secret2) w token /\
  handler (with_secret cfg secret1) w req = handler (with_secret cfg secret2) w req /\
  validateApiToken (load_config (<["I6_SHARED_SECRET" := secret1]> env)) w token
    = validateApiToken (load_config (<["I6_SHARED_SECRET" := secret2]> env)) w token /\
  handler (load_config (<["I6_SHARED_SECRET" := secret1]> env)) w req
    = handler (load_config (<["I6_SHARED_SECRET" := secret2]> env)) w req.
Proof.
  split; [reflexivity|]. split; [reflexivity|].
  rewrite !load_config_secret. split; reflexivity.
Qed.

(** C10.  For every input, a string or not, the validator returns a
    boolean and throws nothing; [undefined] and the empty string are
    rejected; a token whose byte length is not 64 makes the comparison
    throw the length-mismatch error, which the [catch] turns into [false];
    and so does a value that [Buffer.from] refuses. *)
Theorem validateApiToken_total (cfg : Config) (w : World) (token : option jsval) :
  (exists b, result (validateApiToken cfg w token) = Ret b) /\
  result (validateApiToken cfg w None) = Ret false /\
  result (validateApiToken cfg w (Some (JStr ""))) = Ret false /\
  (forall s : option string,
     length (Buf.of_string (str_or_default s "")) <> 64%nat ->
     validateApiToken_try w (JStr <$> s)
       = Throw (mkError "RangeError" None "Input buffers must have the same byte length") /\
     result (validateApiToken cfg w (JStr <$> s)) = Ret false) /\
  (forall given,
     Buffer_from w (or_empty token) = Ret given -> length given <> 64%nat ->
     validateApiToken_try w token
       = Throw (mkError "RangeError" None "Input buffers must have the same byte length") /\
     result (validateApiToken cfg w token) = Ret false) /\
  (forall e,
     Buffer_from w (or_empty token) = Throw e ->
     validateApiToken_try w token = Throw e /\
     result (validateApiToken cfg w token) = Ret false).
Proof.
  assert (forall t given,
            Buffer_from w (or_empty t) = Ret given -> length given <> 64%nat ->
            validateApiToken_try w t
              = Throw (mkError "RangeError" None
                         "Input buffers must have the same byte length") /\
            result (validateApiToken cfg w t) = Ret false) as Hshort.
  { intros t given Hfrom Hlen.
    pose proof (validateApiToken_try_cases w t) as Hc. rewrite Hfrom in Hc.
    rewrite decide_False in Hc by done. split; [done|].
    rewrite validateApiToken_result. unfold token_accepted. rewrite Hfrom.
    rewrite bool_decide_eq_false_2; [done|]. intros ->.
    by rewrite expected_bytes_length in Hlen. }
  split; [|split; [|split; [|split; [|split]]]].
  - eexists. apply validateApiToken_result.
  - by apply (Hshort None []).
  - by apply (Hshort (Some (JStr "")) []).
  - intros s Hlen. apply (Hshort _ (Buf.of_string (str_or_default s ""))); [|done].
    destruct s as [t|]; simpl; [|done].
    unfold truthy. change (negb (String.eqb t "")) with (Str.nonempty t).
    by destruct (Str.nonempty t).
  - apply Hshort.
  - intros e Hfrom.
    pose proof (validateApiToken_try_cases w token) as Hc. rewrite Hfrom in Hc.
    split; [done|]. rewrite validateApiToken_result. unfold token_accepted.
    by rewrite Hfrom.
Qed.

Lemma validateApiToken_total_witness :
  validateApiToken_try Sample.world (Some (JStr "not-a-token"))
    = Throw (mkError "RangeError" None "Input buffers must have the same byte length") /\
  result (validateApiToken Sample.config Sample.world (Some (JStr "not-a-token")))
    = Ret false.
Proof.
  destruct (validateApiToken_total Sample.config Sample.world None)
    as (_ & _ & _ & Hstr & _).
  apply (Hstr (Some "not-a-token")).
  vm_compute. intros H. discriminate H.
Defined.

(** ** HeaderTransformer *)

Section Objects.

Lemma obj_set_plain k v o :
  k <> "__proto__" -> obj_set k v o = mkObject (<[k := v]> (obj_own o)) (obj_proto o).
Proof. intros Hk. unfold obj_set. by rewrite bool_decide_eq_false_2. Qed.

Lemma obj_set_own k v o k' :
  k <> "__proto__" ->
  obj_own (obj_set k v o) !! k' = if decide (k' = k) then Some v else obj_own o !! k'.
Proof.
  intros Hk. rewrite obj_set_plain by done. simpl.
  destruct (decide (k' = k)) as [->|Hne];
    [by rewrite lookup_insert_eq|by rewrite lookup_insert_ne].
Qed.

Lemma obj_falsy_ext o o' k :
  obj_own o !! k = obj_own o' !! k -> obj_proto o = obj_proto o' ->
  obj_falsy o k = obj_falsy o' k.
Proof. unfold obj_falsy, obj_get. by intros -> ->. Qed.

Lemma set_if_falsy_proto k v o :
  k <> "__proto__" -> obj_proto (set_if_falsy k v o) = obj_proto o.
Proof.
  intros Hk. unfold set_if_falsy. destruct (obj_falsy o k); [|done].
  by rewrite obj_set_plain.
Qed.

Lemma set_if_falsy_own k v o k' :
  k <> "__proto__" ->
  obj_own (set_if_falsy k v o) !! k' =
  if decide (k' = k) then (if obj_falsy o k then Some v else obj_own o !! k)
  else obj_own o !! k'.
Proof.
  intros Hk. unfold set_if_falsy. destruct (obj_falsy o k).
  - by apply obj_set_own.
  - by destruct (decide (k' = k)) as [->|].
Qed.

(** [Object.assign] into an object that still has the prototype of a
    literal and no own [__proto__]: every property of the source but
    [__proto__] becomes an own property, and [__proto__] goes to the
    setter. *)
Lemma obj_assign_fresh src o :
  obj_proto o = ObjectPrototype -> obj_own o !! "__proto__" = None ->
  obj_own (obj_assign src o) = delete "__proto__" src ∪ obj_own o /\
  obj_proto (obj_assign src o) = proto_after (src !! "__proto__").
Proof.
  intros Hp Hown. unfold obj_assign.
  apply (map_fold_weak_ind
           (fun r m => obj_own r = delete "__proto__" m ∪ obj_own o /\
                       obj_proto r = proto_after (m !! "__proto__"))).
  - by rewrite delete_empty, (left_id_L ∅ (∪)), lookup_empty.
  - intros i x m r Hi [Hro Hrp].
    destruct (decide (i = "__proto__")) as [->|Hne].
    + rewrite Hi in Hrp. simpl in Hrp.
      assert (reaches_proto_setter r = true) as Hreach.
      { unfold reaches_proto_setter.
        by rewrite Hro, Hrp, lookup_union, lookup_delete_eq, Hown. }
      unfold obj_set. rewrite bool_decide_eq_true_2 by done. rewrite Hreach.
      rewrite delete_insert_eq, lookup_insert_eq.
      destruct x; simpl; by rewrite ?Hro, ?Hrp.
    + rewrite obj_set_plain by done. simpl.
      rewrite delete_insert_ne, lookup_insert_ne by done.
      split; [|done]. by rewrite Hro, insert_union_l.
Qed.

(** The loop over string-valued headers, then [Object.assign]. *)
Lemma obj_assign_after_strings (base : gmap string string) (extra : gmap string jsval) :
  let o := obj_assign extra (obj_assign (JStr <$> base) empty_object) in
  obj_proto o = proto_after (extra !! "__proto__") /\
  forall k,
    obj_own o !! k =
    if decide (k = "__proto__") then None
    else match extra !! k with
         | Some v => Some v
         | None => JStr <$> base !! k
         end.
Proof.
  intros o. subst o.
  destruct (obj_assign_fresh (JStr <$> base) empty_object eq_refl (lookup_empty _))
    as [H0o H0p].
  change (obj_own empty_object) with (∅ : gmap string jsval) in H0o.
  assert (obj_proto (obj_assign (JStr <$> base) empty_object) = ObjectPrototype) as Hp0.
  { rewrite H0p, lookup_fmap. by destruct (base !! "__proto__"). }
  assert (obj_own (obj_assign (JStr <$> base) empty_object) !! "__proto__" = None) as Ho0.
  { by rewrite H0o, lookup_union, lookup_delete_eq, lookup_empty. }
  destruct (obj_assign_fresh extra _ Hp0 Ho0) as [H1o H1p].
  split; [exact H1p|]. intros k. rewrite H1o, lookup_union.
  destruct (decide (k = "__proto__")) as [->|Hne].
  - by rewrite lookup_delete_eq, Ho0.
  - rewrite lookup_delete_ne by done.
    rewrite H0o, lookup_union, lookup_delete_ne, lookup_empty, lookup_fmap by done.
    destruct (extra !! k) as [v|], (base !! k) as [x|]; done.
Qed.

End Objects.

Section Inbound.
Variable w : World.
Variables (reqHeaders : gmap string string) (extraHeaders : gmap string jsval).
Variables uaParam refererParam cookiesParam : option string.


Lemma filtered_lookup (P : string -> Prop) `{!forall k, Decision (P k)} k :
  filter (fun kv : string * string => P (fst kv)) reqHeaders !! k
  = if decide (P k) then reqHeaders !! k else None.
Proof.
  destruct (decide (P k)) as [Hok|Hbad].
  - destruct (reqHeaders !! k) as [x|] eqn:Hr.
    + by rewrite (map_lookup_filter_Some_2 _ reqHeaders k x Hr Hok).
    + rewrite (map_lookup_filter_None_2 _ reqHeaders k); [done|by left].
  - rewrite (map_lookup_filter_None_2 _ reqHeaders k); [done|].
    right. intros x _. exact Hbad.
Qed.

Lemma merged_object_proto :
  obj_proto (merged_object reqHeaders extraHeaders)
  = proto_after (extraHeaders !! "__proto__").
Proof. apply obj_assign_after_strings. Qed.

(** The own properties after the merge: those of the extra headers apart
    from [__proto__], and under them the forwarded client headers. *)
Lemma merged_object_own k :
  obj_own (merged_object reqHeaders extraHeaders) !! k =
  if decide (k = "__proto__") then None
  else match extraHeaders !! k with
       | Some v => Some v
       | None => if decide (forwarded_name k) then JStr <$> reqHeaders !! k else None
       end.
Proof.
  unfold merged_object.
  rewrite (proj2 (obj_assign_after_strings _ extraHeaders) k).
  rewrite (filtered_lookup forwarded_name).
  destruct (decide (k = "__proto__")); [done|].
  destruct (extraHeaders !! k); [done|]. by destruct (decide (forwarded_name k)).
Qed.

(** [fwdHeaders] as handed to [fetch], own property by own property, and
    its prototype. *)
Lemma fwdHeaders_object_spec :
  let m := merged_object reqHeaders extraHeaders in
  let o := fwdHeaders_object w reqHeaders extraHeaders
             uaParam refererParam cookiesParam in
  obj_proto o = obj_proto m /\
  forall k,
    obj_own o !! k =
    if decide (k = "cookie") then
      match truthy_str cookiesParam with
      | Some c => Some (JStr c)
      | None => obj_own m !! "cookie"
      end
    else if decide (k = "origin") then
      match truthy_str refererParam with
      | Some r =>
          if obj_falsy m "referer" && obj_falsy m "origin" then
            match w_URL w r with
            | Some u => Some (JStr (url_origin u))
            | None => obj_own m !! "origin"
            end
          else obj_own m !! "origin"
      | None => obj_own m !! "origin"
      end
    else if decide (k = "referer") then
      match truthy_str refererParam with
      | Some r => if obj_falsy m "referer" then Some (JStr r) else obj_own m !! "referer"
      | None => obj_own m !! "referer"
      end
    else if decide (k = "accept-language") then
      (if obj_falsy m "accept-language" then Some (JStr DEFAULT_ACCEPT_LANGUAGE)
       else obj_own m !! "accept-language")
    else if decide (k = "accept") then
      (if obj_falsy m "accept" then Some (JStr DEFAULT_ACCEPT) else obj_own m !! "accept")
    else if decide (k = "user-agent") then
      match truthy_str uaParam with
      | Some u => Some (JStr u)
      | None => if obj_falsy m "user-agent" then Some (JStr DEFAULT_UA)
                else obj_own m !! "user-agent"
      end
    else obj_own m !! k.
Proof.
  intros m o. subst o. unfold fwdHeaders_object. cbv zeta. fold m.
  set (h2 := match uaParam with Some _ => _ | None => _ end).
  set (h3 := set_if_falsy "accept" _ h2).
  set (h4 := set_if_falsy "accept-language" _ h3).
  set (h5 := match refererParam with Some _ => _ | None => _ end).
  assert (obj_proto h2 = obj_proto m) as P2.
  { subst h2. destruct uaParam as [ua|]; [destruct (Str.nonempty ua)|];
      by rewrite ?obj_set_plain, ?set_if_falsy_proto. }
  assert (forall j, obj_own h2 !! j =
            if decide (j = "user-agent") then
              match truthy_str uaParam with
              | Some u => Some (JStr u)
              | None => if obj_falsy m "user-agent" then Some (JStr DEFAULT_UA)
                        else obj_own m !! "user-agent"
              end
            else obj_own m !! j) as H2.
  { intros j. subst h2. destruct uaParam as [ua|]; simpl;
      [destruct (Str.nonempty ua)|];
      by rewrite ?obj_set_own, ?set_if_falsy_own. }
  assert (obj_proto h3 = obj_proto m) as P3.
  { subst h3. by rewrite set_if_falsy_proto. }
  assert (forall j, obj_own h3 !! j =
            if decide (j = "accept") then
              (if obj_falsy m "accept" then Some (JStr DEFAULT_ACCEPT)
               else obj_own m !! "accept")
            else obj_own h2 !! j) as H3.
  { intros j. subst h3. rewrite set_if_falsy_own by done.
    destruct (decide (j = "accept")); [|done].
    by rewrite (obj_falsy_ext h2 m "accept"), (H2 "accept") by (by rewrite ?H2). }
  assert (obj_proto h4 = obj_proto m) as P4.
  { subst h4. by rewrite set_if_falsy_proto. }
  assert (forall j, obj_own h4 !! j =
            if decide (j = "accept-language") then
              (if obj_falsy m "accept-language" then Some (JStr DEFAULT_ACCEPT_LANGUAGE)
               else obj_own m !! "accept-language")
            else obj_own h3 !! j) as H4.
  { intros j. subst h4. rewrite set_if_falsy_own by done.
    destruct (decide (j = "accept-language")); [|done].
    assert (obj_own h3 !! "accept-language" = obj_own m !! "accept-language") as Heq.
    { by rewrite H3, H2. }
    by rewrite (obj_falsy_ext h3 m "accept-language"), Heq. }
  assert (obj_own h4 !! "referer" = obj_own m !! "referer") as Hr4
    by (by rewrite H4, H3, H2).
  assert (obj_own h4 !! "origin" = obj_own m !! "origin") as Ho4
    by (by rewrite H4, H3, H2).
  assert (obj_proto h5 = obj_proto m) as P5.
  { subst h5. destruct refererParam as [r|]; [|done].
    destruct (_ && _); [|done].
    destruct (obj_falsy _ "origin"); [destruct (w_URL w r)|];
      by rewrite ?obj_set_plain. }
  assert (forall j, obj_own h5 !! j =
            if decide (j = "origin") then
              match truthy_str refererParam with
              | Some r =>
                  if obj_falsy m "referer" && obj_falsy m "origin" then
                    match w_URL w r with
                    | Some u => Some (JStr (url_origin u))
                    | None => obj_own m !! "origin"
                    end
                  else obj_own m !! "origin"
              | None => obj_own m !! "origin"
              end
            else if decide (j = "referer") then
              match truthy_str refererParam with
              | Some r => if obj_falsy m "referer" then Some (JStr r)
                          else obj_own m !! "referer"
              | None => obj_own m !! "referer"
              end
            else obj_own h4 !! j) as H5.
  { intros j. subst h5.
    assert (forall r, obj_falsy (obj_set "referer" (JStr r) h4) "origin"
                      = obj_falsy m "origin") as Hfo.
    { intros r. apply obj_falsy_ext.
      - by rewrite obj_set_own.
      - by rewrite obj_set_plain. }
    rewrite <- (obj_falsy_ext h4 m "referer" Hr4 P4).
    destruct refererParam as [r|]; simpl in *.
    2:{ destruct (decide (j = "origin")) as [->|]; [done|].
        by destruct (decide (j = "referer")) as [->|]. }
    destruct (Str.nonempty r); simpl.
    2:{ destruct (decide (j = "origin")) as [->|]; [done|].
        by destruct (decide (j = "referer")) as [->|]. }
    destruct (obj_falsy h4 "referer"); simpl.
    2:{ destruct (decide (j = "origin")) as [->|]; [done|].
        by destruct (decide (j = "referer")) as [->|]. }
    rewrite Hfo. destruct (obj_falsy m "origin").
    - destruct (w_URL w r) as [u|]; rewrite ?obj_set_own by done;
        destruct (decide (j = "origin")) as [->|Hjo]; try done;
        by destruct (decide (j = "referer")) as [->|Hjr].
    - rewrite obj_set_own by done.
      destruct (decide (j = "origin")) as [->|Hjo]; [done|].
      by destruct (decide (j = "referer")) as [->|Hjr]. }
  assert (obj_own h5 !! "cookie" = obj_own m !! "cookie") as Hc5
    by (by rewrite H5, H4, H3, H2).
  split.
  { destruct cookiesParam as [c|]; [|done].
    destruct (Str.nonempty c); by rewrite ?obj_set_plain. }
  intros k. destruct (decide (k = "cookie")) as [->|Hkc].
  - destruct cookiesParam as [c|]; simpl; [|done].
    destruct (Str.nonempty c); [by rewrite obj_set_own|done].
  - assert (obj_own match cookiesParam with
                    | Some c => if Str.nonempty c then obj_set "cookie" (JStr c) h5 else h5
                    | None => h5
                    end !! k = obj_own h5 !! k) as ->.
    { destruct cookiesParam as [c|]; [|done].
      destruct (Str.nonempty c); [|done].
      rewrite obj_set_own by done. by rewrite decide_False. }
    rewrite H5. destruct (decide (k = "origin")); [done|].
    destruct (decide (k = "referer")); [done|].
    rewrite H4. destruct (decide (k = "accept-language")); [done|].
    rewrite H3. destruct (decide (k = "accept")); [done|].
    by rewrite H2.
Qed.


End Inbound.




Section Outbound.

Lemma filter_loop_lookup entries (acc : gmap string string) k :
  fold_left keep_entry entries acc !! k =
  if decide (Str.toLowerCase k ∈ SKIP_RES_HEADERS) then acc !! k
  else if decide (k = "__proto__") then acc !! k
  else match last_value entries k with
       | Some v => Some v
       | None => acc !! k
       end.
Proof.
  revert acc. induction entries as [|[k' v] r IH]; intros acc; simpl.
  - by repeat destruct (decide _).
  - rewrite IH. clear IH. unfold keep_entry. simpl.
    destruct (decide (Str.toLowerCase k ∈ SKIP_RES_HEADERS)) as [Hk|Hk].
    + destruct (decide (Str.toLowerCase k' ∈ SKIP_RES_HEADERS)); [done|].
      destruct (decide (k' = "__proto__")); [done|].
      rewrite lookup_insert_ne; [done|]. by intros ->.
    + destruct (decide (k = "__proto__")) as [->|Hp].
      * destruct (decide (Str.toLowerCase k' ∈ SKIP_RES_HEADERS)); [done|].
        destruct (decide (k' = "__proto__")); [done|].
        by rewrite lookup_insert_ne.
      * destruct (last_value r k); [done|].
        destruct (decide (k' = k)) as [->|Hne].
        -- rewrite !decide_False by done. by rewrite lookup_insert_eq.
        -- destruct (decide (Str.toLowerCase k' ∈ SKIP_RES_HEADERS)); [done|].
           destruct (decide (k' = "__proto__")); [done|].
           by rewrite lookup_insert_ne.
Qed.

Lemma filterResponseHeaders_lookup entries k :
  filterResponseHeaders entries !! k =
  if decide (Str.toLowerCase k ∈ SKIP_RES_HEADERS) then None
  else if decide (k = "__proto__") then None
  else last_value entries k.
Proof.
  unfold filterResponseHeaders. rewrite filter_loop_lookup, lookup_empty.
  repeat destruct (decide _); try done. by destruct (last_value entries k).
Qed.

Lemma last_value_in entries k v :
  last_value entries k = Some v -> (k, v) ∈ entries.
Proof.
  induction entries as [|[a b] r IH]; simpl; [done|].
  destruct (last_value r k) as [v0|].
  - intros [= <-]. apply elem_of_cons. right. by apply IH.
  - destruct (decide (a = k)) as [->|]; [|done].
    intros [= <-]. apply elem_of_cons. by left.
Qed.

Lemma last_value_nodup entries k v :
  NoDup (map fst entries) -> (k, v) ∈ entries -> last_value entries k = Some v.
Proof.
  induction entries as [|[k' v'] r IH]; simpl.
  - intros _ Hin. by apply elem_of_nil in Hin.
  - intros [Hnotin Hnd]%NoDup_cons [Heq|Hin]%elem_of_cons.
    + injection Heq as <- <-.
      destruct (last_value r k) as [v0|] eqn:Hlv.
      * exfalso. apply Hnotin. apply last_value_in in Hlv.
        apply list_elem_of_fmap. by exists (k, v0).
      * by rewrite decide_True.
    + by rewrite (IH Hnd Hin).
Qed.

Lemma last_value_none entries k :
  last_value entries k = None <-> k ∉ map fst entries.
Proof.
  induction entries as [|[a b] r IH]; simpl.
  - split; [intros _; apply not_elem_of_nil|done].
  - rewrite not_elem_of_cons. destruct (last_value r k).
    + split; [done|]. intros [_ Hr]. by apply IH in Hr.
    + destruct (decide (a = k)) as [->|Hne].
      * split; [done|]. by intros [? _].
      * split; [|done]. intros _. split; [done|]. by apply IH.
Qed.

(** In a list of pairs with distinct names a name occurs once or never. *)
Lemma occurrences_nodup (l : list (string * string)) k :
  NoDup (map fst l) ->
  occurrences k l = if decide (k ∈ map fst l) then 1%nat else 0%nat.
Proof.
  unfold occurrences. induction l as [|[a b] r IH]; simpl.
  - done.
  - intros [Hnotin Hnd]%NoDup_cons. specialize (IH Hnd).
    case_bool_decide as Hk; simpl in *.
    + subst a. rewrite IH, decide_False by done.
      rewrite decide_True; [done|]. apply elem_of_cons. by left.
    + rewrite IH. destruct (decide (k ∈ map fst r)) as [Hin|Hin].
      * rewrite decide_True; [done|]. apply elem_of_cons. by right.
      * rewrite decide_False; [done|]. apply not_elem_of_cons. split; [|done].
        by intros ->.
Qed.

End Outbound.

(** C8.  The outbound transform loses one more name than the five: an
    upstream header named [__proto__] does not lower-case to any of the
    removed names, yet it is not in the object that
    [filterResponseHeaders] returns, and the reply of the handler lacks
    it. *)
Theorem filterResponseHeaders_proto_header :
  (Str.toLowerCase "__proto__" ∉ SKIP_RES_HEADERS) /\
  filterResponseHeaders [("__proto__", "1"); ("x-test", "1")] = {[ "x-test" := "1" ]} /\
  ~ outbound_keeps_multiplicity [("__proto__", "1"); ("x-test", "1")] /\
  result (handler Sample.config Sample.proto_header_world Sample.relay_request)
  = Ret (mkResp 200 {[ "x-test" := "1" ]} "abc").
Proof.
  assert (Str.toLowerCase "__proto__" ∉ SKIP_RES_HEADERS) as Hk.
  { vm_compute. intros H'. discriminate H'. }
  split; [exact Hk|]. split; [by vm_compute|]. split; [|by vm_compute].
  intros H. specialize (H "__proto__" Hk). vm_compute in H. discriminate H.
Qed.

(** X28.  The outbound transform on the pairs of a [Headers] iteration,
    which names each header once: the names that lower-case to
    [transfer-encoding], [content-length], [connection], [keep-alive] or
    [server] are removed, and so is [__proto__]; every other name comes
    out exactly when it went in, with its value unchanged, and once. *)
Theorem filterResponseHeaders_spec (entries : list (string * string)) (k : string) :
  NoDup (map fst entries) ->
  let out := filterResponseHeaders entries in
  (Str.toLowerCase k ∈ SKIP_RES_HEADERS -> out !! k = None) /\
  (k = "__proto__" -> out !! k = None) /\
  (Str.toLowerCase k ∉ SKIP_RES_HEADERS -> k <> "__proto__" ->
   (forall v, out !! k = Some v <-> (k, v) ∈ entries) /\
   occurrences k (map_to_list out) = occurrences k entries).
Proof.
  intros Hnd out. pose proof (filterResponseHeaders_lookup entries k) as Hout.
  fold out in Hout. split; [|split].
  - intros Hk. by rewrite Hout, decide_True.
  - intros ->. rewrite Hout. by repeat destruct (decide _).
  - intros Hk Hp. rewrite !decide_False in Hout by done.
    assert (forall v, out !! k = Some v <-> (k, v) ∈ entries) as Hiff.
    { intros v. rewrite Hout. split; [apply last_value_in|by apply last_value_nodup]. }
    split; [exact Hiff|].
    rewrite !occurrences_nodup; [|done|apply NoDup_fst_map_to_list].
    destruct (decide (k ∈ map fst entries)) as [Hin|Hin].
    + apply list_elem_of_fmap in Hin as ([k' v] & -> & Hin). simpl.
      apply Hiff in Hin. rewrite decide_True; [done|].
      apply list_elem_of_fmap. exists (k', v). split; [done|].
      by apply elem_of_map_to_list.
    + rewrite decide_False; [done|].
      intros ([k' v] & -> & Hin')%list_elem_of_fmap. simpl in *.
      apply elem_of_map_to_list, Hiff in Hin'. apply Hin.
      apply list_elem_of_fmap. by exists (k', v).
Qed.

Lemma filterResponseHeaders_spec_witness :
  filterResponseHeaders [("content-length", "10"); ("x-custom", "ok")]
    !! "content-length" = None /\
  filterResponseHeaders [("content-length", "10"); ("x-custom", "ok")]
    !! "x-custom" = Some "ok".
Proof.
  assert (NoDup (map fst [("content-length", "10"); ("x-custom", "ok")])) as Hnd.
  { apply NoDup_cons. split; [|apply NoDup_singleton].
    intros Hin%list_elem_of_singleton. discriminate Hin. }
  split.
  - destruct (filterResponseHeaders_spec
                [("content-length", "10"); ("x-custom", "ok")] "content-length" Hnd)
      as (H & _).
    apply H. by vm_compute.
  - destruct (filterResponseHeaders_spec
                [("content-length", "10"); ("x-custom", "ok")] "x-custom" Hnd)
      as (_ & _ & H).
    apply H.
    + vm_compute. intros H'. discriminate H'.
    + done.
    + apply elem_of_cons. right. by apply list_elem_of_singleton.
Defined.

(** ** RelayHandler *)

Lemma in_trace_bind {A B} (m : M A) (k : A -> M B) (e : event) :
  In e (trace (bind m k)) <->
  In e (trace m) \/ exists a, result m = Ret a /\ In e (trace (k a)).
Proof.
  rewrite trace_bind, in_app_iff. destruct (result m) as [a|err].
  - split; intros [H|H]; auto.
    + right. by exists a.
    + destruct H as (a' & [= <-] & H). by right.
  - split; intros [H|H]; auto; [done|]. by destruct H as (a' & [=] & _).
Qed.

Lemma fetches_app t1 t2 : fetches (t1 ++ t2) = (fetches t1 ++ fetches t2)%list.
Proof. unfold fetches. apply omap_app. Qed.

Lemma fetches_nil t : (forall rq, ~ In (EFetch rq) t) -> fetches t = [].
Proof.
  induction t as [|e t IH]; intros Hno; [done|].
  unfold fetches in *. simpl.
  destruct e; try (apply IH; intros rq Hin; apply (Hno rq); by right).
  destruct (Hno rq). by left.
Qed.

Lemma in_fetches t rq : In rq (fetches t) <-> In (EFetch rq) t.
Proof.
  induction t as [|e t IH]; [done|].
  unfold fetches in *. simpl. destruct e; simpl; rewrite IH;
    try (split; [by right|by intros [[=]|]]).
  split; intros [H|H]; auto; left; congruence.
Qed.

Section Lifecycle.
Variable cfg : Config.
Variable w : World.

(** *** The steps return, and what they emit *)

Lemma checkInterface_returns : exists b, result (checkInterface cfg w) = Ret b.
Proof.
  unfold checkInterface, runCmd, bind, emit, ret. simpl.
  destruct (negb _); simpl; [by eexists|].
  destruct (negb _); simpl; by eexists.
Qed.

Lemma checkInterface_trace e :
  In e (trace (checkInterface cfg w)) ->
  (exists c, e = ERunCmd c) \/ (exists m, e = EWarn m).
Proof.
  unfold checkInterface, runCmd, bind, emit, ret. simpl.
  destruct (negb _); simpl.
  - intros [<-|[<-|[]]]; [left|right]; by eexists.
  - destruct (negb _); simpl.
    + intros [<-|[<-|[]]]; [left|right]; by eexists.
    + intros [<-|[]]. left. by eexists.
Qed.

Lemma addIPv6ToInterface_returns ip :
  exists b, result (addIPv6ToInterface cfg w ip) = Ret b.
Proof.
  unfold addIPv6ToInterface. destruct (negb (ENABLE_ASSIGN cfg)); [by eexists|].
  rewrite result_bind, logDebug_result.
  unfold runCmd, bind, emit, ret. simpl.
  destruct (_ && _); simpl; by eexists.
Qed.

Lemma addIPv6ToInterface_trace ip e :
  In e (trace (addIPv6ToInterface cfg w ip)) ->
  (exists c, e = ERunCmd c) \/ (exists m, e = EWarn m) \/ (exists m, e = ELog m).
Proof.
  unfold addIPv6ToInterface. destruct (negb (ENABLE_ASSIGN cfg)); [done|].
  rewrite in_trace_bind, logDebug_trace, logDebug_result.
  intros [Hlog|(_ & _ & Hrest)].
  - destruct (DEBUG cfg); [|done]. destruct Hlog as [<-|[]].
    right; right. by eexists.
  - revert Hrest. unfold runCmd, bind, emit, ret. simpl.
    destruct (_ && _); simpl.
    + intros [<-|[<-|[]]]; [left|right; left]; by eexists.
    + intros [<-|[]]. left. by eexists.
Qed.

Lemma testIPv6Connectivity_run ip :
  testIPv6Connectivity w ip = mkM [EProbe ip] (Ret (w_probe w ip)).
Proof. reflexivity. Qed.

Lemma join_nonempty sep p ps : p <> "" -> Str.join sep (p :: ps) <> "".
Proof.
  intros Hp. destruct ps as [|q r]; simpl; [done|].
  destruct p; [done|]. done.
Qed.

(** A generated address is a non-empty string. *)
Lemma randomIPv6_truthy ip :
  result (randomIPv6 cfg w) = Ret (Some ip) -> truthy_str (Some ip) = Some ip.
Proof.
  intros Hgen.
  destruct (le_lt_dec 8 (length (fixed_hextets cfg))) as [Hge|Hlt].
  { destruct (randomIPv6_full cfg w Hge) as [Hnone _]. congruence. }
  rewrite (randomIPv6_room cfg w Hlt) in Hgen. simpl in Hgen.
  injection Hgen as <-. simpl.
  assert (Str.nonempty
            (Str.join ":" (fixed_hextets cfg
               ++ random_hextets w (8 - length (fixed_hextets cfg)))) = true) as ->;
    [|done].
  apply StrFacts.nonempty_spec.
  assert (exists p ps,
            (fixed_hextets cfg
               ++ random_hextets w (8 - length (fixed_hextets cfg)))%list = p :: ps
            /\ p <> "") as (p & ps & -> & Hp); [|by apply join_nonempty].
  destruct (fixed_hextets cfg) as [|p ps] eqn:Hfixed.
  - exists (hextet_at w 0), (map (hextet_at w) (seq 1 7)). split; [reflexivity|].
    intros Hempty.
    pose proof (proj1 (hextet_at_props w 0)) as Hlen. by rewrite Hempty in Hlen.
  - exists p, (ps ++ random_hextets w (8 - length (p :: ps)))%list.
    split; [reflexivity|].
    assert (In p (fixed_hextets cfg)) as Hin by (rewrite Hfixed; by left).
    unfold fixed_hextets, hextets_of in Hin.
    apply in_app_iff in Hin as [Hin|Hin];
      apply filter_In in Hin as [_ Hne]; by apply StrFacts.nonempty_spec.
Qed.

End Lifecycle.

(** *** Steps that perform no fetch *)

Create HintDb relay.

Lemma quiet_bind {A B} (m : M A) (k : A -> M B) :
  quiet m -> (forall a, quiet (k a)) -> quiet (bind m k).
Proof.
  intros Hm Hk rq [Hin|(a & _ & Hin)]%in_trace_bind.
  - by apply (Hm rq).
  - by apply (Hk a rq).
Qed.

Lemma quiet_ret {A} (a : A) : quiet (ret a).
Proof. intros rq []. Qed.

Lemma quiet_logDebug cfg msg : quiet (logDebug cfg msg).
Proof.
  intros rq. rewrite logDebug_trace.
  destruct (DEBUG cfg); simpl; [by intros [[=]|[]]|by intros []].
Qed.

Lemma quiet_randomIPv6 cfg w : quiet (randomIPv6 cfg w).
Proof.
  intros rq Hin. apply randomIPv6_no_fetch in Hin as [[m [=]]|[n [=]]].
Qed.

Lemma quiet_checkInterface cfg w : quiet (checkInterface cfg w).
Proof.
  intros rq Hin. apply checkInterface_trace in Hin as [[m [=]]|[n [=]]].
Qed.

Lemma quiet_addIPv6ToInterface cfg w ip : quiet (addIPv6ToInterface cfg w ip).
Proof.
  intros rq Hin.
  apply addIPv6ToInterface_trace in Hin as [[m [=]]|[[n [=]]|[n [=]]]].
Qed.

Lemma quiet_testIPv6Connectivity w ip : quiet (testIPv6Connectivity w ip).
Proof. intros rq. rewrite testIPv6Connectivity_run. by intros [[=]|[]]. Qed.

Lemma quiet_runCmd w c : quiet (runCmd w c).
Proof. intros rq. unfold runCmd, bind, emit, ret. simpl. by intros [[=]|[]]. Qed.

Lemma quiet_validateApiToken cfg w token : quiet (validateApiToken cfg w token).
Proof. intros rq Hin. by apply validateApiToken_trace in Hin as [m [=]]. Qed.

Lemma quiet_pickAgents l : quiet (pickAgents l).
Proof. intros rq. unfold pickAgents, bind, emit, ret. simpl. by intros [[=]|[[=]|[]]]. Qed.

(** What [buildProxyAgents] does: it returns, with no transport or with
    the transports of its proxy, having constructed these and no other;
    a URL that does not parse gives no transport. *)
Lemma buildProxyAgents_cases cfg w u l :
  let socks := SocksProxyAgent u l true in
  let http := HttpProxyAgent u l true in
  let https := HttpsProxyAgent u l true in
  exists t ag,
    buildProxyAgents cfg w u l = mkM t (Ret ag) /\
    (ag = no_agents \/ ag = mkAgents (Some socks) (Some socks)
     \/ ag = mkAgents (Some http) (Some https)) /\
    (w_URL w u = None -> ag = no_agents) /\
    Forall (fun e => (exists m, e = ELog m) \/ e = ENewAgent socks
                     \/ e = ENewAgent http \/ e = ENewAgent https) t /\
    (length (new_agents t) <= 2)%nat.
Proof.
  intros socks http https. subst socks http https.
  unfold buildProxyAgents, newProxyAgent.
  destruct (w_URL w u) as [url|];
    [destruct (Str.has_prefix _ _);
     [destruct (w_agentOk w (SocksProxyAgent u l true))
     |destruct (_ || _);
      [destruct (w_agentOk w (HttpProxyAgent u l true));
       [destruct (w_agentOk w (HttpsProxyAgent u l true))|]|]]|];
    unfold catch, bind, lift, emit, ret, logDebug; cbn;
    try (destruct (DEBUG cfg); cbn);
    (eexists _, _; split; [reflexivity|];
     split; [first [by left|by right; left|by right; right]|];
     split; [done|]; split; [|simpl; lia]);
    repeat (constructor;
            [first [by left; eexists|by right; left|by right; right; left
                   |by right; right; right]|]);
    constructor.
Qed.

Lemma quiet_buildProxyAgents cfg w u l : quiet (buildProxyAgents cfg w u l).
Proof.
  destruct (buildProxyAgents_cases cfg w u l) as (t & ag & -> & _ & _ & Hall & _).
  intros rq Hin. simpl in Hin. rewrite List.Forall_forall in Hall.
  by destruct (Hall _ Hin) as [[m [=]]|[[=]|[[=]|[=]]]].
Qed.

#[global] Hint Resolve quiet_ret quiet_logDebug quiet_randomIPv6 quiet_checkInterface
  quiet_addIPv6ToInterface quiet_testIPv6Connectivity quiet_runCmd
  quiet_validateApiToken quiet_pickAgents quiet_buildProxyAgents : relay.

Ltac quiet_steps :=
  repeat first
    [ progress auto with relay
    | apply quiet_bind; [|intros ?]
    | match goal with
      | |- quiet (if ?b then _ else _) => destruct b
      | |- quiet (match ?o with Some _ => _ | None => _ end) => destruct o
      | |- quiet (match ?o with inl _ => _ | inr _ => _ end) => destruct o
      end ].

Lemma quiet_handler_auth cfg w req : quiet (handler_auth cfg w req).
Proof. unfold handler_auth. quiet_steps. Qed.

Lemma quiet_handler_info cfg w : quiet (handler_info cfg w).
Proof. unfold handler_info, send. quiet_steps. Qed.

Lemma quiet_handler_egress cfg w : quiet (handler_egress cfg w).
Proof. unfold handler_egress. quiet_steps. Qed.

Lemma quiet_handler_agents cfg w p l : quiet (handler_agents cfg w p l).
Proof. unfold handler_agents. quiet_steps. Qed.

#[global] Hint Resolve quiet_handler_auth quiet_handler_info quiet_handler_egress
  quiet_handler_agents : relay.

Lemma quiet_fetches {A} (m : M A) : quiet m -> fetches (trace m) = [].
Proof. intros Hq. by apply fetches_nil. Qed.

(** *** Authenticating *)

Lemma expectedToken_truthy w : str_truthy (Some (expectedToken w)) = true.
Proof.
  simpl. apply StrFacts.nonempty_spec. intros Hempty.
  pose proof (expectedToken_length w) as Hl. by rewrite Hempty in Hl.
Qed.

Lemma handler_auth_result cfg w req :
  result (handler_auth cfg w req) =
  Ret (if REQUIRE_TOKEN cfg then token_accepted w (api_token req) else true).
Proof.
  unfold handler_auth. destruct (REQUIRE_TOKEN cfg); [|done].
  destruct (is_falsy (api_token req)) eqn:Hf.
  - by rewrite token_accepted_falsy.
  - apply validateApiToken_result.
Qed.

Lemma handler_auth_trace cfg w req e :
  In e (trace (handler_auth cfg w req)) -> exists msg, e = ELog msg.
Proof.
  unfold handler_auth. destruct (REQUIRE_TOKEN cfg); [|done].
  destruct (is_falsy _); [done|]. apply validateApiToken_trace.
Qed.

(** *** ResolvingEgress *)

Section Egress.
Variable cfg : Config.
Variable w : World.

Lemma skip_log_result (gen : option string) :
  result (if negb (str_truthy gen)
          then logDebug cfg "Skipping IPv6 assign: invalid prefix/subnet config"
          else ret tt) = Ret tt.
Proof. destruct (negb _); [apply logDebug_result|done]. Qed.

Lemma egress_not_linux :
  w_platform w <> "linux" -> result (handler_egress cfg w) = Ret (inr None).
Proof.
  intros Hp. unfold handler_egress.
  destruct (randomIPv6_returns cfg w) as [gen Hgen].
  rewrite result_bind, Hgen, bool_decide_eq_false_2 by done.
  by rewrite result_bind, logDebug_result.
Qed.

Lemma egress_no_interface :
  w_platform w = "linux" -> result (checkInterface cfg w) = Ret false ->
  result (handler_egress cfg w)
  = Ret (inl (mkResp 500 ∅ ("Interface " +:+ INTERFACE cfg +:+ " not found"))).
Proof.
  intros Hp Hchk. unfold handler_egress.
  destruct (randomIPv6_returns cfg w) as [gen Hgen].
  rewrite result_bind, Hgen, bool_decide_eq_true_2 by done.
  by rewrite result_bind, Hchk.
Qed.

Lemma egress_null_address :
  w_platform w = "linux" -> result (checkInterface cfg w) = Ret true ->
  result (randomIPv6 cfg w) = Ret None ->
  result (handler_egress cfg w) = Ret (inr None).
Proof.
  intros Hp Hchk Hgen. unfold handler_egress.
  rewrite result_bind, Hgen, bool_decide_eq_true_2 by done.
  rewrite result_bind, Hchk. change (negb true) with false. cbv iota.
  rewrite result_bind, skip_log_result. done.
Qed.

Lemma egress_assign_failed ip :
  w_platform w = "linux" -> result (checkInterface cfg w) = Ret true ->
  result (randomIPv6 cfg w) = Ret (Some ip) ->
  result (addIPv6ToInterface cfg w ip) = Ret false ->
  result (handler_egress cfg w)
  = Ret (inl (mkResp 500 ∅ "Failed to configure IPv6 address")).
Proof.
  intros Hp Hchk Hgen Hadd. unfold handler_egress.
  rewrite result_bind, Hgen, bool_decide_eq_true_2 by done.
  rewrite result_bind, Hchk. change (negb true) with false. cbv iota.
  rewrite result_bind, skip_log_result.
  rewrite (randomIPv6_truthy cfg w ip Hgen).
  by rewrite result_bind, Hadd.
Qed.

Lemma egress_probed ip :
  w_platform w = "linux" -> result (checkInterface cfg w) = Ret true ->
  result (randomIPv6 cfg w) = Ret (Some ip) ->
  result (addIPv6ToInterface cfg w ip) = Ret true ->
  In (EProbe ip) (trace (handler_egress cfg w)) /\
  result (handler_egress cfg w)
  = Ret (inr (if w_probe w ip then Some ip else None)).
Proof.
  intros Hp Hchk Hgen Hadd. unfold handler_egress.
  pose proof (randomIPv6_truthy cfg w ip Hgen) as Hip. split.
  - apply in_trace_bind. right. exists (Some ip). split; [done|].
    rewrite bool_decide_eq_true_2 by done.
    apply in_trace_bind. right. exists true. split; [done|]. change (negb true) with false. cbv iota.
    apply in_trace_bind. right. exists tt. split; [apply skip_log_result|].
    rewrite Hip.
    apply in_trace_bind. right. exists true. split; [done|]. change (negb true) with false. cbv iota.
    apply in_trace_bind. left. rewrite testIPv6Connectivity_run. by left.
  - rewrite result_bind, Hgen, bool_decide_eq_true_2 by done.
    rewrite result_bind, Hchk. change (negb true) with false. cbv iota.
    rewrite result_bind, skip_log_result. rewrite Hip.
    rewrite result_bind, Hadd. change (negb true) with false. cbv iota.
    rewrite result_bind, testIPv6Connectivity_run. simpl result.
    destruct (w_probe w ip); simpl; [done|].
    by rewrite result_bind, logDebug_result.
Qed.

(** The outcomes of ResolvingEgress. *)
Lemma handler_egress_cases :
  let e := handler_egress cfg w in
  (w_platform w <> "linux" /\ result e = Ret (inr None)) \/
  (w_platform w = "linux" /\ result (checkInterface cfg w) = Ret false /\
   result e = Ret (inl (mkResp 500 ∅ ("Interface " +:+ INTERFACE cfg +:+ " not found")))) \/
  (w_platform w = "linux" /\ result (checkInterface cfg w) = Ret true /\
   result (randomIPv6 cfg w) = Ret None /\ result e = Ret (inr None)) \/
  (exists ip,
     w_platform w = "linux" /\ result (checkInterface cfg w) = Ret true /\
     result (randomIPv6 cfg w) = Ret (Some ip) /\
     result (addIPv6ToInterface cfg w ip) = Ret false /\
     result e = Ret (inl (mkResp 500 ∅ "Failed to configure IPv6 address"))) \/
  (exists ip,
     w_platform w = "linux" /\ result (checkInterface cfg w) = Ret true /\
     result (randomIPv6 cfg w) = Ret (Some ip) /\
     result (addIPv6ToInterface cfg w ip) = Ret true /\
     In (EProbe ip) (trace e) /\
     result e = Ret (inr (if w_probe w ip then Some ip else None))).
Proof.
  intros e. subst e.
  destruct (decide (w_platform w = "linux")) as [Hp|Hp];
    [right|left; split; [done|by apply egress_not_linux]].
  destruct (checkInterface_returns cfg w) as [[|] Hchk];
    [right|left; repeat split; try done; by apply egress_no_interface].
  destruct (randomIPv6_returns cfg w) as [[ip|] Hgen];
    [right|left; repeat split; try done; by apply egress_null_address].
  destruct (addIPv6ToInterface_returns cfg w ip) as [[|] Hadd].
  - right. exists ip.
    destruct (egress_probed ip Hp Hchk Hgen Hadd) as [Hin Hres]. done.
  - left. exists ip. repeat split; try done.
    by apply (egress_assign_failed ip).
Qed.

End Egress.

(** *** BuildingTransport *)

Lemma handler_agents_cases cfg w (proxyParam localIP : option string) :
  exists ag,
    result (handler_agents cfg w proxyParam localIP) = Ret ag /\
    (forall a, httpAgent ag = Some a \/ httpsAgent ag = Some a ->
               agent_localAddress a = localIP) /\
    (truthy_str (str_or proxyParam (chooseFromList w (w_env w !! "I6_PROXY_LIST")))
       = None ->
     localIP = None -> ag = no_agents).
Proof.
  unfold handler_agents.
  destruct (truthy_str (str_or proxyParam _)) as [u|].
  - destruct (buildProxyAgents_cases cfg w u localIP)
      as (t & ag & -> & [-> | [-> | ->]] & _).
    + exists no_agents. split; [reflexivity|]. split; [|done]. by intros a [[=]|[=]].
    + eexists. split; [reflexivity|]. split; [|done].
      simpl. by intros a [[= <-]|[= <-]].
    + eexists. split; [reflexivity|]. split; [|done].
      simpl. by intros a [[= <-]|[= <-]].
  - destruct (str_truthy localIP) eqn:Hl.
    + eexists. split; [reflexivity|]. split.
      * simpl. by intros a [[= <-]|[= <-]].
      * intros _ ->. done.
    + exists no_agents. split; [reflexivity|]. split; [|done].
      by intros a [[=]|[=]].
Qed.

(** *** The lifecycle as a whole *)

Lemma handler_egress_returns cfg w :
  exists eg, result (handler_egress cfg w) = Ret eg.
Proof.
  destruct (handler_egress_cases cfg w)
    as [[_ H]|[(_ & _ & H)|[(_ & _ & _ & H)|[(ip & _ & _ & _ & _ & H)
       |(ip & _ & _ & _ & _ & _ & H)]]]]; by eexists.
Qed.

Lemma handler_respond_trace r : trace (handler_respond r) = [].
Proof. destruct r as [st entries body|e]; simpl; [done|]. by destruct (is_abort e). Qed.

Lemma truthy_str_Some o s : truthy_str o = Some s -> str_truthy o = true.
Proof. destruct o as [t|]; simpl; [|done]. by destruct (Str.nonempty t). Qed.

Lemma truthy_str_None o : truthy_str o = None -> str_truthy o = false.
Proof. destruct o as [t|]; simpl; [|done]. by destruct (Str.nonempty t). Qed.

Section Relay.
Variable cfg : Config.
Variable w : World.
Variable req : Request.

(** A relayed request either stops in ResolvingEgress with the early
    reply, or performs exactly one fetch and replies from its outcome. *)
Lemma handler_relay_cases targetRaw :
  let r := handler_relay cfg w req targetRaw in
  (exists early,
     result (handler_egress cfg w) = Ret (inl early) /\
     result r = Ret early /\ quiet r) \/
  (exists localIP rq,
     result (handler_egress cfg w) = Ret (inr localIP) /\
     result (handler_agents cfg w (req_query req !! "proxy") localIP)
       = Ret (f_agents rq) /\
     fetches (trace r) = [rq] /\
     result r = result (handler_respond (w_fetch w rq)) /\
     (forall e, In e (trace (handler_egress cfg w)) -> In e (trace r))).
Proof.
  intros r. subst r. unfold handler_relay.
  destruct (handler_egress_returns cfg w) as [[early|localIP] Heg].
  - left. exists early. split; [done|]. split.
    + by rewrite result_bind, Heg.
    + intros rq Hin. apply in_trace_bind in Hin as [Hin|(a & Ha & Hin)].
      * by apply (quiet_handler_egress cfg w rq).
      * rewrite Heg in Ha. injection Ha as <-. destruct Hin.
  - right.
    destruct (handler_agents_cases cfg w (req_query req !! "proxy") localIP)
      as (ag & Hag & _).
    eexists localIP, (mkFetch _ _ _ ag _ _).
    split; [done|]. split; [exact Hag|]. split; [|split].
    + rewrite trace_bind, Heg, fetches_app, quiet_fetches by auto with relay.
      rewrite trace_bind, Hag, fetches_app, quiet_fetches by auto with relay.
      unfold handler_forward. rewrite trace_bind. simpl.
      by rewrite handler_respond_trace.
    + rewrite result_bind, Heg, result_bind, Hag.
      unfold handler_forward. by rewrite result_bind.
    + intros e Hin. apply in_trace_bind. by left.
Qed.

Lemma handler_unauthorized :
  result (handler_auth cfg w req) = Ret false ->
  result (handler cfg w req) = Ret (mkResp 401 ∅ "Unauthorized: invalid API-Token") /\
  trace (handler cfg w req) = trace (handler_auth cfg w req).
Proof.
  intros Hauth. unfold handler.
  rewrite result_bind, trace_bind, Hauth. simpl. by rewrite app_nil_r.
Qed.

Lemma handler_relayed targetRaw :
  result (handler_auth cfg w req) = Ret true ->
  truthy_str (req_query req !! "url") = Some targetRaw ->
  result (handler cfg w req) = result (handler_relay cfg w req targetRaw) /\
  trace (handler cfg w req)
  = (trace (handler_auth cfg w req) ++ trace (handler_relay cfg w req targetRaw))%list.
Proof.
  intros Hauth Hurl. unfold handler.
  rewrite result_bind, trace_bind, Hauth. change (negb true) with false. cbv iota.
  rewrite (truthy_str_Some _ _ Hurl), Hurl.
  change (negb true) with false. rewrite andb_false_r. done.
Qed.

Lemma handler_no_target :
  truthy_str (req_query req !! "url") = None -> quiet (handler cfg w req).
Proof.
  intros Hurl. unfold handler. apply quiet_bind; [auto with relay|].
  intros authorized. rewrite Hurl.
  destruct (negb authorized); [apply quiet_ret|].
  destruct (_ && _); [auto with relay|apply quiet_ret].
Qed.

(** Every fetch of the handler is the one fetch of a relayed request. *)
Lemma handler_fetch_inv rq :
  In (EFetch rq) (trace (handler cfg w req)) ->
  exists localIP,
    reaches_relay cfg w req /\
    result (handler_egress cfg w) = Ret (inr localIP) /\
    result (handler_agents cfg w (req_query req !! "proxy") localIP)
      = Ret (f_agents rq) /\
    fetches (trace (handler cfg w req)) = [rq] /\
    result (handler cfg w req) = result (handler_respond (w_fetch w rq)) /\
    (forall e, In e (trace (handler_egress cfg w)) ->
               In e (trace (handler cfg w req))).
Proof.
  intros Hin.
  destruct (truthy_str (req_query req !! "url")) as [targetRaw|] eqn:Hurl.
  2:{ by destruct (handler_no_target Hurl rq). }
  pose proof (handler_auth_result cfg w req) as Hauth.
  destruct (if REQUIRE_TOKEN cfg then _ else true) eqn:Hok in Hauth.
  2:{ destruct (handler_unauthorized Hauth) as [_ Ht]. rewrite Ht in Hin.
      by destruct (quiet_handler_auth cfg w req rq). }
  destruct (handler_relayed targetRaw Hauth Hurl) as [Hres Htr].
  assert (fetches (trace (handler cfg w req))
          = fetches (trace (handler_relay cfg w req targetRaw))) as Hf.
  { rewrite Htr, fetches_app, quiet_fetches by auto with relay. done. }
  destruct (handler_relay_cases targetRaw)
    as [(early & _ & _ & Hq)|(localIP & rq' & Heg & Hag & Hfet & Hrr & Hsub)].
  - apply in_fetches in Hin. rewrite Hf, (quiet_fetches _ Hq) in Hin. done.
  - apply in_fetches in Hin. rewrite Hf, Hfet in Hin. destruct Hin as [->|[]].
    exists localIP. split; [split; [done|by rewrite Hurl; eexists]|].
    split; [done|]. split; [done|]. split; [by rewrite Hf|].
    split; [by rewrite Hres|].
    intros e He. rewrite Htr. apply in_app_iff. right. by apply Hsub.
Qed.

End Relay.

Lemma handler_without_target cfg w req :
  result (handler_auth cfg w req) = Ret true ->
  truthy_str (req_query req !! "url") = None ->
  result (handler cfg w req)
  = (if bool_decide (req_method req = "GET") then result (handler_info cfg w)
     else Ret (mkResp 400 ∅ "Missing url")) /\
  trace (handler cfg w req)
  = (trace (handler_auth cfg w req)
     ++ if bool_decide (req_method req = "GET") then trace (handler_info cfg w)
        else [])%list.
Proof.
  intros Hauth Hurl. unfold handler.
  rewrite result_bind, trace_bind, Hauth. change (negb true) with false. cbv iota.
  rewrite (truthy_str_None _ Hurl), Hurl. change (negb false) with true.
  rewrite andb_true_r. by destruct (bool_decide (req_method req = "GET")).
Qed.

(** C2 (as amended).  A transport handed to the upstream fetch carries a
    local address only if that address is the one generated in this
    request, on Linux, and both the assignment step and the probe returned
    success for it (the probe having run in this request).  When there is
    no such address (probe failure, another platform, [null] from the
    generator) the request still performs its fetch, no transport carries
    a local address, and without an upstream proxy no transport is set at
    all: the system default. *)
Theorem handler_egress_identity (cfg : Config) (w : World) (req : Request) :
  (forall rq,
     In (EFetch rq) (trace (handler cfg w req)) ->
     (forall a ip,
        agent_of rq a -> agent_localAddress a = Some ip ->
        verified_address cfg w ip /\ In (EProbe ip) (trace (handler cfg w req))) /\
     ((~ exists ip, verified_address cfg w ip) ->
      (forall a, agent_of rq a -> agent_localAddress a = None) /\
      (selected_proxy w req = None -> f_agents rq = no_agents))) /\
  (reaches_relay cfg w req ->
   (w_platform w <> "linux" \/
    (result (checkInterface cfg w) = Ret true /\
     (result (randomIPv6 cfg w) = Ret None \/
      exists ip, result (randomIPv6 cfg w) = Ret (Some ip) /\
                 result (addIPv6ToInterface cfg w ip) = Ret true /\
                 w_probe w ip = false))) ->
   exists rq,
     fetches (trace (handler cfg w req)) = [rq] /\
     (forall a, agent_of rq a -> agent_localAddress a = None) /\
     (selected_proxy w req = None -> f_agents rq = no_agents)).
Proof.
  split.
  - intros rq Hin.
    destruct (handler_fetch_inv cfg w req rq Hin)
      as (localIP & _ & Heg & Hag & _ & _ & Hsub).
    destruct (handler_agents_cases cfg w (req_query req !! "proxy") localIP)
      as (ag & Hag' & Hlocal & Hdefault).
    rewrite Hag in Hag'. injection Hag' as <-.
    assert (forall ip, localIP = Some ip ->
              verified_address cfg w ip /\ In (EProbe ip) (trace (handler cfg w req)))
      as Hver.
    { intros ip ->.
      destruct (handler_egress_cases cfg w)
        as [[_ H]|[(_ & _ & H)|[(_ & _ & _ & H)|[(ip' & _ & _ & _ & _ & H)
           |(ip' & Hp & Hchk & Hgen & Hadd & Hprobe & H)]]]];
        rewrite Heg in H; try discriminate H.
      destruct (w_probe w ip') eqn:Hpr; [|discriminate H].
      injection H as ->. split; [|by apply Hsub].
      repeat split; try done.
      rewrite testIPv6Connectivity_run. simpl. by rewrite Hpr. }
    split.
    + intros a ip Ha Hl. apply Hver. by rewrite <- (Hlocal a Ha).
    + intros Hnone.
      assert (localIP = None) as ->.
      { destruct localIP as [ip|]; [|done].
        destruct Hnone. exists ip. by apply Hver. }
      split; [exact Hlocal|]. intros Hproxy. by apply Hdefault.
  - intros [Hauth [targetRaw Hurl]] Hcase.
    assert (result (handler_egress cfg w) = Ret (inr None)) as Heg.
    { destruct (decide (w_platform w = "linux")) as [Hp|Hp];
        [|by apply egress_not_linux].
      destruct Hcase as [Hnp|[Hchk [Hgen|(ip & Hgen & Hadd & Hpr)]]]; [done| |].
      - by apply egress_null_address.
      - destruct (egress_probed cfg w ip Hp Hchk Hgen Hadd) as [_ Hres].
        by rewrite Hpr in Hres. }
    destruct (handler_relayed cfg w req targetRaw Hauth Hurl) as [_ Htr].
    destruct (handler_relay_cases cfg w req targetRaw)
      as [(early & Heg' & _)|(localIP & rq & Heg' & Hag & Hfet & _)];
      rewrite Heg in Heg'; [discriminate Heg'|]. injection Heg' as <-.
    destruct (handler_agents_cases cfg w (req_query req !! "proxy") None)
      as (ag & Hag' & Hlocal & Hdefault).
    rewrite Hag in Hag'. injection Hag' as <-.
    exists rq. split; [|split].
    + by rewrite Htr, fetches_app, quiet_fetches, Hfet by auto with relay.
    + exact Hlocal.
    + intros Hproxy. by apply Hdefault.
Qed.

Lemma handler_egress_identity_witness :
  exists rq,
    fetches (trace (handler Sample.config Sample.unroutable_world Sample.relay_request))
      = [rq] /\
    (forall a, agent_of rq a -> agent_localAddress a = None) /\
    (selected_proxy Sample.unroutable_world Sample.relay_request = None ->
     f_agents rq = no_agents).
Proof.
  apply (handler_egress_identity Sample.config Sample.unroutable_world
           Sample.relay_request).
  - split; [by vm_compute|]. vm_compute. by eexists.
  - right. split; [by vm_compute|]. right. eexists.
    split; [by vm_compute|]. split; by vm_compute.
Defined.

(** The claim C2 in its two-way form fails: a request that names an
    upstream proxy on a host that is not Linux goes through the proxy
    transports, not the system default. *)
Lemma handler_proxy_not_default :
  ~ egress_local_or_default Sample.config Sample.mac_world Sample.proxied_request.
Proof.
  intros H.
  destruct (fetches (trace (handler Sample.config Sample.mac_world
                              Sample.proxied_request))) as [|rq l] eqn:Hf.
  { vm_compute in Hf. discriminate Hf. }
  assert (In (EFetch rq)
            (trace (handler Sample.config Sample.mac_world Sample.proxied_request)))
    as Hin.
  { apply in_fetches. rewrite Hf. by left. }
  destruct (H rq Hin) as [_ Hdefault].
  assert (f_agents rq = no_agents) as Hag.
  { apply Hdefault. intros (ip & Hp & _). by vm_compute in Hp. }
  vm_compute in Hf. injection Hf as <- _. simpl in Hag. discriminate Hag.
Qed.

(** C6.  With authentication required, the token is taken from the
    [API-Token] header or, when that header is absent or empty, from the
    [token] query parameter, and the expected token from either passes the
    gate: the request is served.  With authentication not required the
    check is not run at all and the request is served.  A request whose
    token fails the validator, or that has none, is answered 401 with no
    effect other than debug logging: no random bytes, no command, no
    probe, no transport, no fetch. *)
Theorem handler_auth_gate (cfg : Config) (w : World) (req : Request) :
  (REQUIRE_TOKEN cfg = true ->
   req_header req "API-Token" = Some (expectedToken w) ->
   result (handler_auth cfg w req) = Ret true /\ served cfg w req) /\
  (REQUIRE_TOKEN cfg = true ->
   str_truthy (req_header req "API-Token") = false ->
   req_query req !! "token" = Some (expectedToken w) ->
   result (handler_auth cfg w req) = Ret true /\ served cfg w req) /\
  (REQUIRE_TOKEN cfg = false ->
   handler_auth cfg w req = ret true /\ served cfg w req) /\
  (REQUIRE_TOKEN cfg = true ->
   (token_accepted w (api_token req) = false \/
    api_token req = None \/
    exists s, api_token req = Some (JStr s) /\ s <> expectedToken w) ->
   result (handler cfg w req) = Ret (mkResp 401 ∅ "Unauthorized: invalid API-Token") /\
   forall e, In e (trace (handler cfg w req)) -> exists msg, e = ELog msg).
Proof.
  assert (result (handler_auth cfg w req) = Ret true -> served cfg w req) as Hserved.
  { intros Hauth. unfold served.
    destruct (truthy_str (req_query req !! "url")) as [targetRaw|] eqn:Hurl.
    - by apply handler_relayed.
    - by apply handler_without_target. }
  assert (forall s, api_token req = Some (JStr s) ->
            token_accepted w (api_token req) = bool_decide (s = expectedToken w)) as Hstr.
  { intros s ->. apply token_accepted_string. }
  split; [|split; [|split]].
  - intros Hreq Hhdr.
    assert (result (handler_auth cfg w req) = Ret true) as Hauth; [|by auto].
    rewrite handler_auth_result, Hreq.
    rewrite (Hstr (expectedToken w)); [by rewrite bool_decide_eq_true_2|].
    unfold api_token. rewrite Hhdr.
    pose proof (expectedToken_truthy w) as Ht. simpl in *. by rewrite Ht.
  - intros Hreq Hhdr Hq.
    assert (result (handler_auth cfg w req) = Ret true) as Hauth; [|by auto].
    rewrite handler_auth_result, Hreq.
    rewrite (Hstr (expectedToken w)); [by rewrite bool_decide_eq_true_2|].
    unfold api_token, query_token.
    destruct (req_header req "API-Token") as [h|]; simpl in *; by rewrite ?Hhdr, Hq.
  - intros Hreq.
    assert (handler_auth cfg w req = ret true) as Hauth.
    { unfold handler_auth. by rewrite Hreq. }
    split; [done|]. apply Hserved. by rewrite Hauth.
  - intros Hreq Hfail.
    assert (result (handler_auth cfg w req) = Ret false) as Hauth.
    { rewrite handler_auth_result, Hreq.
      destruct Hfail as [->|[Hnone|(s & Hs & Hne)]]; [done| |].
      - rewrite Hnone. by rewrite token_accepted_falsy.
      - by rewrite (Hstr s Hs), bool_decide_eq_false_2. }
    destruct (handler_unauthorized cfg w req Hauth) as [Hres Ht].
    split; [exact Hres|]. intros e Hin.
    rewrite Ht in Hin. by apply handler_auth_trace in Hin.
Qed.

Lemma handler_auth_gate_witness :
  (result (handler_auth Sample.locked_config Sample.world
             (mkRequest "GET" {[ "host" := "relay.example" ]}
                {[ "url" := "example.com"; "token" := expectedToken Sample.world ]}
                None)) = Ret true /\
   served Sample.locked_config Sample.world
     (mkRequest "GET" {[ "host" := "relay.example" ]}
        {[ "url" := "example.com"; "token" := expectedToken Sample.world ]} None)) /\
  (result (handler Sample.locked_config Sample.world Sample.relay_request)
     = Ret (mkResp 401 ∅ "Unauthorized: invalid API-Token") /\
   forall e,
     In e (trace (handler Sample.locked_config Sample.world Sample.relay_request)) ->
     exists msg, e = ELog msg).
Proof.
  split.
  - destruct (handler_auth_gate Sample.locked_config Sample.world
                (mkRequest "GET" {[ "host" := "relay.example" ]}
                   {[ "url" := "example.com"; "token" := expectedToken Sample.world ]}
                   None)) as (_ & Hquery & _).
    apply Hquery.
    + vm_compute. reflexivity.
    + vm_compute. reflexivity.
    + vm_compute. reflexivity.
  - destruct (handler_auth_gate Sample.locked_config Sample.world Sample.relay_request)
      as (_ & _ & _ & Hfail).
    apply Hfail.
    + vm_compute. reflexivity.
    + right. left. vm_compute. reflexivity.
Defined.

(** C7.  The handler performs at most one fetch.  When that fetch fails
    with an abort (name [AbortError] or type [aborted], as the timer's
    cancellation does) the reply is 504; when it fails with any other
    error the reply is 502 and its body ends with the error's message;
    and on Linux a relayed request whose interface check or address
    assignment fails is answered 500 without any fetch. *)
Theorem handler_failure_mapping (cfg : Config) (w : World) (req : Request) :
  (length (fetches (trace (handler cfg w req))) <= 1)%nat /\
  (forall rq e,
     In (EFetch rq) (trace (handler cfg w req)) ->
     w_fetch w rq = FetchErr e ->
     (is_abort e = true ->
      result (handler cfg w req) = Ret (mkResp 504 ∅ "Request timed out")) /\
     (is_abort e = false ->
      result (handler cfg w req)
      = Ret (mkResp 502 ∅ ("Upstream error: " +:+ err_message e)))) /\
  (reaches_relay cfg w req ->
   w_platform w = "linux" ->
   (result (checkInterface cfg w) = Ret false \/
    exists ip, result (randomIPv6 cfg w) = Ret (Some ip) /\
               result (addIPv6ToInterface cfg w ip) = Ret false) ->
   fetches (trace (handler cfg w req)) = [] /\
   exists body, result (handler cfg w req) = Ret (mkResp 500 ∅ body)).
Proof.
  split; [|split].
  - destruct (fetches (trace (handler cfg w req))) as [|rq l] eqn:Hf; [simpl; lia|].
    assert (In (EFetch rq) (trace (handler cfg w req))) as Hin.
    { apply in_fetches. rewrite Hf. by left. }
    destruct (handler_fetch_inv cfg w req rq Hin) as (_ & _ & _ & _ & Hone & _).
    rewrite Hone in Hf. injection Hf as <-. simpl. lia.
  - intros rq e Hin Hfail.
    destruct (handler_fetch_inv cfg w req rq Hin) as (_ & _ & _ & _ & _ & Hres & _).
    rewrite Hres, Hfail. simpl. split; intros ->; reflexivity.
  - intros [Hauth [targetRaw Hurl]] Hp Hfail.
    assert (exists body, result (handler_egress cfg w) = Ret (inl (mkResp 500 ∅ body)))
      as [body Heg].
    { destruct (checkInterface_returns cfg w) as [[|] Hchk].
      - destruct Hfail as [Hno|(ip & Hgen & Hadd)]; [congruence|].
        eexists. by apply (egress_assign_failed cfg w ip).
      - eexists. by apply egress_no_interface. }
    destruct (handler_relayed cfg w req targetRaw Hauth Hurl) as [Hres Htr].
    destruct (handler_relay_cases cfg w req targetRaw)
      as [(early & Heg' & Hr & Hq)|(localIP & rq & Heg' & _)];
      rewrite Heg in Heg'; [|discriminate Heg']. injection Heg' as <-.
    split.
    + rewrite Htr, fetches_app, !quiet_fetches by auto with relay. done.
    + exists body. by rewrite Hres.
Qed.

Lemma handler_failure_mapping_witness :
  exists rq,
    In (EFetch rq)
       (trace (handler Sample.config Sample.timeout_world Sample.relay_request)) /\
    result (handler Sample.config Sample.timeout_world Sample.relay_request)
      = Ret (mkResp 504 ∅ "Request timed out").
Proof.
  destruct (fetches (trace (handler Sample.config Sample.timeout_world
                              Sample.relay_request))) as [|rq l] eqn:Hf.
  { vm_compute in Hf. discriminate Hf. }
  assert (In (EFetch rq)
            (trace (handler Sample.config Sample.timeout_world Sample.relay_request)))
    as Hin.
  { apply in_fetches. rewrite Hf. by left. }
  exists rq. split; [exact Hin|].
  destruct (handler_failure_mapping Sample.config Sample.timeout_world
              Sample.relay_request) as (_ & Hmap & _).
  by apply (Hmap rq (mkError "AbortError" (Some "aborted") "The operation was aborted.")).
Defined.

(** ** Known answers *)

Example sha256_abc :
  Buf.to_hex (SHA256.hash (Buf.of_string "abc"))
  = "ba7816bf8f01cfea414140de5dae2223b00361a396177a9cb410ff61f20015ad".
Proof. vm_compute. reflexivity. Qed.

Example hmac_sha256_rfc4231_case2 :
  SHA256.hmac_hex (Buf.of_string "Jefe") "what do ya want for nothing?"
  = "5bdcc146bf60754e6a042426089575c75a003f089d2739839dec58b964ec3843".
Proof. vm_compute. reflexivity. Qed.

Example sample_bucket : nowBucket (w_now Sample.world) = 1700000100.
Proof. reflexivity. Qed.

Example sample_address :
  result (randomIPv6 Sample.config Sample.world)
  = Ret (Some "2001:41d0:601:1100:5950:2a2a:2a2a:2a2a").
Proof. vm_compute. reflexivity. Qed.

Example sample_relay :
  result (handler Sample.config Sample.world Sample.relay_request)
  = Ret (mkResp 200 {[ "x-test" := "1" ]} "abc").
Proof. vm_compute. reflexivity. Qed.

Example sample_scheme : ensureUrlHasScheme "example.com" = "https://example.com".
Proof. reflexivity. Qed.

(** The token of the bucket two buckets later is rejected. *)
Example sample_later_token :
  result (validateApiToken Sample.config Sample.world
            (Some (JStr (expectedToken Sample.later_world)))) = Ret false.
Proof. vm_compute. reflexivity. Qed.

(** [trim] removes a leading U+00A0 and a trailing U+3000 with the blanks. *)
Example sample_trim :
  Str.trim (String (ascii_of_nat 194) (String (ascii_of_nat 160)
              (" http://a:1 " +:+
               String (ascii_of_nat 227) (String (ascii_of_nat 128)
                 (String (ascii_of_nat 128) EmptyString)))))
  = "http://a:1".
Proof. vm_compute. reflexivity. Qed.

Example sample_missing_url :
  result (handler Sample.config Sample.world (mkRequest "POST" ∅ ∅ None))
  = Ret (mkResp 400 ∅ "Missing url").
Proof. vm_compute. reflexivity. Qed.

Example sample_info :
  result (handler Sample.config Sample.mac_world (mkRequest "GET" ∅ ∅ None))
  = Ret (mkResp 200 ∅ "i6.js running (v1.0.0) on darwin").
Proof. vm_compute. reflexivity. Qed.

(** ** The older copy *)

Lemma legacy_randomIPv6_never_null (cfg : Config) (w : World) :
  exists addr, result (Legacy.randomIPv6 cfg w) = Ret (Some addr).
Proof.
  unfold Legacy.randomIPv6.
  rewrite result_bind.
  change (result (randomBytes w 8)) with (Ret (map (w_entropy w) (seq 0 8))).
  cbv iota. unfold lift.
  do 4 (rewrite result_bind; cbn [result];
        rewrite (random_hextet_drawn w 8) by lia; cbv iota).
  by eexists.
Qed.

(** With five configured hextets the older generator prints nine. *)
Lemma legacy_randomIPv6_nine_parts :
  exists addr,
    result (Legacy.randomIPv6 Sample.config Sample.world) = Ret (Some addr) /\
    length (Str.split ":" addr) = 9%nat.
Proof. eexists. split; [by vm_compute|]. by vm_compute. Qed.

Lemma legacy_egress_keeps_address (cfg : Config) (w : World) :
  w_platform w <> "linux" ->
  exists addr, result (Legacy.handler_egress cfg w) = Ret (inr (Some addr)).
Proof.
  intros Hp. destruct (legacy_randomIPv6_never_null cfg w) as [addr Hgen].
  exists addr. unfold Legacy.handler_egress.
  rewrite result_bind, Hgen, bool_decide_eq_false_2 by done.
  by rewrite result_bind, logDebug_result.
Qed.

Lemma legacy_auth_header_only (cfg : Config) (w : World) (req : Request) :
  str_truthy (req_header req "API-Token") = false ->
  result (Legacy.handler_auth cfg w req) = Ret false.
Proof. intros Hh. unfold Legacy.handler_auth. by rewrite Hh. Qed.

Lemma legacy_forwardHeaders_keeps_strip_set :
  Legacy.forwardHeaders {[ "cf-connecting-ip" := "1.2.3.4" ]} ∅
    !! "cf-connecting-ip" = Some (JStr "1.2.3.4").
Proof. by vm_compute. Qed.

(** * Further properties of the module *)

(** ** Target URL *)

Lemma toLowerCase_app s t :
  Str.toLowerCase (s +:+ t) = Str.toLowerCase s +:+ Str.toLowerCase t.
Proof. induction s as [|c s IH]; simpl; [done|]. by rewrite IH. Qed.

(** X1.  [ensureUrlHasScheme] returns a string that starts with
    [http://] or [https://] (in any letter case): the given one when it
    already does, and the given one after [https://] otherwise.  Applying
    it twice is applying it once. *)
Theorem ensureUrlHasScheme_scheme (url : string) :
  let has_scheme u :=
    Str.has_prefix "http://" (Str.toLowerCase u)
    || Str.has_prefix "https://" (Str.toLowerCase u) in
  has_scheme (ensureUrlHasScheme url) = true /\
  ensureUrlHasScheme url = (if has_scheme url then url else "https://" +:+ url) /\
  ensureUrlHasScheme (ensureUrlHasScheme url) = ensureUrlHasScheme url.
Proof.
  intros has_scheme.
  assert (has_scheme (ensureUrlHasScheme url) = true) as Hhas.
  { unfold has_scheme, ensureUrlHasScheme.
    destruct (Str.has_prefix "http://" (Str.toLowerCase url)
              || Str.has_prefix "https://" (Str.toLowerCase url)) eqn:Hc;
      [exact Hc|].
    rewrite toLowerCase_app. apply orb_true_r. }
  split; [exact Hhas|]. split; [reflexivity|].
  unfold has_scheme in Hhas. unfold ensureUrlHasScheme at 1. by rewrite Hhas.
Qed.

(** ** Proxy list *)

Lemma str_or_default_falsy o d : str_truthy o = false -> str_or_default o d = d.
Proof. destruct o as [s|]; simpl; [|done]. by intros ->. Qed.

Lemma str_or_default_truthy o s d : truthy_str o = Some s -> str_or_default o d = s.
Proof.
  destruct o as [t|]; simpl; [|done].
  destruct (Str.nonempty t); [|done]. by intros [= ->].
Qed.

(** X2.  [chooseFromList] only ever returns a non-empty entry of the
    comma-separated list, trimmed; it returns [null] when every entry is
    blank, in particular for a missing or empty list. *)
Theorem chooseFromList_entry (w : World) (listStr : option string) :
  (forall u, chooseFromList w listStr = Some u ->
     u <> "" /\
     exists raw, In raw (Str.split "," (str_or_default listStr "")) /\ u = Str.trim raw) /\
  ((forall raw, In raw (Str.split "," (str_or_default listStr "")) -> Str.trim raw = "") ->
   chooseFromList w listStr = None) /\
  (str_truthy listStr = false -> chooseFromList w listStr = None).
Proof.
  assert ((forall raw, In raw (Str.split "," (str_or_default listStr "")) ->
                       Str.trim raw = "") ->
          chooseFromList w listStr = None) as Hblank.
  { intros Hall. unfold chooseFromList.
    assert (List.filter Str.nonempty
              (map Str.trim (Str.split "," (str_or_default listStr ""))) = []) as ->;
      [|done].
    induction (Str.split "," (str_or_default listStr "")) as [|raw l IH]; [done|].
    simpl. rewrite (Hall raw) by by left. simpl. apply IH.
    intros r Hr. apply Hall. by right. }
  split; [|split; [exact Hblank|]].
  - intros u. unfold chooseFromList.
    destruct (length _ =? 0)%nat; [done|]. intros Hu.
    apply list_elem_of_lookup_2, list_elem_of_In, filter_In in Hu as [Hin Hne].
    split; [by apply StrFacts.nonempty_spec|].
    apply in_map_iff in Hin as (raw & <- & Hraw). by exists raw.
  - intros Hf. apply Hblank. rewrite (str_or_default_falsy _ _ Hf).
    simpl. by intros raw [<-|[]].
Qed.

Lemma chooseFromList_entry_witness :
  "http://a:1" <> "" /\
  exists raw, In raw (Str.split "," (str_or_default (Some " http://a:1 ,socks5://b:2") ""))
              /\ "http://a:1" = Str.trim raw.
Proof.
  apply (chooseFromList_entry Sample.world (Some " http://a:1 ,socks5://b:2")).
  vm_compute. reflexivity.
Defined.

(** ** Extra headers parameter *)

Lemma assign_all_lookup (props : list (string * jsval)) (o : gmap string jsval) k :
  assign_all props o !! k =
  match last_field props k with
  | Some v => Some v
  | None => o !! k
  end.
Proof.
  unfold assign_all, last_field. revert o.
  induction props as [|[k' v] r IH]; intros o; [done|].
  cbn [fold_left List.filter fst snd]. rewrite IH. clear IH.
  case_bool_decide as Hk; simpl.
  - subst k'. rewrite last_cons.
    destruct (last (List.filter _ r)) as [kv|]; simpl; [done|].
    by rewrite lookup_insert_eq.
  - destruct (last (List.filter _ r)) as [kv|]; simpl; [done|].
    by rewrite lookup_insert_ne.
Qed.

(** X4.  [parseHeadersParam] never fails: it gives the empty object for a
    missing or empty parameter, for text that is not JSON, and for JSON
    that is [null], a boolean, a number or a string; for a JSON object it
    gives each field its last value. *)
Theorem parseHeadersParam_cases (w : World) (headersStr : option string) :
  (str_truthy headersStr = false -> parseHeadersParam w headersStr = ∅) /\
  (forall s, truthy_str headersStr = Some s -> w_JSON_parse w s = None ->
             parseHeadersParam w headersStr = ∅) /\
  (forall s v, truthy_str headersStr = Some s -> w_JSON_parse w s = Some v ->
               match v with JObj _ | JArr _ => False | _ => True end ->
               parseHeadersParam w headersStr = ∅) /\
  (forall s fields k,
     truthy_str headersStr = Some s -> w_JSON_parse w s = Some (JObj fields) ->
     parseHeadersParam w headersStr !! k = last_field fields k).
Proof.
  unfold parseHeadersParam. repeat split.
  - by intros ->.
  - intros s Hs Hp. rewrite (truthy_str_Some _ _ Hs), (str_or_default_truthy _ _ _ Hs).
    by rewrite Hp.
  - intros s v Hs Hp Hv.
    rewrite (truthy_str_Some _ _ Hs), (str_or_default_truthy _ _ _ Hs), Hp.
    by destruct v.
  - intros s fields k Hs Hp.
    rewrite (truthy_str_Some _ _ Hs), (str_or_default_truthy _ _ _ Hs), Hp. simpl.
    rewrite assign_all_lookup, lookup_empty. by destruct (last_field fields k).
Qed.

Lemma parseHeadersParam_cases_witness :
  parseHeadersParam Sample.world (Some "{not json") = ∅.
Proof.
  destruct (parseHeadersParam_cases Sample.world (Some "{not json")) as (_ & H & _).
  apply (H "{not json"); reflexivity.
Defined.

(** ** Interface commands *)

(** X5.  [checkInterface] runs the single command [ip link show] and
    returns [true] exactly when it exits with code 0 and its output
    contains the configured interface name. *)
Theorem checkInterface_spec (cfg : Config) (w : World) :
  let r := w_runCmd w "ip link show" in
  result (checkInterface cfg w)
    = Ret ((cmd_code r =? 0) && Str.includes (INTERFACE cfg) (cmd_out r)) /\
  commands (trace (checkInterface cfg w)) = ["ip link show"].
Proof.
  unfold checkInterface, runCmd, bind, emit, ret. simpl.
  destruct (cmd_code _ =? 0); simpl; [|done].
  destruct (Str.includes _ _); done.
Qed.

(** X6.  With assignment disabled [addIPv6ToInterface] succeeds without
    running anything.  With assignment enabled it runs the single command
    [ip -6 addr add <ip>/128 dev <interface>] and succeeds exactly when
    the exit code is 0 or the error output says [File exists], in any
    letter case. *)
Theorem addIPv6ToInterface_spec (cfg : Config) (w : World) (ip : string) :
  (ENABLE_ASSIGN cfg = false -> addIPv6ToInterface cfg w ip = ret true) /\
  (ENABLE_ASSIGN cfg = true ->
   let r := w_runCmd w (assign_command cfg ip) in
   commands (trace (addIPv6ToInterface cfg w ip)) = [assign_command cfg ip] /\
   result (addIPv6ToInterface cfg w ip)
     = Ret ((cmd_code r =? 0)
            || Str.includes "file exists" (Str.toLowerCase (cmd_err r)))).
Proof.
  unfold addIPv6ToInterface, assign_command. split; intros ->; [done|].
  simpl negb. cbv iota. unfold logDebug, runCmd, bind, emit, ret.
  destruct (DEBUG cfg); simpl;
    destruct (cmd_code _ =? 0); simpl; try done;
    destruct (Str.includes _ _); done.
Qed.

Lemma addIPv6ToInterface_spec_witness :
  addIPv6ToInterface Sample.config Sample.world "2001:db8::1" = ret true /\
  commands (trace (addIPv6ToInterface Sample.assign_config Sample.world "2001:db8::1"))
    = [assign_command Sample.assign_config "2001:db8::1"].
Proof.
  split.
  - apply (addIPv6ToInterface_spec Sample.config Sample.world "2001:db8::1").
    reflexivity.
  - apply (addIPv6ToInterface_spec Sample.assign_config Sample.world "2001:db8::1").
    reflexivity.
Defined.

(** ** Token window *)

Lemma nowBucket_div now : nowBucket now = now / 180000 * 180.
Proof. unfold nowBucket. rewrite Z.div_div by lia. reflexivity. Qed.

(** X7.  The expected token is the same throughout a 180-second bucket:
    at two clock values with the same quotient by 180000 milliseconds the
    validator gives the same answer to every string, and to every other
    value that [Buffer.from] treats alike at the two. *)
Theorem validateApiToken_window (cfg : Config) (w w' : World) (token : option jsval) :
  w_now w / 180000 = w_now w' / 180000 ->
  expectedToken w' = expectedToken w /\
  (forall s : option string,
     result (validateApiToken cfg w' (JStr <$> s))
     = result (validateApiToken cfg w (JStr <$> s))) /\
  (w_Buffer_from w' = w_Buffer_from w ->
   result (validateApiToken cfg w' token) = result (validateApiToken cfg w token)).
Proof.
  intros Hq.
  assert (expectedToken w' = expectedToken w) as He.
  { unfold expectedToken, deriveDynamicKey. by rewrite !nowBucket_div, Hq. }
  split; [exact He|]. split.
  - intros s. rewrite !validateApiToken_result. unfold token_accepted.
    by rewrite He, !or_empty_strings.
  - intros Hfrom. rewrite !validateApiToken_result. unfold token_accepted, Buffer_from.
    by rewrite He, Hfrom.
Qed.

Lemma validateApiToken_window_witness :
  expectedToken Sample.same_bucket_world = expectedToken Sample.world /\
  result (validateApiToken Sample.config Sample.same_bucket_world
            (Some (JStr (expectedToken Sample.world))))
  = result (validateApiToken Sample.config Sample.world
              (Some (JStr (expectedToken Sample.world)))).
Proof.
  destruct (validateApiToken_window Sample.config Sample.world Sample.same_bucket_world
              None eq_refl) as (He & Hs & _).
  split; [exact He|]. apply (Hs (Some (expectedToken Sample.world))).
Defined.

(** ** Configured hextets *)

Lemma split_app sep a b :
  Str.split sep (a +:+ String sep b) = (Str.split sep a ++ Str.split sep b)%list.
Proof.
  induction a as [|c a IH]; simpl.
  - by rewrite Ascii.eqb_refl.
  - destruct (Ascii.eqb c sep); [by rewrite IH|].
    rewrite IH. pose proof (StrFacts.split_not_nil sep a) as Hne.
    by destruct (Str.split sep a).
Qed.

Lemma hextets_of_app a b :
  hextets_of (a +:+ ":" +:+ b) = (hextets_of a ++ hextets_of b)%list.
Proof.
  unfold hextets_of.
  change (a +:+ ":" +:+ b) with (a +:+ String ":" b).
  by rewrite split_app, List.filter_app.
Qed.

(** X8.  [randomIPv6] makes one draw of two random bytes per missing
    hextet, and no draw when the configuration is unusable; and its result
    depends on the configuration only through the non-empty parts of the
    text [prefix:subnet]: where the prefix ends and the subnet starts, and
    doubled or trailing colons, make no difference. *)
Theorem randomIPv6_draws (cfg : Config) (w : World) :
  ((length (fixed_hextets cfg) < 8)%nat ->
   trace (randomIPv6 cfg w)
   = [ERandomBytes (2 * (8 - length (fixed_hextets cfg)))]) /\
  ((8 <= length (fixed_hextets cfg))%nat ->
   forall n, ~ In (ERandomBytes n) (trace (randomIPv6 cfg w))) /\
  (forall cfg',
     hextets_of (IPV6_PREFIX cfg' +:+ ":" +:+ IPV6_SUBNET cfg')
       = hextets_of (IPV6_PREFIX cfg +:+ ":" +:+ IPV6_SUBNET cfg) ->
     result (randomIPv6 cfg' w) = result (randomIPv6 cfg w)).
Proof.
  assert (forall c, fixed_hextets c
                    = hextets_of (IPV6_PREFIX c +:+ ":" +:+ IPV6_SUBNET c)) as Hfix.
  { intros c. unfold fixed_hextets. by rewrite hextets_of_app. }
  split; [|split].
  - intros Hlt. by rewrite (randomIPv6_room cfg w Hlt).
  - intros Hge n Hin. destruct (randomIPv6_full cfg w Hge) as [_ Hall].
    rewrite List.Forall_forall in Hall. by destruct (Hall _ Hin) as [msg [=]].
  - intros cfg' Heq.
    assert (fixed_hextets cfg' = fixed_hextets cfg) as Hsame.
    { by rewrite !Hfix, Heq. }
    destruct (le_lt_dec 8 (length (fixed_hextets cfg))) as [Hge|Hlt].
    + destruct (randomIPv6_full cfg w Hge) as [-> _].
      rewrite <- Hsame in Hge. by destruct (randomIPv6_full cfg' w Hge) as [-> _].
    + rewrite (randomIPv6_room cfg w Hlt).
      rewrite <- Hsame in Hlt. rewrite (randomIPv6_room cfg' w Hlt).
      by rewrite Hsame.
Qed.

Lemma randomIPv6_draws_witness :
  trace (randomIPv6 Sample.config Sample.world) = [ERandomBytes 6] /\
  (forall n, ~ In (ERandomBytes n) (trace (randomIPv6 Sample.full_config Sample.world))) /\
  result (randomIPv6 (load_config {[ "I6_IPV6_PREFIX" := "2001:41d0::";
                                     "I6_IPV6_SUBNET" := "601:1100:5950:" ]})
                     Sample.world)
  = result (randomIPv6 Sample.config Sample.world).
Proof.
  split; [|split].
  - apply (randomIPv6_draws Sample.config Sample.world). vm_compute. lia.
  - apply (randomIPv6_draws Sample.full_config Sample.world). vm_compute. lia.
  - apply (randomIPv6_draws Sample.config Sample.world). vm_compute. reflexivity.
Defined.

(** ** Transports *)

(** X3.  The transport selection never fails.  The two transports are
    set together or not at all; each one is built with keep-alive, with
    the resolved local address (none when there is none) and on the
    selected upstream proxy (the [proxy] parameter when given, else an
    entry of the configured list).  A proxy URL that does not parse leaves
    both transports unset even when a local address was resolved; with no
    proxy the transports are the plain ones bound to the local address, or
    unset; and at most two transports are constructed. *)
Theorem handler_agents_selection (cfg : Config) (w : World)
    (proxyParam localIP : option string) :
  let upstream :=
    truthy_str (str_or proxyParam (chooseFromList w (w_env w !! "I6_PROXY_LIST"))) in
  exists ag,
    result (handler_agents cfg w proxyParam localIP) = Ret ag /\
    (is_Some (httpAgent ag) <-> is_Some (httpsAgent ag)) /\
    (forall a, httpAgent ag = Some a \/ httpsAgent ag = Some a ->
       agent_keepAlive a = true /\ agent_localAddress a = localIP /\
       agent_proxy a = upstream) /\
    (str_truthy proxyParam = true -> upstream = proxyParam) /\
    (forall u, upstream = Some u -> w_URL w u = None -> ag = no_agents) /\
    (upstream = None ->
     ag = if str_truthy localIP
          then mkAgents (Some (HttpAgent localIP true)) (Some (HttpsAgent localIP true))
          else no_agents) /\
    (length (new_agents (trace (handler_agents cfg w proxyParam localIP))) <= 2)%nat.
Proof.
  intros upstream.
  assert (str_truthy proxyParam = true -> upstream = proxyParam) as Hparam.
  { intros Hp. unfold upstream, str_or. rewrite Hp.
    destruct proxyParam as [p|]; simpl in *; [|done]. by rewrite Hp. }
  unfold handler_agents. fold upstream. destruct upstream as [u|] eqn:Hup.
  - destruct (buildProxyAgents_cases cfg w u localIP)
      as (t & ag & Heq & Hag & Hnone & _ & Hlen).
    rewrite Heq. exists ag. split; [reflexivity|]. cbn [trace].
    assert (forall u', Some u = Some u' -> w_URL w u' = None -> ag = no_agents) as Hinv.
    { intros u' [= <-]. exact Hnone. }
    destruct Hag as [-> | [-> | ->]]; simpl.
    + split; [split; by intros [? [=]]|].
      split; [by intros a [[=]|[=]]|]. by repeat split.
    + split; [split; by eexists|].
      split; [by intros a [[= <-]|[= <-]]|]. by repeat split.
    + split; [split; by eexists|].
      split; [by intros a [[= <-]|[= <-]]|]. by repeat split.
  - destruct (str_truthy localIP) eqn:Hl.
    + eexists. split; [reflexivity|]. simpl.
      split; [split; by eexists|].
      split; [by intros a [[= <-]|[= <-]]|]. split; [exact Hparam|].
      split; [done|]. split; [done|lia].
    + exists no_agents. split; [reflexivity|]. simpl.
      split; [split; by intros [? [=]]|].
      split; [by intros a [[=]|[=]]|]. split; [exact Hparam|].
      split; [done|]. split; [done|lia].
Qed.

Lemma handler_agents_selection_witness :
  result (handler_agents Sample.config Sample.world
            (Some "not a url") (Some "2001:db8::1")) = Ret no_agents.
Proof.
  destruct (handler_agents_selection Sample.config Sample.world
              (Some "not a url") (Some "2001:db8::1"))
    as (ag & Hres & _ & _ & _ & Hinvalid & _).
  rewrite Hres. f_equal. apply (Hinvalid "not a url"); reflexivity.
Defined.

(** ** Request headers, name by name *)

Lemma obj_falsy_own (o : object) k :
  (forall props, obj_proto o <> ParsedPrototype props) ->
  obj_falsy o k = falsy_at (obj_own o) k.
Proof.
  intros Hp. unfold obj_falsy, obj_get, falsy_at.
  destruct (obj_own o !! k); [done|].
  destruct (obj_proto o) as [| |props]; [done|done|]. by destruct (Hp props).
Qed.

Lemma defaulted_truthy (m o : object) k v :
  truthy v = true -> obj_proto o = obj_proto m ->
  obj_own o !! k = (if obj_falsy m k then Some v else obj_own m !! k) ->
  obj_falsy o k = false.
Proof.
  intros Hv Hp Ho. destruct (obj_falsy m k) eqn:Hf.
  - unfold obj_falsy, obj_get. by rewrite Ho, Hv.
  - rewrite <- Hf. by apply obj_falsy_ext.
Qed.

(** X9.  Read from [fwdHeaders], [user-agent], [accept] and
    [accept-language] are always truthy.  [user-agent] is the [ua]
    parameter when given; otherwise each of the three is given the fixed
    browser default exactly when reading it after the merge of the extra
    headers gives nothing truthy, and keeps its own value if any
    otherwise.  The read sees inherited properties: when the extra
    headers install a prototype through [__proto__] that has such a
    header, no default is set and the header handed to [fetch] is missing.
    Without such a prototype the three headers handed to [fetch] are
    truthy. *)
Theorem forwardHeaders_defaults (w : World)
    (reqHeaders : gmap string string) (extraHeaders : gmap string jsval)
    (uaParam refererParam cookiesParam : option string) :
  let m := merged_object reqHeaders extraHeaders in
  let o := fwdHeaders_object w reqHeaders extraHeaders
             uaParam refererParam cookiesParam in
  let fwd := forwardHeaders w reqHeaders extraHeaders
               uaParam refererParam cookiesParam in
  fwd !! "user-agent" =
    match truthy_str uaParam with
    | Some u => Some (JStr u)
    | None => if obj_falsy m "user-agent" then Some (JStr DEFAULT_UA)
              else obj_own m !! "user-agent"
    end /\
  fwd !! "accept" =
    (if obj_falsy m "accept" then Some (JStr DEFAULT_ACCEPT) else obj_own m !! "accept") /\
  fwd !! "accept-language" =
    (if obj_falsy m "accept-language" then Some (JStr DEFAULT_ACCEPT_LANGUAGE)
     else obj_own m !! "accept-language") /\
  (obj_falsy o "user-agent" = false /\
   obj_falsy o "accept" = false /\
   obj_falsy o "accept-language" = false) /\
  ((forall props, proto_after (extraHeaders !! "__proto__") <> ParsedPrototype props) ->
   falsy_at fwd "user-agent" = false /\
   falsy_at fwd "accept" = false /\
   falsy_at fwd "accept-language" = false).
Proof.
  intros m o fwd.
  destruct (fwdHeaders_object_spec w reqHeaders extraHeaders
              uaParam refererParam cookiesParam) as [Hp Hown].
  fold m o in Hp, Hown.
  pose proof (Hown "user-agent") as Hua.
  pose proof (Hown "accept") as Hac.
  pose proof (Hown "accept-language") as Hal.
  rewrite !decide_False in Hua by done. rewrite decide_True in Hua by done.
  rewrite !decide_False in Hac by done. rewrite decide_True in Hac by done.
  rewrite !decide_False in Hal by done. rewrite decide_True in Hal by done.
  assert (obj_falsy o "user-agent" = false /\ obj_falsy o "accept" = false
          /\ obj_falsy o "accept-language" = false) as Hread.
  { split; [|split].
    - destruct (truthy_str uaParam) as [u|] eqn:Hu.
      + unfold obj_falsy, obj_get. rewrite Hua.
        destruct uaParam as [t|]; simpl in *; [|done].
        destruct (Str.nonempty t) eqn:Ht; [|done]. injection Hu as <-.
        change (negb (Str.nonempty t) = false). by rewrite Ht.
      + by apply (defaulted_truthy m o "user-agent" (JStr DEFAULT_UA)).
    - by apply (defaulted_truthy m o "accept" (JStr DEFAULT_ACCEPT)).
    - by apply (defaulted_truthy m o "accept-language" (JStr DEFAULT_ACCEPT_LANGUAGE)). }
  split; [exact Hua|]. split; [exact Hac|]. split; [exact Hal|].
  split; [exact Hread|]. intros Hproto.
  assert (forall props, obj_proto o <> ParsedPrototype props) as Ho.
  { intros props. rewrite Hp. unfold m. rewrite merged_object_proto. apply Hproto. }
  unfold fwd, forwardHeaders. fold o.
  by rewrite <- !(obj_falsy_own o) by done.
Qed.

Lemma forwardHeaders_defaults_witness :
  falsy_at (forwardHeaders Sample.world {[ "accept" := "" ]} {[ "accept" := JNull ]}
              None None None) "user-agent" = false /\
  falsy_at (forwardHeaders Sample.world {[ "accept" := "" ]} {[ "accept" := JNull ]}
              None None None) "accept" = false /\
  falsy_at (forwardHeaders Sample.world {[ "accept" := "" ]} {[ "accept" := JNull ]}
              None None None) "accept-language" = false.
Proof.
  apply (forwardHeaders_defaults Sample.world {[ "accept" := "" ]}
           {[ "accept" := JNull ]} None None None).
  intros props. vm_compute. intros H. discriminate H.
Defined.

(** With a prototype installed through the extra headers, the inherited
    [user-agent] keeps the default away and [fetch] is handed none. *)
Example forwardHeaders_inherited_user_agent :
  forwardHeaders Sample.world {[ "accept" := "*/*" ]}
    {[ "__proto__" := JObj [("user-agent", JStr "curl/8")] ]} None None None
  = {[ "accept" := JStr "*/*"; "accept-language" := JStr DEFAULT_ACCEPT_LANGUAGE ]}.
Proof. by vm_compute. Qed.

(** X10.  A [cookies] parameter replaces any cookie header.  A [referer]
    parameter is used only when reading [referer] after the merge gives
    nothing truthy, own or inherited; only then, and only when reading
    [origin] gives nothing truthy either, is [origin] set, to the origin
    of the referer when it parses as a URL.  Without the parameters the
    three headers are the own properties the merge left. *)
Theorem forwardHeaders_overrides (w : World)
    (reqHeaders : gmap string string) (extraHeaders : gmap string jsval)
    (uaParam refererParam cookiesParam : option string) :
  let m := merged_object reqHeaders extraHeaders in
  let fwd := forwardHeaders w reqHeaders extraHeaders
               uaParam refererParam cookiesParam in
  fwd !! "cookie" =
    match truthy_str cookiesParam with
    | Some c => Some (JStr c)
    | None => obj_own m !! "cookie"
    end /\
  fwd !! "referer" =
    match truthy_str refererParam with
    | Some r => if obj_falsy m "referer" then Some (JStr r) else obj_own m !! "referer"
    | None => obj_own m !! "referer"
    end /\
  fwd !! "origin" =
    match truthy_str refererParam with
    | Some r =>
        if obj_falsy m "referer" && obj_falsy m "origin" then
          match w_URL w r with
          | Some u => Some (JStr (url_origin u))
          | None => obj_own m !! "origin"
          end
        else obj_own m !! "origin"
    | None => obj_own m !! "origin"
    end.
Proof.
  intros m fwd.
  destruct (fwdHeaders_object_spec w reqHeaders extraHeaders
              uaParam refererParam cookiesParam) as [_ Hown].
  fold m in Hown.
  pose proof (Hown "cookie") as Hco.
  pose proof (Hown "referer") as Hre.
  pose proof (Hown "origin") as Hor.
  rewrite decide_True in Hco by done.
  rewrite !decide_False in Hre by done. rewrite decide_True in Hre by done.
  rewrite !decide_False in Hor by done. rewrite decide_True in Hor by done.
  done.
Qed.

(** X11.  Every other name is an own property of [fwdHeaders] as merged:
    with the value given in the extra headers when there is one, else the
    client's own header unchanged unless its name is [host] or in the
    strip set; except [__proto__], which is never an own property,
    whatever the client or the extra headers give under that name. *)
Theorem forwardHeaders_passes (w : World)
    (reqHeaders : gmap string string) (extraHeaders : gmap string jsval)
    (uaParam refererParam cookiesParam : option string) (k : string) :
  ~ In k written_names ->
  forwardHeaders w reqHeaders extraHeaders uaParam refererParam cookiesParam !! k =
  if decide (k = "__proto__") then None
  else match extraHeaders !! k with
       | Some v => Some v
       | None => if decide (forwarded_name k) then JStr <$> reqHeaders !! k else None
       end.
Proof.
  intros Hk. unfold forwardHeaders.
  rewrite (proj2 (fwdHeaders_object_spec w reqHeaders extraHeaders
                    uaParam refererParam cookiesParam) k).
  do 6 (match goal with
        | |- context [decide (k = ?name)] =>
            destruct (decide (k = name)) as [->|_]; [destruct Hk; simpl; tauto|]
        end).
  apply merged_object_own.
Qed.

Lemma forwardHeaders_passes_witness :
  forwardHeaders Sample.world
    {[ "x-requested-with" := "XMLHttpRequest"; "host" := "relay.example" ]}
    {[ "__proto__" := JStr "x" ]} None None None !! "x-requested-with"
  = Some (JStr "XMLHttpRequest") /\
  forwardHeaders Sample.world
    {[ "x-requested-with" := "XMLHttpRequest"; "host" := "relay.example" ]}
    {[ "__proto__" := JStr "x" ]} None None None !! "__proto__" = None.
Proof.
  split.
  - rewrite (forwardHeaders_passes Sample.world).
    + vm_compute. reflexivity.
    + vm_compute. intros H.
      repeat (destruct H as [H|H]; [discriminate H|]). exact H.
  - rewrite (forwardHeaders_passes Sample.world).
    + vm_compute. reflexivity.
    + vm_compute. intros H.
      repeat (destruct H as [H|H]; [discriminate H|]). exact H.
Defined.

(** ** The handler's replies *)

Lemma handler_info_run cfg w :
  handler_info cfg w =
  if bool_decide (w_platform w = "linux") then
    mkM [ERunCmd "ip -6 addr show"]
        (Ret (mkResp 200 ∅ ("i6.js running (v" +:+ VERSION cfg +:+ ")
" +:+ cmd_out (w_runCmd w "ip -6 addr show"))))
  else
    mkM [] (Ret (mkResp 200 ∅ ("i6.js running (v" +:+ VERSION cfg +:+ ") on "
                               +:+ w_platform w))).
Proof. unfold handler_info. by case_bool_decide. Qed.

Lemma handler_fetch_in_relay cfg w req rq :
  In (EFetch rq) (trace (handler cfg w req)) ->
  exists targetRaw,
    truthy_str (req_query req !! "url") = Some targetRaw /\
    In (EFetch rq) (trace (handler_relay cfg w req targetRaw)).
Proof.
  intros Hin.
  destruct (truthy_str (req_query req !! "url")) as [targetRaw|] eqn:Hurl.
  2:{ by destruct (handler_no_target cfg w req Hurl rq). }
  exists targetRaw. split; [done|].
  pose proof (handler_auth_result cfg w req) as Hauth.
  destruct (if REQUIRE_TOKEN cfg then _ else true) in Hauth.
  - destruct (handler_relayed cfg w req targetRaw Hauth Hurl) as [_ Htr].
    rewrite Htr in Hin. apply in_app_iff in Hin as [Hin|Hin]; [|done].
    by destruct (quiet_handler_auth cfg w req rq).
  - destruct (handler_unauthorized cfg w req Hauth) as [_ Ht]. rewrite Ht in Hin.
    by destruct (quiet_handler_auth cfg w req rq).
Qed.

Lemma handler_relay_request cfg w req targetRaw rq :
  In (EFetch rq) (trace (handler_relay cfg w req targetRaw)) ->
  exists ag,
    rq = mkFetch (ensureUrlHasScheme targetRaw)
           (Str.toUpperCase (req_method req))
           (forwardHeaders w (req_headers req)
              (parseHeadersParam w (req_query req !! "headers"))
              (req_query req !! "ua") (req_query req !! "referer")
              (req_query req !! "cookies"))
           ag (w_hasAbort w)
           (negb (bool_decide (Str.toUpperCase (req_method req) = "GET")
                  || bool_decide (Str.toUpperCase (req_method req) = "HEAD"))).
Proof.
  unfold handler_relay. intros [Hin|(eg & _ & Hin)]%in_trace_bind.
  { by destruct (quiet_handler_egress cfg w rq). }
  destruct eg as [early|localIP]; [destruct Hin|].
  apply in_trace_bind in Hin as [Hin|(ag & _ & Hin)].
  { by destruct (quiet_handler_agents cfg w (req_query req !! "proxy") localIP rq). }
  exists ag. unfold handler_forward in Hin.
  apply in_trace_bind in Hin as [Hin|(_ & _ & Hin)].
  - destruct Hin as [[= <-]|[]]. reflexivity.
  - rewrite handler_respond_trace in Hin. destruct Hin.
Qed.


(** X13.  When the upstream call succeeds the reply is the upstream
    status, the upstream headers through [filterResponseHeaders], and the
    upstream body unchanged. *)
Theorem handler_relays_verbatim (cfg : Config) (w : World) (req : Request)
    (rq : fetch_request) (st : Z) (entries : list (string * string)) (body : string) :
  In (EFetch rq) (trace (handler cfg w req)) ->
  w_fetch w rq = FetchOk st entries body ->
  result (handler cfg w req) = Ret (mkResp st (filterResponseHeaders entries) body).
Proof.
  intros Hin Hok.
  destruct (handler_fetch_inv cfg w req rq Hin) as (_ & _ & _ & _ & _ & Hres & _).
  by rewrite Hres, Hok.
Qed.

Lemma handler_relays_verbatim_witness :
  result (handler Sample.config Sample.world Sample.relay_request)
  = Ret (mkResp 200 (filterResponseHeaders [("x-test", "1")]) "abc").
Proof.
  destruct (fetches (trace (handler Sample.config Sample.world Sample.relay_request)))
    as [|rq l] eqn:Hf.
  { vm_compute in Hf. discriminate Hf. }
  apply (handler_relays_verbatim Sample.config Sample.world Sample.relay_request rq).
  - apply in_fetches. rewrite Hf. by left.
  - reflexivity.
Defined.

(** X14.  The one upstream call of a request is made to the [url]
    parameter, with [https://] put in front when it has no scheme; its
    method is the request's in upper case; it carries the request as body
    unless the method is GET or HEAD; its headers are the transformed
    ones; and it has an abort signal exactly when the platform has
    [AbortController]. *)
Theorem handler_fetch_request (cfg : Config) (w : World) (req : Request)
    (rq : fetch_request) :
  In (EFetch rq) (trace (handler cfg w req)) ->
  exists targetRaw,
    truthy_str (req_query req !! "url") = Some targetRaw /\
    f_url rq = ensureUrlHasScheme targetRaw /\
    f_method rq = Str.toUpperCase (req_method req) /\
    f_body rq = negb (bool_decide (f_method rq = "GET")
                      || bool_decide (f_method rq = "HEAD")) /\
    f_signal rq = w_hasAbort w /\
    f_headers rq =
      forwardHeaders w (req_headers req)
        (parseHeadersParam w (req_query req !! "headers"))
        (req_query req !! "ua") (req_query req !! "referer")
        (req_query req !! "cookies").
Proof.
  intros Hin.
  destruct (handler_fetch_in_relay cfg w req rq Hin) as (targetRaw & Hurl & Hrel).
  destruct (handler_relay_request cfg w req targetRaw rq Hrel) as (ag & ->).
  exists targetRaw. by repeat split.
Qed.

Lemma handler_fetch_request_witness :
  exists rq targetRaw,
    In (EFetch rq) (trace (handler Sample.config Sample.world Sample.relay_request)) /\
    truthy_str (req_query Sample.relay_request !! "url") = Some targetRaw /\
    f_url rq = "https://example.com" /\ f_method rq = "GET" /\ f_body rq = false.
Proof.
  destruct (fetches (trace (handler Sample.config Sample.world Sample.relay_request)))
    as [|rq l] eqn:Hf.
  { vm_compute in Hf. discriminate Hf. }
  assert (In (EFetch rq)
            (trace (handler Sample.config Sample.world Sample.relay_request))) as Hin.
  { apply in_fetches. rewrite Hf. by left. }
  destruct (handler_fetch_request Sample.config Sample.world Sample.relay_request rq Hin)
    as (targetRaw & Hurl & Hu & Hm & Hb & _).
  exists rq, targetRaw. split; [exact Hin|]. split; [exact Hurl|].
  vm_compute in Hurl. injection Hurl as <-.
  split; [exact Hu|]. split; [exact Hm|]. rewrite Hb, Hm. reflexivity.
Defined.

(** X15.  A GET without a [url] that passes authentication is answered
    200 with the version line, and nothing of the relay runs: off Linux no
    effect at all, on Linux the single command [ip -6 addr show], whose
    output follows the version line. *)
Theorem handler_info_reply (cfg : Config) (w : World) (req : Request) :
  result (handler_auth cfg w req) = Ret true ->
  req_method req = "GET" ->
  truthy_str (req_query req !! "url") = None ->
  (w_platform w <> "linux" ->
   result (handler cfg w req)
     = Ret (mkResp 200 ∅ ("i6.js running (v" +:+ VERSION cfg +:+ ") on "
                          +:+ w_platform w)) /\
   trace (handler cfg w req) = trace (handler_auth cfg w req)) /\
  (w_platform w = "linux" ->
   result (handler cfg w req)
     = Ret (mkResp 200 ∅ ("i6.js running (v" +:+ VERSION cfg +:+ ")
" +:+ cmd_out (w_runCmd w "ip -6 addr show"))) /\
   trace (handler cfg w req)
     = (trace (handler_auth cfg w req) ++ [ERunCmd "ip -6 addr show"])%list).
Proof.
  intros Hauth Hget Hurl.
  destruct (handler_without_target cfg w req Hauth Hurl) as [-> ->].
  rewrite bool_decide_eq_true_2 by done. rewrite handler_info_run.
  split; intros Hp.
  - rewrite bool_decide_eq_false_2 by done. simpl. by rewrite app_nil_r.
  - by rewrite bool_decide_eq_true_2 by done.
Qed.

Lemma handler_info_reply_witness :
  result (handler Sample.config Sample.mac_world (mkRequest "GET" ∅ ∅ None))
    = Ret (mkResp 200 ∅ "i6.js running (v1.0.0) on darwin") /\
  trace (handler Sample.config Sample.world (mkRequest "GET" ∅ ∅ None))
    = [ERunCmd "ip -6 addr show"].
Proof.
  split.
  - assert (w_platform Sample.mac_world <> "linux") as Hp.
    { vm_compute. intros H. discriminate H. }
    exact (proj1 (proj1 (handler_info_reply Sample.config Sample.mac_world
                           (mkRequest "GET" ∅ ∅ None) eq_refl eq_refl eq_refl) Hp)).
  - exact (proj2 (proj2 (handler_info_reply Sample.config Sample.world
                           (mkRequest "GET" ∅ ∅ None) eq_refl eq_refl eq_refl) eq_refl)).
Defined.

(** X16.  A request other than GET that passes authentication and has no
    [url] is answered 400 [Missing url], with no effect after the
    authentication. *)
Theorem handler_missing_url (cfg : Config) (w : World) (req : Request) :
  result (handler_auth cfg w req) = Ret true ->
  req_method req <> "GET" ->
  truthy_str (req_query req !! "url") = None ->
  result (handler cfg w req) = Ret (mkResp 400 ∅ "Missing url") /\
  trace (handler cfg w req) = trace (handler_auth cfg w req).
Proof.
  intros Hauth Hget Hurl.
  destruct (handler_without_target cfg w req Hauth Hurl) as [-> ->].
  rewrite bool_decide_eq_false_2 by done. by rewrite app_nil_r.
Qed.

Lemma handler_missing_url_witness :
  result (handler Sample.config Sample.world (mkRequest "POST" ∅ {[ "url" := "" ]} None))
    = Ret (mkResp 400 ∅ "Missing url") /\
  trace (handler Sample.config Sample.world (mkRequest "POST" ∅ {[ "url" := "" ]} None)) = [].
Proof.
  apply (handler_missing_url Sample.config Sample.world
           (mkRequest "POST" ∅ {[ "url" := "" ]} None)).
  - reflexivity.
  - intros H. discriminate H.
  - reflexivity.
Defined.

(** X18.  When the [API-Token] header is present and not empty, it alone
    decides: the [token] query parameter is not consulted, so a valid
    query token does not make up for a wrong header. *)
Theorem handler_auth_header_first (cfg : Config) (w : World) (req : Request) :
  REQUIRE_TOKEN cfg = true ->
  str_truthy (req_header req "API-Token") = true ->
  result (handler_auth cfg w req)
  = Ret (bool_decide (req_header req "API-Token" = Some (expectedToken w))).
Proof.
  intros Hreq Hh. rewrite handler_auth_result, Hreq.
  destruct (req_header req "API-Token") as [h|] eqn:Hhdr; [|done].
  assert (api_token req = Some (JStr h)) as ->.
  { unfold api_token. rewrite Hhdr. simpl in *. by rewrite Hh. }
  rewrite token_accepted_string. f_equal. apply bool_decide_ext.
  split; [by intros ->|by intros [= ->]].
Qed.

Lemma handler_auth_header_first_witness :
  result (handler_auth Sample.locked_config Sample.world
            (mkRequest "GET" {[ "api-token" := "wrong" ]}
                       {[ "token" := expectedToken Sample.world ]} None))
  = Ret false.
Proof.
  rewrite (handler_auth_header_first Sample.locked_config Sample.world).
  - vm_compute. reflexivity.
  - vm_compute. reflexivity.
  - vm_compute. reflexivity.
Defined.

(** ** The effects of a request *)

Lemma checkInterface_events cfg w e :
  In e (trace (checkInterface cfg w)) ->
  e = ERunCmd "ip link show" \/ exists m, e = EWarn m.
Proof.
  unfold checkInterface, runCmd, bind, emit, ret. simpl.
  destruct (negb _); simpl.
  - intros [<-|[<-|[]]]; [by left|right; by eexists].
  - destruct (negb _); simpl.
    + intros [<-|[<-|[]]]; [by left|right; by eexists].
    + intros [<-|[]]. by left.
Qed.

Lemma addIPv6ToInterface_events cfg w ip e :
  In e (trace (addIPv6ToInterface cfg w ip)) ->
  e = ERunCmd (assign_command cfg ip) \/ (exists m, e = EWarn m) \/ (exists m, e = ELog m).
Proof.
  unfold addIPv6ToInterface. destruct (negb (ENABLE_ASSIGN cfg)); [done|].
  rewrite in_trace_bind, logDebug_trace, logDebug_result.
  intros [Hlog|(_ & _ & Hrest)].
  - destruct (DEBUG cfg); [|done]. destruct Hlog as [<-|[]].
    right; right. by eexists.
  - revert Hrest. unfold runCmd, bind, emit, ret. simpl.
    destruct (_ && _); simpl.
    + intros [<-|[<-|[]]]; [by left|right; left; by eexists].
    + intros [<-|[]]. by left.
Qed.

Lemma truthy_str_eq o s : truthy_str o = Some s -> o = Some s.
Proof.
  destruct o as [t|]; simpl; [|done]. destruct (Str.nonempty t); [|done].
  by intros [= ->].
Qed.

Lemma in_logDebug cfg msg e : In e (trace (logDebug cfg msg)) -> exists m, e = ELog m.
Proof.
  rewrite logDebug_trace. destruct (DEBUG cfg); [|done].
  intros [<-|[]]. by eexists.
Qed.

Lemma handler_egress_effects cfg w e :
  In e (trace (handler_egress cfg w)) -> expected_effect cfg w e.
Proof.
  unfold handler_egress. intros [Hin|(gen & Hgen & Hin)]%in_trace_bind.
  { by apply randomIPv6_no_fetch in Hin as [[m ->]|[n ->]]. }
  case_bool_decide as Hp.
  2:{ apply in_trace_bind in Hin as [Hin|(_ & _ & [])].
      by apply in_logDebug in Hin as [m ->]. }
  apply in_trace_bind in Hin as [Hin|(okI & Hchk & Hin)].
  { apply checkInterface_events in Hin as [->|[m ->]]; simpl; tauto. }
  destruct okI; cbn [negb] in Hin; [|destruct Hin].
  apply in_trace_bind in Hin as [Hin|(_ & _ & Hin)].
  { destruct (negb (str_truthy gen)); [|destruct Hin].
    by apply in_logDebug in Hin as [m ->]. }
  destruct (truthy_str gen) as [ip|] eqn:Hip.
  - apply truthy_str_eq in Hip as ->.
    apply in_trace_bind in Hin as [Hin|(added & Hadd & Hin)].
    { apply addIPv6ToInterface_events in Hin as [->|[[m ->]|[m ->]]]; simpl; try done.
      right; right. by exists ip. }
    destruct added; cbn [negb] in Hin; [|destruct Hin].
    apply in_trace_bind in Hin as [Hin|(ok & _ & Hin)].
    { rewrite testIPv6Connectivity_run in Hin. by destruct Hin as [<-|[]]. }
    destruct ok; cbn [negb] in Hin; [destruct Hin|].
    apply in_trace_bind in Hin as [Hin|(_ & _ & [])].
    by apply in_logDebug in Hin as [m ->].
  - apply in_trace_bind in Hin as [[]|(added & Hadd & Hin)].
    injection Hadd as <-. cbn [negb] in Hin.
    by apply in_trace_bind in Hin as [[]|(ok & [= <-] & [])].
Qed.

Lemma handler_agents_events cfg w p l e :
  In e (trace (handler_agents cfg w p l)) ->
  (exists a, e = ENewAgent a) \/ (exists m, e = ELog m).
Proof.
  unfold handler_agents. destruct (truthy_str _) as [u|].
  - destruct (buildProxyAgents_cases cfg w u l) as (t & ag & -> & _ & _ & Hall & _).
    intros Hin. simpl in Hin. rewrite List.Forall_forall in Hall.
    destruct (Hall _ Hin) as [Hlog | [-> | [-> | ->]]]; [by right|left..]; by eexists.
  - destruct (str_truthy l); [|intros []].
    unfold pickAgents, bind, emit, ret. simpl.
    intros [<-|[<-|[]]]; left; by eexists.
Qed.

(** X17.  Whatever the request holds, the handler runs no shell command
    other than [ip link show], [ip -6 addr show] and the assignment of the
    address it generated to the configured interface; and it probes no
    address other than the generated one, on Linux, after the interface
    check and the assignment have succeeded. *)
Theorem handler_effects (cfg : Config) (w : World) (req : Request) (e : event) :
  In e (trace (handler cfg w req)) -> expected_effect cfg w e.
Proof.
  unfold handler. intros [Hin|(authorized & _ & Hin)]%in_trace_bind.
  { by apply handler_auth_trace in Hin as [m ->]. }
  destruct (negb authorized); [destruct Hin|].
  destruct (_ && _).
  { rewrite handler_info_run in Hin. case_bool_decide; [|destruct Hin].
    destruct Hin as [<-|[]]. simpl. tauto. }
  destruct (truthy_str (req_query req !! "url")) as [targetRaw|]; [|destruct Hin].
  unfold handler_relay in Hin.
  apply in_trace_bind in Hin as [Hin|(eg & _ & Hin)].
  { by apply handler_egress_effects. }
  destruct eg as [early|localIP]; [destruct Hin|].
  apply in_trace_bind in Hin as [Hin|(ag & _ & Hin)].
  { by apply handler_agents_events in Hin as [[a ->]|[m ->]]. }
  unfold handler_forward in Hin.
  apply in_trace_bind in Hin as [[<-|[]]|(_ & _ & Hin)]; [done|].
  rewrite handler_respond_trace in Hin. destruct Hin.
Qed.

Lemma handler_effects_witness :
  expected_effect Sample.assign_config Sample.world
    (ERunCmd (assign_command Sample.assign_config
                "2001:41d0:601:1100:5950:2a2a:2a2a:2a2a")).
Proof.
  apply (handler_effects Sample.assign_config Sample.world Sample.relay_request).
  vm_compute. tauto.
Defined.

(** ** The older copy, further *)

Lemma hextet_at_whole w i : Str.split ":" (hextet_at w i) = [hextet_at w i].
Proof.
  apply StrFacts.split_whole. unfold Str.no_sep.
  eapply StrFacts.all_chars_impl; [apply NumFacts.lower_hex_not_colon|].
  apply hextet_at_props.
Qed.

Lemma legacy_randomIPv6_run (cfg : Config) (w : World) :
  Legacy.randomIPv6 cfg w =
  mkM [ERandomBytes 8]
      (Ret (Some (IPV6_PREFIX cfg +:+ ":" +:+ IPV6_SUBNET cfg +:+ ":"
                  +:+ hextet_at w 0 +:+ ":" +:+ hextet_at w 1 +:+ ":"
                  +:+ hextet_at w 2 +:+ ":" +:+ hextet_at w 3))).
Proof.
  unfold Legacy.randomIPv6, randomBytes, lift.
  unfold bind at 1. cbn [result trace emit ret bind app].
  unfold bind at 1. cbn [result trace].
  rewrite (random_hextet_drawn w 8 0) by lia. cbv iota.
  unfold bind at 1. cbn [result trace].
  rewrite (random_hextet_drawn w 8 1) by lia. cbv iota.
  unfold bind at 1. cbn [result trace].
  rewrite (random_hextet_drawn w 8 2) by lia. cbv iota.
  unfold bind at 1. cbn [result trace].
  rewrite (random_hextet_drawn w 8 3) by lia. cbv iota.
  reflexivity.
Qed.

(** X19.  The older generator never returns [null]: it draws 8 bytes and
    appends four generated hextets to the configured prefix and subnet
    texts, so the address has 8 colon-separated parts only when those two
    texts have 4 parts together. *)
Theorem legacy_randomIPv6_shape (cfg : Config) (w : World) :
  exists addr,
    result (Legacy.randomIPv6 cfg w) = Ret (Some addr) /\
    trace (Legacy.randomIPv6 cfg w) = [ERandomBytes 8] /\
    Str.split ":" addr
    = (Str.split ":" (IPV6_PREFIX cfg) ++ Str.split ":" (IPV6_SUBNET cfg)
       ++ [hextet_at w 0; hextet_at w 1; hextet_at w 2; hextet_at w 3])%list /\
    (length (Str.split ":" addr) = 8%nat <->
     (length (Str.split ":" (IPV6_PREFIX cfg))
      + length (Str.split ":" (IPV6_SUBNET cfg)) = 4)%nat).
Proof.
  rewrite legacy_randomIPv6_run. eexists. split; [reflexivity|]. split; [reflexivity|].
  assert (Str.split ":"
            (IPV6_PREFIX cfg +:+ ":" +:+ IPV6_SUBNET cfg +:+ ":"
             +:+ hextet_at w 0 +:+ ":" +:+ hextet_at w 1 +:+ ":"
             +:+ hextet_at w 2 +:+ ":" +:+ hextet_at w 3)
          = (Str.split ":" (IPV6_PREFIX cfg) ++ Str.split ":" (IPV6_SUBNET cfg)
             ++ [hextet_at w 0; hextet_at w 1; hextet_at w 2; hextet_at w 3])%list)
    as Hsplit.
  { change (IPV6_PREFIX cfg +:+ ":" +:+ ?r) with (IPV6_PREFIX cfg +:+ String ":" r).
    rewrite split_app. f_equal.
    change (IPV6_SUBNET cfg +:+ ":" +:+ ?r) with (IPV6_SUBNET cfg +:+ String ":" r).
    rewrite split_app. f_equal.
    change (hextet_at w 0 +:+ ":" +:+ ?r) with (hextet_at w 0 +:+ String ":" r).
    rewrite split_app, hextet_at_whole. simpl app. f_equal.
    change (hextet_at w 1 +:+ ":" +:+ ?r) with (hextet_at w 1 +:+ String ":" r).
    rewrite split_app, hextet_at_whole. simpl app. f_equal.
    change (hextet_at w 2 +:+ ":" +:+ ?r) with (hextet_at w 2 +:+ String ":" r).
    rewrite split_app, !hextet_at_whole. reflexivity. }
  split; [exact Hsplit|]. rewrite Hsplit, !List.length_app. simpl. lia.
Qed.

(** X20.  Off Linux the older handler keeps the generated address
    although it ran no command and no probe, and binds both transports to
    it. *)
Theorem legacy_egress_unverified (cfg : Config) (w : World) :
  w_platform w <> "linux" ->
  exists addr,
    result (Legacy.handler_egress cfg w) = Ret (inr (Some addr)) /\
    commands (trace (Legacy.handler_egress cfg w)) = [] /\
    (forall ip, ~ In (EProbe ip) (trace (Legacy.handler_egress cfg w))) /\
    result (Legacy.handler_agents (Some addr))
    = Ret (mkAgents (Some (HttpAgent (Some addr) true))
                    (Some (HttpsAgent (Some addr) true))).
Proof.
  intros Hp. unfold Legacy.handler_egress.
  rewrite legacy_randomIPv6_run, bool_decide_eq_false_2 by done.
  eexists. split; [|split; [|split]].
  - rewrite result_bind. cbn [result]. by rewrite result_bind, logDebug_result.
  - rewrite trace_bind. cbn [result trace]. rewrite trace_bind, logDebug_result.
    rewrite logDebug_trace. by destruct (DEBUG cfg).
  - intros ip. rewrite trace_bind. cbn [result trace].
    rewrite trace_bind, logDebug_result, logDebug_trace.
    destruct (DEBUG cfg); simpl.
    + intros [H|[H|[]]]; discriminate H.
    + intros [H|[]]. discriminate H.
  - unfold Legacy.handler_agents.
    assert (str_truthy
              (Some (IPV6_PREFIX cfg +:+ ":" +:+ IPV6_SUBNET cfg +:+ ":"
                     +:+ hextet_at w 0 +:+ ":" +:+ hextet_at w 1 +:+ ":"
                     +:+ hextet_at w 2 +:+ ":" +:+ hextet_at w 3)) = true) as ->;
      [|reflexivity].
    simpl. apply StrFacts.nonempty_spec. intros Hempty.
    apply (f_equal String.length) in Hempty.
    rewrite !StrFacts.str_length_app in Hempty. simpl in Hempty. lia.
Qed.

Lemma legacy_egress_unverified_witness :
  exists addr,
    result (Legacy.handler_egress Sample.config Sample.mac_world)
      = Ret (inr (Some addr)) /\
    commands (trace (Legacy.handler_egress Sample.config Sample.mac_world)) = [] /\
    (forall ip, ~ In (EProbe ip)
                     (trace (Legacy.handler_egress Sample.config Sample.mac_world))) /\
    result (Legacy.handler_agents (Some addr))
    = Ret (mkAgents (Some (HttpAgent (Some addr) true))
                    (Some (HttpsAgent (Some addr) true))).
Proof.
  apply (legacy_egress_unverified Sample.config Sample.mac_world).
  vm_compute. intros H. discriminate H.
Defined.

(** X21.  The older handler authenticates every request, and by the
    [API-Token] header alone: the answer is whether that header is the
    expected token, whatever the query holds. *)
Theorem legacy_auth_header (cfg : Config) (w : World) (req : Request) :
  result (Legacy.handler_auth cfg w req)
  = Ret (bool_decide (req_header req "API-Token" = Some (expectedToken w))).
Proof.
  unfold Legacy.handler_auth.
  destruct (str_truthy (req_header req "API-Token")) eqn:Ht; simpl.
  - rewrite validateApiToken_result.
    destruct (req_header req "API-Token") as [h|]; [|done]. simpl.
    rewrite token_accepted_string. f_equal. apply bool_decide_ext.
    split; [by intros ->|by intros [= ->]].
  - rewrite bool_decide_eq_false_2; [done|]. intros Heq.
    by rewrite Heq, expectedToken_truthy in Ht.
Qed.

(** X22.  The older header transform drops [host] only: every other
    client header, the CDN and forwarding markers included, is an own
    property of [fwdHeaders] unless an extra header of the same name
    replaces it; except [__proto__], which is never an own property. *)
Theorem legacy_forwardHeaders_lookup (reqHeaders : gmap string string)
    (extraHeaders : gmap string jsval) (k : string) :
  Legacy.forwardHeaders reqHeaders extraHeaders !! k =
  if decide (k = "__proto__") then None
  else match extraHeaders !! k with
       | Some v => Some v
       | None => if decide (Str.toLowerCase k = "host") then None
                 else JStr <$> reqHeaders !! k
       end.
Proof.
  unfold Legacy.forwardHeaders.
  rewrite (proj2 (obj_assign_after_strings _ extraHeaders) k).
  destruct (decide (k = "__proto__")); [done|].
  destruct (extraHeaders !! k); [done|].
  destruct (decide (Str.toLowerCase k = "host")) as [Hh|Hh].
  - rewrite (map_lookup_filter_None_2 _ reqHeaders k); [done|].
    right. intros x _ Hk. by apply Hk.
  - destruct (reqHeaders !! k) as [x|] eqn:Hr.
    + by rewrite (map_lookup_filter_Some_2 _ reqHeaders k x Hr Hh).
    + rewrite (map_lookup_filter_None_2 _ reqHeaders k); [done|by left].
Qed.

(** ** Provider fetchers and routes *)

Lemma response_ok_spec st : response_ok st = true <-> 200 <= st <= 299.
Proof. unfold response_ok. rewrite andb_true_iff, !Z.leb_le. tauto. Qed.

(** X23.  A provider fetcher fails with [No URL provided], before any
    network use, when the URL is missing or empty.  Otherwise it makes one
    call, to that URL, with its site's [Referer] and the fixed
    [User-Agent] as the only headers; it returns the body exactly when the
    status is 200-299, and otherwise fails with a message that holds the
    status and its text.  [fetchMangaParkImage] and [fetchMangabuddyImage]
    are this fetcher at their two referers. *)
Theorem fetch_image_spec (net : fetch_request -> image_reply)
    (referer : string) (url : option string) :
  (truthy_str url = None ->
   fetch_image net referer url = mkM [] (Throw (mkError "Error" None "No URL provided"))) /\
  (forall u, truthy_str url = Some u ->
     trace (fetch_image net referer url) = [EFetch (provider_request referer u)]) /\
  (forall body,
     result (fetch_image net referer url) = Ret body <->
     exists u st txt,
       truthy_str url = Some u /\
       net (provider_request referer u) = ImageReply st txt body /\
       200 <= st <= 299) /\
  (forall u st txt body,
     truthy_str url = Some u ->
     net (provider_request referer u) = ImageReply st txt body ->
     ~ 200 <= st <= 299 ->
     result (fetch_image net referer url)
     = Throw (mkError "Error" None
                ("Failed to fetch image: " +:+ Num.toDecimal st +:+ " " +:+ txt))) /\
  fetchMangaParkImage net url = fetch_image net "https://mangapark.net/" url /\
  fetchMangabuddyImage net url = fetch_image net "https://mangabuddy.com/" url.
Proof.
  split; [|split; [|split; [|split; [|split; reflexivity]]]].
  - intros Hurl. unfold fetch_image. by rewrite Hurl.
  - intros u Hurl. unfold fetch_image. rewrite Hurl. fold (provider_request referer u).
    rewrite trace_bind. simpl.
    destruct (net (provider_request referer u)) as [st txt body|e];
      [destruct (response_ok st)|]; done.
  - intros body. unfold fetch_image.
    destruct (truthy_str url) as [u|] eqn:Hurl.
    + fold (provider_request referer u). rewrite result_bind. simpl. split.
      * destruct (net (provider_request referer u)) as [st txt b|e] eqn:Hnet;
          [|done].
        destruct (response_ok st) eqn:Hok; [|done]. intros [= ->].
        exists u, st, txt. repeat split; try done; by apply response_ok_spec.
      * intros (u' & st & txt & [= <-] & -> & Hst).
        apply response_ok_spec in Hst. by rewrite Hst.
    + split; [done|]. by intros (u & st & txt & [=] & _).
  - intros u st txt body Hurl Hnet Hst. unfold fetch_image. rewrite Hurl.
    fold (provider_request referer u). rewrite result_bind. simpl.
    rewrite Hnet. destruct (response_ok st) eqn:Hok; [|done].
    by apply response_ok_spec in Hok.
Qed.

Lemma fetch_image_spec_witness :
  trace (fetchMangaParkImage (fun _ => ImageReply 404 "Not Found" "")
           (Some "https://img.example/1.jpg"))
    = [EFetch (provider_request "https://mangapark.net/" "https://img.example/1.jpg")] /\
  result (fetchMangaParkImage (fun _ => ImageReply 404 "Not Found" "")
            (Some "https://img.example/1.jpg"))
    = Throw (mkError "Error" None "Failed to fetch image: 404 Not Found").
Proof.
  destruct (fetch_image_spec (fun _ => ImageReply 404 "Not Found" "")
              "https://mangapark.net/" (Some "https://img.example/1.jpg"))
    as (_ & Htrace & _ & Hfail & _).
  split.
  - apply (Htrace "https://img.example/1.jpg"). reflexivity.
  - apply (Hfail "https://img.example/1.jpg" 404 "Not Found" "").
    + reflexivity.
    + reflexivity.
    + lia.
Defined.

Lemma result_catch {A} (m : M A) (h : js_error -> M A) :
  result (catch m h) =
  match result m with Ret a => Ret a | Throw e => result (h e) end.
Proof. unfold catch. by destruct (result m) eqn:Hm. Qed.

(** X24.  A provider route always replies, with the CORS header: 400
    [No URL provided] without calling the fetcher when the [url]
    parameter is missing or empty; 200 with content type [image/jpeg] and
    the fetched bytes when the fetcher returns; and 500 with the fixed
    text [Failed to fetch image] when the fetcher fails, whatever its
    error says. *)
Theorem image_route_spec (fetcher : option string -> M string) (req : Request) :
  let url := req_query req !! "url" in
  exists resp,
    result (image_route fetcher req) = Ret resp /\
    res_headers resp !! "Access-Control-Allow-Origin" = Some "*" /\
    (str_truthy url = false ->
     image_route fetcher req = ret (mkResp 400 CORS_HEADERS "No URL provided")) /\
    (str_truthy url = true ->
     (forall body, result (fetcher url) = Ret body ->
        resp = mkResp 200 (<["Content-Type" := "image/jpeg"]> CORS_HEADERS) body) /\
     (forall e, result (fetcher url) = Throw e ->
        resp = mkResp 500 CORS_HEADERS "Failed to fetch image")).
Proof.
  intros url. unfold image_route. fold url.
  destruct (str_truthy url) eqn:Hu; cbn [negb].
  - rewrite result_catch, result_bind.
    destruct (result (fetcher url)) as [body|e] eqn:Hf.
    + exists (mkResp 200 (<["Content-Type" := "image/jpeg"]> CORS_HEADERS) body).
      split; [done|]. split; [done|]. split; [done|].
      intros _. split; [by intros b [= <-]|done].
    + exists (mkResp 500 CORS_HEADERS "Failed to fetch image").
      split; [done|]. split; [done|]. split; [done|].
      intros _. split; [done|by intros e' _].
  - exists (mkResp 400 CORS_HEADERS "No URL provided").
    split; [done|]. split; [done|]. split; done.
Qed.

Lemma image_route_spec_witness :
  result (image_route (fetchMangabuddyImage (fun _ => ImageError
                         (mkError "FetchError" (Some "system") "getaddrinfo ENOTFOUND")))
                      (mkRequest "GET" ∅ {[ "url" := "https://img.example/1.jpg" ]} None))
  = Ret (mkResp 500 CORS_HEADERS "Failed to fetch image").
Proof.
  destruct (image_route_spec
              (fetchMangabuddyImage (fun _ => ImageError
                 (mkError "FetchError" (Some "system") "getaddrinfo ENOTFOUND")))
              (mkRequest "GET" ∅ {[ "url" := "https://img.example/1.jpg" ]} None))
    as (resp & Hres & _ & _ & Hcall).
  rewrite Hres. f_equal.
  destruct Hcall as [_ Hfail]; [reflexivity|].
  apply (Hfail (mkError "FetchError" (Some "system") "getaddrinfo ENOTFOUND")).
  reflexivity.
Defined.

(** ** Environment *)

(** X25.  For the configuration an environment variable set to the empty
    text counts as not set: the default applies. *)
Theorem load_config_empty_value (env : gmap string string) (name : string) :
  load_config (<[name := ""]> env) = load_config (delete name env).
Proof.
  assert (forall key d,
            str_or_default (<[name := ""]> env !! key) d
            = str_or_default (delete name env !! key) d) as H.
  { intros key d. destruct (decide (name = key)) as [->|Hne].
    - by rewrite lookup_insert_eq, lookup_delete_eq.
    - by rewrite lookup_insert_ne, lookup_delete_ne. }
  unfold load_config. by rewrite !H.
Qed.

(** ** Debug logging *)

Lemma unlogged_app t1 t2 : unlogged (t1 ++ t2) = (unlogged t1 ++ unlogged t2)%list.
Proof. apply List.filter_app. Qed.

Lemma unlogged_logs t : (forall e, In e t -> exists m, e = ELog m) -> unlogged t = [].
Proof.
  induction t as [|e t IH]; intros Hall; [done|].
  destruct (Hall e) as [m ->]; [by left|]. simpl. apply IH.
  intros e' He'. apply Hall. by right.
Qed.

Lemma sbl_refl {A} (m : M A) : same_but_logs m m.
Proof. by split. Qed.

Lemma sbl_bind {A B} (m m' : M A) (k k' : A -> M B) :
  same_but_logs m m' -> (forall a, same_but_logs (k a) (k' a)) ->
  same_but_logs (bind m k) (bind m' k').
Proof.
  intros [Hr Ht] Hk. split.
  - rewrite !result_bind, Hr. destruct (result m'); [apply Hk|done].
  - rewrite !trace_bind, !unlogged_app, Ht, Hr.
    destruct (result m'); [by rewrite (proj2 (Hk a))|done].
Qed.

Lemma sbl_catch {A} (m m' : M A) (h h' : js_error -> M A) :
  same_but_logs m m' -> (forall e, same_but_logs (h e) (h' e)) ->
  same_but_logs (catch m h) (catch m' h').
Proof.
  intros [Hr Ht] Hh. unfold catch. rewrite <- Hr.
  destruct (result m) as [a|e] eqn:Em.
  - split; [by rewrite Em, Hr|exact Ht].
  - destruct (Hh e) as [Hhr Hht]. split; [exact Hhr|].
    cbn [trace]. by rewrite !unlogged_app, Ht, Hht.
Qed.

Lemma sbl_logDebug cfg cfg' msg : same_but_logs (logDebug cfg msg) (logDebug cfg' msg).
Proof.
  split; [by rewrite !logDebug_result|].
  rewrite !logDebug_trace. by destruct (DEBUG cfg), (DEBUG cfg').
Qed.

Lemma sbl_validateApiToken cfg cfg' w token :
  same_but_logs (validateApiToken cfg w token) (validateApiToken cfg' w token).
Proof.
  split; [by rewrite !validateApiToken_result|].
  rewrite !unlogged_logs; [done|apply validateApiToken_trace..].
Qed.

Lemma sbl_randomIPv6 cfg debug w :
  same_but_logs (randomIPv6 (with_debug cfg debug) w) (randomIPv6 cfg w).
Proof.
  destruct (le_lt_dec 8 (length (fixed_hextets cfg))) as [Hge|Hlt].
  - destruct (randomIPv6_full cfg w Hge) as [Hr Ht].
    destruct (randomIPv6_full (with_debug cfg debug) w Hge) as [Hr' Ht'].
    split; [by rewrite Hr, Hr'|].
    rewrite List.Forall_forall in Ht, Ht'. by rewrite !unlogged_logs.
  - rewrite (randomIPv6_room cfg w Hlt), (randomIPv6_room (with_debug cfg debug) w Hlt).
    apply sbl_refl.
Qed.

Ltac sbl_steps :=
  repeat first
    [ apply sbl_logDebug
    | apply sbl_validateApiToken
    | apply sbl_randomIPv6
    | apply sbl_refl
    | apply sbl_bind; [|intros ?]
    | apply sbl_catch; [|intros ?]
    | match goal with
      | |- same_but_logs (if ?b then _ else _) _ => destruct b
      | |- same_but_logs (match ?o with Some _ => _ | None => _ end) _ => destruct o
      | |- same_but_logs (match ?o with inl _ => _ | inr _ => _ end) _ => destruct o
      end ].

(** X26.  The debug flag changes nothing but log lines: with it on or
    off the handler gives the same reply and performs the same commands,
    probes, transport constructions and fetch, in the same order. *)
Theorem handler_debug_only_logs (cfg : Config) (debug : bool) (w : World) (req : Request) :
  result (handler (with_debug cfg debug) w req) = result (handler cfg w req) /\
  unlogged (trace (handler (with_debug cfg debug) w req))
  = unlogged (trace (handler cfg w req)).
Proof.
  change (same_but_logs (handler (with_debug cfg debug) w req) (handler cfg w req)).
  unfold handler, handler_auth, handler_info, handler_relay, handler_egress,
    handler_agents, buildProxyAgents, addIPv6ToInterface.
  cbn [REQUIRE_TOKEN VERSION INTERFACE ENABLE_ASSIGN with_debug].
  sbl_steps.
Qed.
